(** * Oracle browser engine: cookies, page actions and the run coordinator

    A shallow embedding of the browser-automation engine of the oracle CLI
    ([src/browser/index.ts], [src/browser/cookies.ts],
    [src/browser/pageActions.ts], [src/browser/config.ts]) and the properties
    its specification states about it, followed by further properties of
    the same code, of the flags that configure it
    ([src/cli/browserConfig.ts]) and of the functions that drive the page.

    Conventions of the embedding:
    - JavaScript strings are [string]s of ASCII characters; [length] counts
      characters and [toLowerCase] folds [A-Z] only.
    - JavaScript numbers that hold timestamps and counters are integers [Z].
      [Math.round(value / 1000)] is computed exactly (round half up): for an
      integer of at most 10^12 the quotient in binary64 is within 2^-23 of
      the exact one and falls on the same side of every half. The conversion
      of Chrome's microsecond timestamps is computed in binary64, as the
      code computes it.
    - [undefined] and [null] fields are [None]; both are nullish for [??].
    - Awaited calls into Chrome, the file system, the cookie store and child
      processes are answered by an environment (a [World]); every call is
      recorded in a trace. *)

From Stdlib Require Import ZArith Ascii String List Bool Lia Floats.
From stdpp Require Import base option list strings.
Import ListNotations.
Local Open Scope string_scope.

(** ** JavaScript string primitives *)

Module Js.

(** [\s] of a JavaScript regular expression, and the characters removed by
    [String.prototype.trim], restricted to ASCII. *)
Definition isSpace (c : ascii) : bool :=
  let n := nat_of_ascii c in
  ((9 <=? n)%nat && (n <=? 13)%nat) || (n =? 32)%nat.

Definition isUpper (c : ascii) : bool :=
  let n := nat_of_ascii c in (65 <=? n)%nat && (n <=? 90)%nat.

Definition isLowerOrDigit (c : ascii) : bool :=
  let n := nat_of_ascii c in
  ((97 <=? n)%nat && (n <=? 122)%nat) || ((48 <=? n)%nat && (n <=? 57)%nat).

Definition lowerChar (c : ascii) : ascii :=
  if isUpper c then ascii_of_nat (nat_of_ascii c + 32) else c.

Fixpoint toLowerCase (s : string) : string :=
  match s with
  | EmptyString => EmptyString
  | String c s' => String (lowerChar c) (toLowerCase s')
  end.

Fixpoint trimStart (s : string) : string :=
  match s with
  | EmptyString => EmptyString
  | String c s' => if isSpace c then trimStart s' else s
  end.

(** [trimEnd] keeps a character when it is not a space or when something
    non-blank follows it. *)
Fixpoint trimEnd (s : string) : string :=
  match s with
  | EmptyString => EmptyString
  | String c s' =>
      match trimEnd s' with
      | EmptyString => if isSpace c then EmptyString else String c EmptyString
      | rest => String c rest
      end
  end.

Definition trim (s : string) : string := trimEnd (trimStart s).

Fixpoint startsWith (p s : string) : bool :=
  match p, s with
  | EmptyString, _ => true
  | String a p', String b s' => if Ascii.eqb a b then startsWith p' s' else false
  | String _ _, EmptyString => false
  end.

(** [s.includes(sub)] *)
Fixpoint includes (sub s : string) : bool :=
  startsWith sub s ||
  match s with
  | EmptyString => false
  | String _ s' => includes sub s'
  end.

(** [s.replace(/[class]+/g, r)]: every maximal run of characters of the class
    is replaced by [r]. *)
Fixpoint replaceRunsFrom (p : ascii -> bool) (r : string) (inRun : bool) (s : string) : string :=
  match s with
  | EmptyString => EmptyString
  | String c s' =>
      if p c then
        if inRun then replaceRunsFrom p r true s'
        else r ++ replaceRunsFrom p r true s'
      else String c (replaceRunsFrom p r false s')
  end.

Definition replaceRuns (p : ascii -> bool) (r s : string) : string :=
  replaceRunsFrom p r false s.

(** [s.split(/[class]+/)]: the pieces between the runs, with an empty piece
    before a leading run and after a trailing one. *)
Fixpoint splitRunsFrom (p : ascii -> bool) (cur : string) (inRun : bool) (s : string) : list string :=
  match s with
  | EmptyString => [cur]
  | String c s' =>
      if p c then
        if inRun then splitRunsFrom p cur true s'
        else cur :: splitRunsFrom p EmptyString true s'
      else splitRunsFrom p (cur ++ String c EmptyString) false s'
  end.

Definition splitRuns (p : ascii -> bool) (s : string) : list string :=
  splitRunsFrom p EmptyString false s.

(** Truthiness of a string: non-empty. *)
Definition truthy (s : string) : bool :=
  match s with EmptyString => false | _ => true end.

(** A [Set<string>] keeps insertion order and ignores a second [add]. *)
Definition setAdd (x : string) (set : list string) : list string :=
  if existsb (String.eqb x) set then set else set ++ [x].

End Js.

(** ** Page actions: the model matcher ([src/browser/pageActions.ts]) *)

Module PageActions.

Record ModelMatchers := {
  labelTokens : list string;
  testIdTokens : list string;
}.

(** The local helper [push]: trim, and add when something is left. *)
Definition push (value : string) (set : list string) : list string :=
  let normalized := Js.trim value in
  if Js.truthy normalized then Js.setAdd normalized set else set.

Definition isDot (c : ascii) : bool := Ascii.eqb c "."%char.

Definition buildModelMatchersLiteral (targetModel : string) : ModelMatchers :=
  let base := Js.toLowerCase (Js.trim targetModel) in
  let labelTokens := [] in
  let testIdTokens := [] in
  let labelTokens := push base labelTokens in
  let labelTokens := push (Js.replaceRuns Js.isSpace " " base) labelTokens in
  let collapsed := Js.replaceRuns Js.isSpace "" base in
  let labelTokens := push collapsed labelTokens in
  let dotless := Js.replaceRuns isDot "" base in
  let labelTokens := push dotless labelTokens in
  let labelTokens := push ("chatgpt " ++ base) labelTokens in
  let labelTokens := push ("chatgpt " ++ dotless) labelTokens in
  let labelTokens := push ("gpt " ++ base) labelTokens in
  let labelTokens := push ("gpt " ++ dotless) labelTokens in
  let labelTokens :=
    fold_left (fun set token => push token set)
      (filter (fun t => Is_true (Js.truthy t))
         (map Js.trim (Js.splitRuns Js.isSpace base)))
      labelTokens in
  let hyphenated := Js.replaceRuns Js.isSpace "-" base in
  let testIdTokens := push hyphenated testIdTokens in
  let testIdTokens := push collapsed testIdTokens in
  let testIdTokens := push dotless testIdTokens in
  let testIdTokens := push ("model-switcher-" ++ hyphenated) testIdTokens in
  let testIdTokens := push ("model-switcher-" ++ collapsed) testIdTokens in
  let labelTokens :=
    match labelTokens with [] => Js.setAdd base labelTokens | _ => labelTokens end in
  let testIdTokens :=
    match testIdTokens with
    | [] => Js.setAdd (Js.replaceRuns Js.isSpace "-" base) testIdTokens
    | _ => testIdTokens
    end in
  {| labelTokens := filter (fun t => Is_true (Js.truthy t)) labelTokens;
     testIdTokens := filter (fun t => Is_true (Js.truthy t)) testIdTokens |}.

(** The in-page helper [normalizeText] of [buildModelSelectionExpression]. *)
Definition normalizeText (value : string) : string :=
  if Js.truthy value then
    Js.trim
      (Js.replaceRuns Js.isSpace " "
         (Js.replaceRuns (fun c => negb (Js.isLowerOrDigit c)) " "
            (Js.toLowerCase value)))
  else "".

(** A candidate menu entry as the page script sees it. *)
Record OptionNode := {
  dataTestid : option string;   (* getAttribute('data-testid') *)
  textContent : string;
}.

Definition matchesTestId (m : ModelMatchers) (option : OptionNode) : bool :=
  let testid := Js.toLowerCase (default "" (dataTestid option)) in
  Js.truthy testid && existsb (fun id => Js.includes id testid) (testIdTokens m).

Definition matchesText (m : ModelMatchers) (option : OptionNode) : bool :=
  let normalizedText := normalizeText (textContent option) in
  existsb
    (fun token =>
       let normalizedToken := normalizeText token in
       if Js.truthy normalizedToken then Js.includes normalizedToken normalizedText
       else false)
    (labelTokens m).

Definition optionMatches (m : ModelMatchers) (option : OptionNode) : bool :=
  matchesTestId m option || matchesText m option.

(** [findOption]: the first matching entry of the first menu that has one. *)
Fixpoint findInMenu (m : ModelMatchers) (buttons : list OptionNode) : option OptionNode :=
  match buttons with
  | [] => None
  | o :: rest => if optionMatches m o then Some o else findInMenu m rest
  end.

Fixpoint findOption (m : ModelMatchers) (menus : list (list OptionNode)) : option OptionNode :=
  match menus with
  | [] => None
  | menu :: rest =>
      match findInMenu m menu with
      | Some o => Some o
      | None => findOption m rest
      end
  end.

(** *** The response observer ([buildResponseObserverExpression])

    The page is a function of the time in milliseconds: the conversation
    turns in document order and whether the stop control is in the DOM. The
    script reads the page when one of its callbacks runs, and the page does
    not change while a callback runs. Time is given by a clock and by the
    schedule of the callbacks; nothing is assumed of them here. The interval
    that clicks a stop control with a foreign label acts on the page only
    and is part of the page. *)

Record Turn := {
  isAssistantTurn : bool;
  innerText : string;           (* of the preferred content node *)
  innerHTML : string;
  dataMessageId : option string;
  turnTestid : option string;
}.

Record Extraction := {
  text : string;
  html : string;
  messageId : option string;
  turnId : option string;
}.

Record PageState := {
  turns : list Turn;
  stopVisible : bool;           (* Boolean(document.querySelector(STOP_SELECTOR)) *)
}.

Definition Page := Z -> PageState.

(** The clock of the page. [later t]: the next reading of [Date.now()] by
    code that has been running since the time [t]. [timer d t]: the time at
    which a callback given to [setTimeout(callback, d)] at [t] runs. *)
Record Clock := {
  later : Z -> Z;
  timer : Z -> Z -> Z;
}.

Definition textLength (e : Extraction) : Z := Z.of_nat (String.length (text e)).

(** [extractFromTurns]: the last assistant turn whose text is not blank.
    The argument lists the turns from the last one to the first. *)
Fixpoint extractFromReversed (reversed : list Turn) : option Extraction :=
  match reversed with
  | [] => None
  | turn :: earlier =>
      if negb (isAssistantTurn turn) then extractFromReversed earlier
      else if Js.truthy (Js.trim (innerText turn)) then
        Some {| text := innerText turn; html := innerHTML turn;
                messageId := dataMessageId turn; turnId := turnTestid turn |}
      else extractFromReversed earlier
  end.

Definition extractFromTurns (p : PageState) : option Extraction :=
  extractFromReversed (rev (turns p)).





(** What wakes the promise of [captureViaObserver]: the mutation observer
    is called back, or the timer of [timeoutMs] fires. *)
Inductive Wakeup :=
| Mutation (t : Z)
| TimerFired (t : Z).





End PageActions.

(** ** Cookie normalization ([src/browser/cookies.ts]) *)

Module Cookies.

(** A cookie object with the properties that [PuppeteerCookie] and
    [CookieParam] name. Property names are case-sensitive: the cookie store
    writes [Secure] and [HttpOnly], the protocol reads [secure] and
    [httpOnly]. An absent property is [None]. *)
Record Cookie := {
  name : option string;
  value : option string;
  domain : option string;
  path : option string;
  expires : option Z;
  Secure : option bool;
  HttpOnly : option bool;
  secure : option bool;
  httpOnly : option bool;
  url : option string;
}.

(** [Math.round(value / d)] for a positive divisor: round half up. *)
Definition roundDiv (value d : Z) : Z := ((2 * value + d) / (2 * d))%Z.

(** The JavaScript number that holds an integer: the nearest binary64. *)
Definition toNumber (value : Z) : float :=
  SF2Prim (SpecFloat.binary_normalize 53 1024 value 0 false).

(** [Math.round(x)] of a finite number: the nearest integer, a half going
    up. [None]: [x] is infinite or not a number. *)
Definition mathRound (x : float) : option Z :=
  match Prim2SF x with
  | SpecFloat.S754_zero _ => Some 0%Z
  | SpecFloat.S754_finite negative mantissa exponent =>
      let n := if negative then Z.neg mantissa else Z.pos mantissa in
      Some (if (0 <=? exponent)%Z then (n * 2 ^ exponent)%Z
            else roundDiv n (2 ^ (- exponent)))
  | _ => None
  end.

Definition normalizeExpiration (expires : option Z) : option Z :=
  match expires with
  | None => None
  | Some value =>
      if (value =? 0)%Z then None
      else if (value <=? 0)%Z then None
      else if (value >? 1000000000000)%Z then
        mathRound (PrimFloat.sub (PrimFloat.div (toNumber value) (toNumber 1000000))
                     (toNumber 11644473600))
      else if (value >? 1000000000)%Z then Some (roundDiv value 1000)
      else Some value
  end.

Definition normalizeCookie (cookie : Cookie) (fallbackHost : string) : option Cookie :=
  match name cookie with
  | None | Some EmptyString => None
  | Some cookieName =>
      let domain :=
        match domain cookie with
        | Some d => if Js.startsWith "." d then d else d
        | None => fallbackHost
        end in
      let expires := normalizeExpiration (expires cookie) in
      let secure := match Secure cookie with Some b => b | None => true end in
      let httpOnly := match HttpOnly cookie with Some b => b | None => false end in
      Some {| name := Some cookieName;
              value := Some (default "" (value cookie));
              domain := Some domain;
              path := Some (default "/" (path cookie));
              expires := expires;
              Secure := None;
              HttpOnly := None;
              secure := Some secure;
              httpOnly := Some httpOnly;
              url := None |}
  end.

End Cookies.

(** ** Effects: thrown values, the environment, the trace and the monad *)

Module Effects.

(** A thrown JavaScript value. *)
Inductive Thrown :=
| Err (message : string)                          (* new Error(message) *)
| ErrCaused (message : string) (cause : Thrown)   (* new Error(message, { cause }) *)
| CookieSyncErr (message : string)                (* new ChromeCookieSyncError(message) *)
| NonError (text : string).                       (* not an Error; text is String(value) *)

(** [error instanceof Error ? error.message : String(error)] *)
Definition messageOf (e : Thrown) : string :=
  match e with
  | Err m | ErrCaused m _ | CookieSyncErr m => m
  | NonError t => t
  end.

Definition instanceofError (e : Thrown) : bool :=
  match e with NonError _ => false | _ => true end.

Inductive Settled (T : Type) :=
| Resolved (v : T)
| Rejected (e : Thrown).
Arguments Resolved {T} v.
Arguments Rejected {T} e.

(** What the environment answers to an awaited call: how the promise
    settles, and whether the connection emitted [disconnect] while the call
    was pending. *)
Record Outcome (T : Type) := {
  fired : bool;
  settled : Settled T;
}.
Arguments fired {T} o.
Arguments settled {T} o.

Record Chrome := { pid : Z; port : Z }.

(** The connected client: whether it has a [DOM] domain with [enable]. *)
Record Client := { hasDOM : bool; domHasEnable : bool }.

Record BrowserAttachment := { attachmentPath : string; displayPath : string }.

Record Meta := { metaTurnId : option string; metaMessageId : option string }.

Record Answer := { answerText_ : string; answerHtml_ : option string; answerMeta : Meta }.

(** The value of [import('chrome-cookies-secure')]. *)
Record Imported := { hasGetCookiesPromised : bool; defaultHasGetCookiesPromised : bool }.

Inductive ModelStatus :=
| AlreadySelected (label : option string)
| Switched (label : option string)
| OptionNotFound
| ButtonMissing
| NoStatus.

Inductive RunStatus := attempted | complete.

(** Lines passed to the logger and to [console.warn], one constructor per
    template of the source. *)
Inductive LogLine :=
| LogConfig (promptLength : nat)
| LogCreatedProfile (userDataDir : string)
| LogCopiedCookies (count : Z) (profile : string)
| LogNoCookies
| LogSkipCookieSync
| LogPromptReady (chars : nat)
| LogUploading (display : string)
| LogAllUploaded
| LogRetry (attempt : nat) (message : string)
| LogFailedRun (message : string)
| LogStack (error : Thrown)
| LogClosedBeforeCompletion (message : string)
| LogCleanup (status : RunStatus) (elapsedMs : Z)
| LogLeftRunning (chromePort : Z) (userDataDir : string)
| LogFailedSetCookie (cookieName : option string) (message : string)
| LogCookieSyncOverride (message : string)
| LogModelPicker (label : string)
| WarnLoadFailed (error : Thrown)
| WarnBindingHint
| WarnRebuildManually
| WarnNoGetter
| WarnRebuildNotAllowed
| WarnAttemptingRebuild
| WarnRunning (python command : string) (args : list string)
| WarnRebuildCompleted
| WarnRebuildFailed (code : Z)
| WarnSpawnFailed (error : Thrown).

(** One entry of the trace of a run. *)
Inductive Event :=
| Mkdtemp (o : Outcome string)
| LaunchChrome (userDataDir : string) (o : Outcome Chrome)
| RegisterTerminationHooks (keepBrowser : bool) (o : Outcome unit)
| RemoveTerminationHooks
| ConnectToChrome (chromePort : Z) (o : Outcome Client)
| MarkConnectionLost
| HideChromeWindow (o : Outcome unit)
| EnableDomains (withDom : bool) (o : Outcome unit)
| ClearBrowserCookies (o : Outcome unit)
| ImportCookiesModule (o : Outcome Imported)
| SpawnRebuild (command : string) (args : list string) (o : Outcome (option Z))
| GetCookiesPromised (candidateUrl : string) (profile : option string)
    (o : Outcome (option (list Cookies.Cookie)))
| SetCookie (cookie : Cookies.Cookie) (o : Outcome (option bool))
| NavigateToChatGPT (target : string) (o : Outcome unit)
| EnsureNotBlocked (headless : bool) (o : Outcome unit)
| EnsurePromptReady (timeoutMs : Z) (o : Outcome unit)
| EvaluateModelSelection (desiredModel : string) (o : Outcome ModelStatus)
| UploadAttachmentFile (attachment : BrowserAttachment) (o : Outcome unit)
| WaitForAttachmentCompletion (budgetMs : Z) (o : Outcome unit)
| SubmitPrompt (promptText : string) (o : Outcome unit)
| StartThinkingStatusMonitor
| StopThinkingStatusMonitor
| WaitForAssistantResponse (timeoutMs : Z) (o : Outcome Answer)
| CaptureAssistantMarkdown (meta : Meta) (o : Outcome (option string))
| Delay (ms : Z) (o : Outcome unit)
| ClientClose (o : Outcome unit)
| ChromeKill (o : Outcome unit)
| RmUserDataDir (userDataDir : string) (o : Outcome unit)
| Logged (line : LogLine).

(** Everything outside the modelled code. The awaited calls take the number
    of trace entries so far as a logical time, so that the same call may be
    answered differently on different occasions. Constants and helpers of
    [constants.ts], [utils.ts] and the URL class are fields too. *)
Record World := {
  env : string -> option string;             (* process.env *)
  platform : string;                         (* process.platform *)
  HAS_PNPM_WORKSPACE : bool;
  CHATGPT_URL : string;
  COOKIE_URLS : list string;
  urlHostname : string -> option string;     (* new URL(u).hostname; None: throws *)
  stripQuery : string -> string;
  estimateTokenCount : string -> Z;
  dateNow : nat -> Z;
  mkdtemp : nat -> Outcome string;
  launchChrome : string -> nat -> Outcome Chrome;
  registerTerminationHooks : bool -> nat -> Outcome unit;
  connectToChrome : Z -> nat -> Outcome Client;
  hideChromeWindow : nat -> Outcome unit;
  enableDomains : bool -> nat -> Outcome unit;
  clearBrowserCookies : nat -> Outcome unit;
  importCookiesModule : nat -> Outcome Imported;
  spawnRebuild : string -> list string -> nat -> Outcome (option Z);
  getCookiesPromised : string -> option string -> nat -> Outcome (option (list Cookies.Cookie));
  setCookie : Cookies.Cookie -> nat -> Outcome (option bool);
  navigateToChatGPT : string -> nat -> Outcome unit;
  ensureNotBlocked : bool -> nat -> Outcome unit;
  ensurePromptReady : Z -> nat -> Outcome unit;
  evaluateModelSelection : string -> nat -> Outcome ModelStatus;
  uploadAttachmentFile : BrowserAttachment -> nat -> Outcome unit;
  waitForAttachmentCompletion : Z -> nat -> Outcome unit;
  submitPrompt : string -> nat -> Outcome unit;
  waitForAssistantResponse : Z -> nat -> Outcome Answer;
  captureAssistantMarkdown : Meta -> nat -> Outcome (option string);
  delay : Z -> nat -> Outcome unit;
  clientClose : nat -> Outcome unit;
  chromeKill : nat -> Outcome unit;
  rmUserDataDir : string -> nat -> Outcome unit;
}.

(** The mutable state: the trace, the module variable of [cookies.ts] and
    the variables of [runBrowserMode] that its [catch] and [finally] blocks
    and the [disconnect] handler read. *)
Record St := {
  trace : list Event;
  attemptedSqliteRebuild : bool;
  client : option Client;
  connectionClosedUnexpectedly : bool;
  stopThinkingMonitor : option bool;     (* None: null; Some stopped *)
  runStatus : RunStatus;
}.

Definition addEvent (e : Event) (st : St) : St :=
  {| trace := trace st ++ [e];
     attemptedSqliteRebuild := attemptedSqliteRebuild st;
     client := client st;
     connectionClosedUnexpectedly := connectionClosedUnexpectedly st;
     stopThinkingMonitor := stopThinkingMonitor st;
     runStatus := runStatus st |}.

Definition setAttempted (b : bool) (st : St) : St :=
  {| trace := trace st;
     attemptedSqliteRebuild := b;
     client := client st;
     connectionClosedUnexpectedly := connectionClosedUnexpectedly st;
     stopThinkingMonitor := stopThinkingMonitor st;
     runStatus := runStatus st |}.

Definition setClient (c : option Client) (st : St) : St :=
  {| trace := trace st;
     attemptedSqliteRebuild := attemptedSqliteRebuild st;
     client := c;
     connectionClosedUnexpectedly := connectionClosedUnexpectedly st;
     stopThinkingMonitor := stopThinkingMonitor st;
     runStatus := runStatus st |}.

Definition setConnectionClosed (b : bool) (st : St) : St :=
  {| trace := trace st;
     attemptedSqliteRebuild := attemptedSqliteRebuild st;
     client := client st;
     connectionClosedUnexpectedly := b;
     stopThinkingMonitor := stopThinkingMonitor st;
     runStatus := runStatus st |}.

Definition setMonitor (m : option bool) (st : St) : St :=
  {| trace := trace st;
     attemptedSqliteRebuild := attemptedSqliteRebuild st;
     client := client st;
     connectionClosedUnexpectedly := connectionClosedUnexpectedly st;
     stopThinkingMonitor := m;
     runStatus := runStatus st |}.

Definition setRunStatus (s : RunStatus) (st : St) : St :=
  {| trace := trace st;
     attemptedSqliteRebuild := attemptedSqliteRebuild st;
     client := client st;
     connectionClosedUnexpectedly := connectionClosedUnexpectedly st;
     stopThinkingMonitor := stopThinkingMonitor st;
     runStatus := s |}.

(** A process that has just started. *)
Definition processStart : St :=
  {| trace := [];
     attemptedSqliteRebuild := false;
     client := None;
     connectionClosedUnexpectedly := false;
     stopThinkingMonitor := None;
     runStatus := attempted |}.

Inductive Res (A : Type) :=
| Ok (a : A)
| Throw (e : Thrown)
| OutOfFuel.
Arguments Ok {A} a.
Arguments Throw {A} e.
Arguments OutOfFuel {A}.

Definition M (A : Type) : Type := St -> Res A * St.

Definition ret {A} (a : A) : M A := fun st => (Ok a, st).

Definition bind {A B} (m : M A) (k : A -> M B) : M B :=
  fun st =>
    match m st with
    | (Ok a, st') => k a st'
    | (Throw e, st') => (Throw e, st')
    | (OutOfFuel, st') => (OutOfFuel, st')
    end.

Definition throw {A} (e : Thrown) : M A := fun st => (Throw e, st).

(** [try { m } catch (error) { handler error }] *)
Definition tryCatch {A} (m : M A) (handler : Thrown -> M A) : M A :=
  fun st =>
    match m st with
    | (Throw e, st') => handler e st'
    | other => other
    end.

(** [try { m } finally { cleanup }]: the cleanup runs on every exit; when it
    completes normally the completion of [m] stands. *)
Definition tryFinally {A} (m : M A) (cleanup : M unit) : M A :=
  fun st =>
    match m st with
    | (OutOfFuel, st') => (OutOfFuel, st')
    | (r, st') =>
        match cleanup st' with
        | (Ok _, st'') => (r, st'')
        | (Throw e, st'') => (Throw e, st'')
        | (OutOfFuel, st'') => (OutOfFuel, st'')
        end
    end.

Definition get : M St := fun st => (Ok st, st).
Definition modify (f : St -> St) : M unit := fun st => (Ok tt, f st).
Definition emit (e : Event) : M unit := modify (addEvent e).
Definition log (l : LogLine) : M unit := emit (Logged l).
Definition when (b : bool) (m : M unit) : M unit := if b then m else ret tt.

(** The handler registered with [client.on('disconnect', ...)]. *)
Definition markConnectionLost (st : St) : St :=
  setConnectionClosed true (addEvent MarkConnectionLost st).

(** An awaited call: the environment answers at the current logical time;
    if the connection drops meanwhile and the handler is registered, the
    handler runs before the call settles. *)
Definition perform {T} (answer : nat -> Outcome T) (ev : Outcome T -> Event) : M T :=
  fun st =>
    let o := answer (length (trace st)) in
    let st1 :=
      match client st with
      | Some _ => if fired o then markConnectionLost st else st
      | None => st
      end in
    (match settled o with Resolved v => Ok v | Rejected e => Throw e end,
     addEvent (ev o) st1).

(** [Date.now()] *)
Definition now (w : World) : M Z := fun st => (Ok (dateNow w (length (trace st))), st).

End Effects.

Declare Scope js_scope.
Delimit Scope js_scope with js.
Notation "'let!' x ':=' m 'in' k" := (Effects.bind m (fun x => k))
  (at level 10, x pattern, m at level 100, k at level 200) : js_scope.
Notation "'do!' m 'in' k" := (Effects.bind m (fun _ => k))
  (at level 10, m at level 100, k at level 200) : js_scope.

(** ** The cookie synchronizer ([src/browser/cookies.ts]) *)

Module CookieSync.
Import Effects.
Local Open Scope js_scope.

Inductive ChromeCookiesSecureModule := SecureModule.

(** A case-insensitive literal pattern, as [/literal/i.test(message)]. *)
Definition testIgnoreCase (literal message : string) : bool :=
  Js.includes (Js.toLowerCase literal) (Js.toLowerCase message).

Definition isSqliteBindingError (error : Thrown) : bool :=
  if negb (instanceofError error) then false
  else
    let message := messageOf error in
    testIgnoreCase "node_sqlite3.node" message
    || testIgnoreCase "bindings file" message
    || testIgnoreCase "Module did not self-register" message.

Definition resolveChromeCookieModule (candidate : Imported) : option ChromeCookiesSecureModule :=
  if hasGetCookiesPromised candidate then Some SecureModule
  else if defaultHasGetCookiesPromised candidate then Some SecureModule
  else None.

Definition unableToLoad : string :=
  "Unable to load chrome-cookies-secure. Cookie copy is required.".

Fixpoint foldM {A B} (f : B -> A -> M B) (l : list A) (acc : B) : M B :=
  match l with
  | [] => ret acc
  | x :: rest => let! acc' := f acc x in foldM f rest acc'
  end.

Section WithWorld.
Variable w : World.

Definition rebuildAllowed : bool :=
  match env w "ORACLE_ALLOW_SQLITE_REBUILD" with
  | Some v => String.eqb v "1"
  | None => false
  end.

Definition attemptSqliteRebuild : M bool :=
  let! st := get in
  if attemptedSqliteRebuild st then ret false
  else
    do! modify (setAttempted true) in
    if negb rebuildAllowed then
      do! log WarnRebuildNotAllowed in
      ret false
    else
      let pnpmCommand := if String.eqb (platform w) "win32" then "pnpm.cmd" else "pnpm" in
      let args :=
        (["rebuild"; "chrome-cookies-secure"; "sqlite3"; "keytar"]
           ++ (if HAS_PNPM_WORKSPACE w then ["--workspace-root"] else []))%list in
      let python := default "/usr/bin/python3" (env w "PYTHON") in
      do! log WarnAttemptingRebuild in
      do! log (WarnRunning python pnpmCommand args) in
      tryCatch
        (let! code := perform (spawnRebuild w pnpmCommand args) (SpawnRebuild pnpmCommand args) in
         match code with
         | Some 0%Z => do! log WarnRebuildCompleted in ret true
         | _ => do! log (WarnRebuildFailed (default 0%Z code)) in ret false
         end)
        (fun error => do! log (WarnSpawnFailed error) in ret false).

(** The function calls itself after a successful rebuild; [fuel] bounds
    the depth of that recursion. *)
Fixpoint loadChromeCookiesModule (fuel : nat) : M ChromeCookiesSecureModule :=
  match fuel with
  | O => fun st => (OutOfFuel, st)
  | S fuel' =>
      let! imported :=
        tryCatch
          (let! imported := perform (importCookiesModule w) ImportCookiesModule in
           ret (inl imported))
          (fun error =>
             do! log (WarnLoadFailed error) in
             if isSqliteBindingError error then
               let! rebuilt := attemptSqliteRebuild in
               if rebuilt then
                 let! reloaded := loadChromeCookiesModule fuel' in
                 ret (inr reloaded)
               else
                 do! log WarnBindingHint in
                 throw (CookieSyncErr unableToLoad)
             else
               do! log WarnRebuildManually in
               throw (CookieSyncErr unableToLoad)) in
      match imported with
      | inr reloaded => ret reloaded
      | inl imported =>
          match resolveChromeCookieModule imported with
          | None =>
              do! log WarnNoGetter in
              throw (CookieSyncErr "chrome-cookies-secure did not expose getCookiesPromised")
          | Some secureModule => ret secureModule
          end
      end
  end.

Definition loadFuel : nat := 2.

Definition mergeKey (normalized : Cookies.Cookie) (fallbackHostname : string) : string :=
  default fallbackHostname (Cookies.domain normalized) ++ ":"
    ++ default "" (Cookies.name normalized).

Definition mergeCookie (fallbackHostname : string)
    (merged : list (string * Cookies.Cookie)) (cookie : Cookies.Cookie)
    : list (string * Cookies.Cookie) :=
  match Cookies.normalizeCookie cookie fallbackHostname with
  | None => merged
  | Some normalized =>
      let key := mergeKey normalized fallbackHostname in
      if existsb (fun entry => String.eqb (fst entry) key) merged then merged
      else (merged ++ [(key, normalized)])%list
  end.

Definition readChromeCookies (url : string) (profile : option string)
    : M (list Cookies.Cookie) :=
  let! chromeModule := loadChromeCookiesModule loadFuel in
  let urlsToCheck := fold_left (fun set u => Js.setAdd u set) (stripQuery w url :: COOKIE_URLS w) [] in
  let! merged :=
    foldM
      (fun merged candidateUrl =>
         let! rawCookies :=
           perform (getCookiesPromised w candidateUrl profile)
             (GetCookiesPromised candidateUrl profile) in
         match rawCookies with
         | None => ret merged
         | Some rawCookies =>
             match urlHostname w candidateUrl with
             | None => throw (Err "Invalid URL")
             | Some fallbackHostname =>
                 ret (fold_left (mergeCookie fallbackHostname) rawCookies merged)
             end
         end)
      urlsToCheck [] in
  ret (map snd merged).

Definition withUrl (url : string) (cookie : Cookies.Cookie) : Cookies.Cookie :=
  let setUrl (u : string) :=
    {| Cookies.name := Cookies.name cookie;
       Cookies.value := Cookies.value cookie;
       Cookies.domain := Cookies.domain cookie;
       Cookies.path := Cookies.path cookie;
       Cookies.expires := Cookies.expires cookie;
       Cookies.Secure := Cookies.Secure cookie;
       Cookies.HttpOnly := Cookies.HttpOnly cookie;
       Cookies.secure := Cookies.secure cookie;
       Cookies.httpOnly := Cookies.httpOnly cookie;
       Cookies.url := Some u |} in
  match Cookies.domain cookie with
  | None | Some EmptyString => setUrl url
  | Some d =>
      if String.eqb d "localhost" then setUrl url
      else if negb (Js.startsWith "." d) then setUrl ("https://" ++ d)
      else cookie
  end.

Definition applyCookie (url : string) (applied : Z) (cookie : Cookies.Cookie) : M Z :=
  let cookieWithUrl := withUrl url cookie in
  tryCatch
    (let! result := perform (setCookie w cookieWithUrl) (SetCookie cookieWithUrl) in
     match result with
     | Some true => ret (applied + 1)%Z
     | _ => ret applied
     end)
    (fun error =>
       do! log (LogFailedSetCookie (Cookies.name cookie) (messageOf error)) in
       ret applied).

Definition syncCookies (url : string) (profile : option string) (allowErrors : bool) : M Z :=
  tryCatch
    (let! cookies := readChromeCookies url profile in
     match cookies with
     | [] => ret 0%Z
     | _ => foldM (applyCookie url) cookies 0%Z
     end)
    (fun error =>
       let message := messageOf error in
       if allowErrors then
         do! log (LogCookieSyncOverride message) in
         ret 0%Z
       else
         throw (match error with
                | CookieSyncErr _ => error
                | _ => CookieSyncErr message
                end)).

End WithWorld.
End CookieSync.

(** ** Configuration ([src/browser/config.ts], [src/browser/types.ts]) *)

Module Automation.
(** [BrowserAutomationConfig]: every field is optional. *)
Record BrowserAutomationConfig := {
  chromeProfile : option string;
  chromePath : option string;
  url : option string;
  timeoutMs : option Z;
  inputTimeoutMs : option Z;
  cookieSync : option bool;
  headless : option bool;
  keepBrowser : option bool;
  hideWindow : option bool;
  desiredModel : option string;
  debug : option bool;
  allowCookieErrors : option bool;
}.
End Automation.

Module Engine.
Import Effects.
Local Open Scope js_scope.

Record ResolvedBrowserConfig := {
  chromeProfile : option string;
  chromePath : option string;
  url : string;
  timeoutMs : Z;
  inputTimeoutMs : Z;
  cookieSync : bool;
  headless : bool;
  keepBrowser : bool;
  hideWindow : bool;
  desiredModel : option string;
  debug : bool;
  allowCookieErrors : bool;
}.

Record BrowserRunOptions := {
  prompt : option string;
  attachments : option (list BrowserAttachment);
  config : option Automation.BrowserAutomationConfig;
  heartbeatIntervalMs : option Z;
  verbose : option bool;
}.

Record BrowserRunResult := {
  answerText : string;
  answerMarkdown : string;
  answerHtml : option string;
  tookMs : Z;
  answerTokens : Z;
  answerChars : nat;
  chromePid : Z;
  chromePort : Z;
  userDataDir : string;
}.

Definition dquote : string := String (ascii_of_nat 34) EmptyString.

Definition promptRequired : string := "Prompt text is required when using browser mode.".

Definition windowClosed : string :=
  "Chrome window closed before Oracle finished. Please keep it open until completion.".

Definition isWebSocketClosureError (error : Thrown) : bool :=
  let message := Js.toLowerCase (messageOf error) in
  Js.includes "websocket connection closed" message
  || Js.includes "websocket is closed" message
  || Js.includes "websocket error" message
  || Js.includes "target closed" message.

(** Modelled from the spec: [withRetries] of [src/browser/utils.ts], which
    is not part of the sources. Transcript capture is retried "a small
    bounded number of times with short backoff": the task runs once and,
    while it throws and retries are left, [onRetry] is told, [delayMs]
    elapses and the task runs again; the last error is rethrown. *)
Fixpoint withRetriesFrom (w : World) {A} (task : M A) (retries : nat) (delayMs : Z)
    (onRetry : nat -> Thrown -> M unit) (attempt : nat) : M A :=
  tryCatch task
    (fun error =>
       match retries with
       | O => throw error
       | S retries' =>
           do! onRetry attempt error in
           do! perform (delay w delayMs) (Delay delayMs) in
           withRetriesFrom w task retries' delayMs onRetry (S attempt)
       end).

Definition withRetries (w : World) {A} (task : M A) (retries : nat) (delayMs : Z)
    (onRetry : nat -> Thrown -> M unit) : M A :=
  withRetriesFrom w task retries delayMs onRetry 0.

Fixpoint forEach {A} (l : list A) (f : A -> M unit) : M unit :=
  match l with
  | [] => ret tt
  | x :: rest => do! f x in forEach rest f
  end.

Section WithWorld.
Variable w : World.

Definition resolveBrowserConfig (config : option Automation.BrowserAutomationConfig)
    : ResolvedBrowserConfig :=
  let field {T} (proj : Automation.BrowserAutomationConfig -> option T) : option T :=
    match config with Some c => proj c | None => None end in
  {| url := default (CHATGPT_URL w) (field Automation.url);
     timeoutMs := default 900000%Z (field Automation.timeoutMs);
     inputTimeoutMs := default 30000%Z (field Automation.inputTimeoutMs);
     cookieSync := default true (field Automation.cookieSync);
     headless := default false (field Automation.headless);
     keepBrowser := default false (field Automation.keepBrowser);
     hideWindow := default false (field Automation.hideWindow);
     desiredModel := field Automation.desiredModel;
     chromeProfile := field Automation.chromeProfile;
     chromePath := field Automation.chromePath;
     debug := default false (field Automation.debug);
     allowCookieErrors := default false (field Automation.allowCookieErrors) |}.

(** [ensureModelSelection] of [pageActions.ts]: evaluates the selection
    script in the page and reports its status. *)
Definition ensureModelSelection (desiredModel : string) : M unit :=
  let! result :=
    perform (evaluateModelSelection w desiredModel) (EvaluateModelSelection desiredModel) in
  match result with
  | AlreadySelected label | Switched label =>
      log (LogModelPicker (default desiredModel label))
  | OptionNotFound =>
      throw (Err ("Unable to find model option matching " ++ dquote ++ desiredModel
                    ++ dquote ++ " in the model switcher."))
  | _ => throw (Err "Unable to locate the ChatGPT model selector button.")
  end.

(** [config.debug || process.env.CHATGPT_DEVTOOLS_TRACE === '1'] *)
Definition tracing (config : ResolvedBrowserConfig) : bool :=
  debug config ||
  match env w "CHATGPT_DEVTOOLS_TRACE" with
  | Some v => String.eqb v "1"
  | None => false
  end.

Definition startThinkingStatusMonitor : M unit :=
  do! emit StartThinkingStatusMonitor in
  modify (setMonitor (Some false)).

(** [stopThinkingMonitor?.()] *)
Definition stopMonitor : M unit :=
  let! st := get in
  match stopThinkingMonitor st with
  | Some false =>
      do! modify (setMonitor (Some true)) in
      emit StopThinkingStatusMonitor
  | _ => ret tt
  end.

(** The body of the [try] block of [runBrowserMode]. *)
Definition tryBlock (options : BrowserRunOptions) (config : ResolvedBrowserConfig)
    (promptText : string) (attachments : list BrowserAttachment)
    (chrome : Chrome) (userDataDir : string) (startedAt : Z) : M BrowserRunResult :=
  let! connected := perform (connectToChrome w (port chrome)) (ConnectToChrome (port chrome)) in
  do! modify (setClient (Some connected)) in
  do! when (negb (headless config) && hideWindow config)
        (perform (hideChromeWindow w) HideChromeWindow) in
  let withDom := hasDOM connected && domHasEnable connected in
  do! perform (enableDomains w withDom) (EnableDomains withDom) in
  do! perform (clearBrowserCookies w) ClearBrowserCookies in
  do! (if cookieSync config then
         let! cookieCount :=
           CookieSync.syncCookies w (url config) (chromeProfile config)
             (allowCookieErrors config) in
         log (if (cookieCount >? 0)%Z
              then LogCopiedCookies cookieCount (default "Default" (chromeProfile config))
              else LogNoCookies)
       else log LogSkipCookieSync) in
  do! perform (navigateToChatGPT w (url config)) (NavigateToChatGPT (url config)) in
  do! perform (ensureNotBlocked w (headless config)) (EnsureNotBlocked (headless config)) in
  do! perform (ensurePromptReady w (inputTimeoutMs config))
        (EnsurePromptReady (inputTimeoutMs config)) in
  do! log (LogPromptReady (String.length promptText)) in
  do! (match attachments with
       | [] => ret tt
       | _ =>
           if negb (hasDOM connected) then
             throw (Err "Chrome DOM domain unavailable while uploading attachments.")
           else
             do! forEach attachments
                   (fun attachment =>
                      do! log (LogUploading (displayPath attachment)) in
                      perform (uploadAttachmentFile w attachment)
                        (UploadAttachmentFile attachment)) in
             let waitBudget := Z.max (inputTimeoutMs config) 30000 in
             do! perform (waitForAttachmentCompletion w waitBudget)
                   (WaitForAttachmentCompletion waitBudget) in
             log LogAllUploaded
       end) in
  do! perform (submitPrompt w promptText) (SubmitPrompt promptText) in
  do! startThinkingStatusMonitor in
  let! answer :=
    perform (waitForAssistantResponse w (timeoutMs config))
      (WaitForAssistantResponse (timeoutMs config)) in
  let answerText := answerText_ answer in
  let answerHtml := default "" (answerHtml_ answer) in
  let! copiedMarkdown :=
    tryCatch
      (let! copied :=
         withRetries w
           (let! attempt :=
              perform (captureAssistantMarkdown w (answerMeta answer))
                (CaptureAssistantMarkdown (answerMeta answer)) in
            match attempt with
            | None | Some EmptyString => throw (Err "copy-missing")
            | Some markdown => ret markdown
            end)
           2 350%Z
           (fun attempt error =>
              when (default false (verbose options))
                (log (LogRetry (attempt + 1) (messageOf error)))) in
       ret (Some copied))
      (fun _ => ret None) in
  let answerMarkdown := default answerText copiedMarkdown in
  do! stopMonitor in
  do! modify (setRunStatus complete) in
  let! finishedAt := now w in
  let durationMs := (finishedAt - startedAt)%Z in
  ret {| answerText := answerText;
         answerMarkdown := answerMarkdown;
         answerHtml := if Js.truthy answerHtml then Some answerHtml else None;
         tookMs := durationMs;
         answerTokens := estimateTokenCount w answerMarkdown;
         answerChars := String.length answerText;
         chromePid := pid chrome;
         chromePort := port chrome;
         userDataDir := userDataDir |}.

(** The [catch] block. *)
Definition onFailure (config : ResolvedBrowserConfig) (error : Thrown) : M BrowserRunResult :=
  let normalizedError := if instanceofError error then error else Err (messageOf error) in
  do! stopMonitor in
  let! st := get in
  let socketClosed :=
    connectionClosedUnexpectedly st || isWebSocketClosureError normalizedError in
  do! modify (setConnectionClosed (connectionClosedUnexpectedly st || socketClosed)) in
  if negb socketClosed then
    do! log (LogFailedRun (messageOf normalizedError)) in
    do! when (tracing config) (log (LogStack normalizedError)) in
    throw normalizedError
  else
    do! when (tracing config)
          (do! log (LogClosedBeforeCompletion (messageOf normalizedError)) in
           log (LogStack normalizedError)) in
    throw (ErrCaused windowClosed normalizedError).

(** The [finally] block. *)
Definition teardown (config : ResolvedBrowserConfig) (chrome : Chrome)
    (userDataDir : string) (removeTerminationHooks : bool) (startedAt : Z) : M unit :=
  do! tryCatch
        (let! st := get in
         if negb (connectionClosedUnexpectedly st) then
           match client st with
           | Some _ => perform (clientClose w) ClientClose
           | None => ret tt
           end
         else ret tt)
        (fun _ => ret tt) in
  do! when removeTerminationHooks (emit RemoveTerminationHooks) in
  if negb (keepBrowser config) then
    do! (let! st := get in
         if negb (connectionClosedUnexpectedly st) then
           tryCatch (perform (chromeKill w) ChromeKill) (fun _ => ret tt)
         else ret tt) in
    do! tryCatch (perform (rmUserDataDir w userDataDir) (RmUserDataDir userDataDir))
          (fun _ => ret tt) in
    let! st := get in
    if negb (connectionClosedUnexpectedly st) then
      let! finishedAt := now w in
      log (LogCleanup (runStatus st) (finishedAt - startedAt))
    else ret tt
  else
    let! st := get in
    if negb (connectionClosedUnexpectedly st) then
      log (LogLeftRunning (port chrome) userDataDir)
    else ret tt.

(** The declarations [let client = null], [connectionClosedUnexpectedly =
    false], [stopThinkingMonitor = null] and [runStatus = 'attempted']. *)
Definition declareLocals (st : St) : St :=
  setRunStatus attempted
    (setMonitor None (setConnectionClosed false (setClient None st))).

Definition runBrowserMode (options : BrowserRunOptions) : M BrowserRunResult :=
  match option_map Js.trim (prompt options) with
  | None | Some EmptyString => throw (Err promptRequired)
  | Some promptText =>
      let attachments := default [] (attachments options) in
      let config := resolveBrowserConfig (config options) in
      do! modify declareLocals in
      do! when (tracing config) (log (LogConfig (String.length promptText))) in
      let! userDataDir := perform (mkdtemp w) Mkdtemp in
      do! log (LogCreatedProfile userDataDir) in
      let! chrome := perform (launchChrome w userDataDir) (LaunchChrome userDataDir) in
      let! removeTerminationHooks :=
        tryCatch
          (do! perform (registerTerminationHooks w (keepBrowser config))
                 (RegisterTerminationHooks (keepBrowser config)) in
           ret true)
          (fun _ => ret false) in
      let! startedAt := now w in
      tryFinally
        (tryCatch
           (tryBlock options config promptText attachments chrome userDataDir startedAt)
           (onFailure config))
        (teardown config chrome userDataDir removeTerminationHooks startedAt)
  end.

(** The parts of [runBrowserMode], for the properties that speak of one of
    them. What the function has bound when it reaches its [try] statement:
    the profile directory, the launched Chrome, whether the termination
    hooks were registered, and the start time. *)
Record Bound := {
  boundDir : string;
  boundChrome : Chrome;
  boundHooks : bool;
  boundStart : Z;
}.

(** The statements of [runBrowserMode] that precede its [try], for a run
    whose trimmed prompt is [promptText]. *)
Definition prologue (options : BrowserRunOptions) (promptText : string) : M Bound :=
  let config := resolveBrowserConfig (config options) in
  do! modify declareLocals in
  do! when (tracing config) (log (LogConfig (String.length promptText))) in
  let! userDataDir := perform (mkdtemp w) Mkdtemp in
  do! log (LogCreatedProfile userDataDir) in
  let! chrome := perform (launchChrome w userDataDir) (LaunchChrome userDataDir) in
  let! removeTerminationHooks :=
    tryCatch
      (do! perform (registerTerminationHooks w (keepBrowser config))
             (RegisterTerminationHooks (keepBrowser config)) in
       ret true)
      (fun _ => ret false) in
  let! startedAt := now w in
  ret {| boundDir := userDataDir; boundChrome := chrome;
         boundHooks := removeTerminationHooks; boundStart := startedAt |}.

(** The [try] block of the run, with these values. *)
Definition tryBody (options : BrowserRunOptions) (promptText : string) (bound : Bound)
    : M BrowserRunResult :=
  tryBlock options (resolveBrowserConfig (config options)) promptText
    (default [] (attachments options)) (boundChrome bound) (boundDir bound) (boundStart bound).

(** The whole [try]/[catch]/[finally] statement. *)
Definition statement (options : BrowserRunOptions) (promptText : string) (bound : Bound)
    : M BrowserRunResult :=
  tryFinally
    (tryCatch (tryBody options promptText bound)
       (onFailure (resolveBrowserConfig (config options))))
    (teardown (resolveBrowserConfig (config options)) (boundChrome bound) (boundDir bound)
       (boundHooks bound) (boundStart bound)).

End WithWorld.
End Engine.

(** ** Command-line flags ([src/cli/browserConfig.ts]) *)

Module BrowserConfig.

Record BrowserFlagOptions := {
  browserChromeProfile : option string;
  browserChromePath : option string;
  browserUrl : option string;
  browserTimeout : option string;
  browserInputTimeout : option string;
  browserNoCookieSync : option bool;
  browserHeadless : option bool;
  browserHideWindow : option bool;
  browserKeepBrowser : option bool;
  browserAllowCookieErrors : option bool;
  model : string;
  verbose : option bool;
}.

Definition DEFAULT_BROWSER_TIMEOUT_MS : Z := 900000.
Definition DEFAULT_BROWSER_INPUT_TIMEOUT_MS : Z := 30000.
Definition DEFAULT_CHROME_PROFILE : string := "Default".

(** [flag ? value : undefined] for an optional boolean flag. *)
Definition whenSet (flag : option bool) (value : bool) : option bool :=
  match flag with
  | Some true => Some value
  | _ => None
  end.

Section WithParser.
(** [parseDuration], imported from [../browserMode.js]: its code is not
    part of the sources, so it is any function from a text and a fallback to
    a number. *)
Variable parseDuration : string -> Z -> Z.

(** [text ? parseDuration(text, fallback) : undefined] *)
Definition parsed (text : option string) (fallback : Z) : option Z :=
  match text with
  | Some (String _ _ as t) => Some (parseDuration t fallback)
  | _ => None
  end.

Definition buildBrowserConfig (options : BrowserFlagOptions)
    : Automation.BrowserAutomationConfig :=
  {| Automation.chromeProfile :=
       Some (default DEFAULT_CHROME_PROFILE (browserChromeProfile options));
     Automation.chromePath := browserChromePath options;
     Automation.url := browserUrl options;
     Automation.timeoutMs := parsed (browserTimeout options) DEFAULT_BROWSER_TIMEOUT_MS;
     Automation.inputTimeoutMs :=
       parsed (browserInputTimeout options) DEFAULT_BROWSER_INPUT_TIMEOUT_MS;
     Automation.cookieSync := whenSet (browserNoCookieSync options) false;
     Automation.headless := whenSet (browserHeadless options) true;
     Automation.keepBrowser := whenSet (browserKeepBrowser options) true;
     Automation.hideWindow := whenSet (browserHideWindow options) true;
     Automation.desiredModel := None;
     Automation.debug := whenSet (verbose options) true;
     Automation.allowCookieErrors := whenSet (browserAllowCookieErrors options) true |}.

End WithParser.
End BrowserConfig.

(** ** The Node side of the page actions ([src/browser/pageActions.ts])

    The functions below drive the page through the DevTools protocol:
    [Runtime.evaluate], [Input.insertText], [Input.dispatchKeyEvent] and
    [delay]. Their loops end by [Date.now()], so the clock is part of the
    state: every awaited call is recorded with its answer and moves the clock
    by the time the browser says it took. *)

Module PageDriver.

(** A value returned by [Runtime.evaluate] with [returnByValue]. *)
Inductive Value :=
| Undefined
| Null
| Bool (b : bool)
| Num (n : Z)
| Str (s : string)
| Obj (fields : list Member)
with Member :=
| member (name : string) (value : Value).

(** [value?.name], for the names read by this file (none is a property of a
    primitive). *)
Definition field (name : string) (value : Value) : Value :=
  match value with
  | Obj fields =>
      match find (fun '(member key _) => String.eqb key name) fields with
      | Some (member _ v) => v
      | None => Undefined
      end
  | _ => Undefined
  end.

(** [Boolean(value)] *)
Definition toBoolean (value : Value) : bool :=
  match value with
  | Undefined | Null => false
  | Bool b => b
  | Num n => negb (n =? 0)%Z
  | Str s => Js.truthy s
  | Obj _ => true
  end.

(** [value?.trim?.() ?? ''] *)
Definition trimmed (value : Value) : string :=
  match value with
  | Str s => Js.trim s
  | _ => EmptyString
  end.

(** The expressions sent to the page, by what they do there. *)
Inductive Script :=
| ReadyState                               (* document.readyState *)
| ComposerEnabled                          (* an input selector matches a node that is not disabled *)
| FocusComposer                            (* click and focus the composer: { focused } *)
| ReadComposer                             (* { editorText, fallbackValue } *)
| FillComposer (prompt : string)           (* assign the prompt to the textarea and the editor *)
| ClickSend                                (* 'missing' | 'disabled' | 'clicked' *)
| PromptInConversation (prompt : string).  (* { userMatched, fallbackValue, editorValue } *)

Inductive Call :=
| PageNavigate (url : string)
| RuntimeEvaluate (script : Script)
| InputInsertText (text : string)
| InputDispatchKeyEvent (type : string)    (* key Enter, code Enter, virtual key code 13 *)
| Delay (ms : Z).

Inductive Entry :=
| Called (call : Call) (answer : Effects.Settled Value)
| Logged (line : string).

(** The browser: how the [n]-th recorded call, made at clock [t], settles and
    how long it takes. *)
Record Browser := {
  respond : Call -> nat -> Z -> Effects.Settled Value;
  took : Call -> nat -> Z -> Z;
}.

Record Tab := {
  clock : Z;
  entries : list Entry;
}.

Definition Act (A : Type) : Type := Tab -> Effects.Res A * Tab.

Definition give {A} (a : A) : Act A := fun st => (Effects.Ok a, st).

Definition andThen {A B} (m : Act A) (k : A -> Act B) : Act B :=
  fun st =>
    match m st with
    | (Effects.Ok a, st') => k a st'
    | (Effects.Throw e, st') => (Effects.Throw e, st')
    | (Effects.OutOfFuel, st') => (Effects.OutOfFuel, st')
    end.

Definition raise {A} (e : Effects.Thrown) : Act A := fun st => (Effects.Throw e, st).

Definition outOfFuel {A} : Act A := fun st => (Effects.OutOfFuel, st).

(** [Date.now()] *)
Definition dateNow : Act Z := fun st => (Effects.Ok (clock st), st).

(** [logger(line)] *)
Definition logger (line : string) : Act unit :=
  fun st => (Effects.Ok tt, {| clock := clock st; entries := entries st ++ [Logged line] |}).

Declare Scope page_scope.
Delimit Scope page_scope with page.
Notation "'let*' x ':=' m 'in' k" := (andThen m (fun x => k))
  (at level 10, x pattern, m at level 100, k at level 200) : page_scope.
Notation "'do*' m 'in' k" := (andThen m (fun _ => k))
  (at level 10, m at level 100, k at level 200) : page_scope.
Local Open Scope page_scope.
Local Open Scope Z_scope.

Section WithBrowser.

Variable w : Browser.

(** An awaited protocol call. *)
Definition call (c : Call) : Act Value :=
  fun st =>
    let answer := respond w c (length (entries st)) (clock st) in
    (match answer with
     | Effects.Resolved v => Effects.Ok v
     | Effects.Rejected e => Effects.Throw e
     end,
     {| clock := clock st + took w c (length (entries st)) (clock st);
        entries := entries st ++ [Called c answer] |}).

(** [await delay(ms)] *)
Definition delay (ms : Z) : Act unit :=
  fun st =>
    (Effects.Ok tt,
     {| clock := clock st + took w (Delay ms) (length (entries st)) (clock st);
        entries := entries st ++ [Called (Delay ms) (Effects.Resolved Undefined)] |}).

(** The polling loop the functions of this file share:
    [while (inTime(Date.now())) { value = await evaluate(script); if the
    verdict on value ends the loop, leave with it; await delay(interval) }].
    [None]: the loop ended by its condition. *)
Fixpoint pollUntil {A} (fuel : nat) (inTime : Z -> bool) (script : Script) (interval : Z)
    (verdict : Value -> option A) : Act (option A) :=
  match fuel with
  | O => outOfFuel
  | S fuel =>
      let* now := dateNow in
      if inTime now then
        let* value := call (RuntimeEvaluate script) in
        match verdict value with
        | Some a => give (Some a)
        | None =>
            do* delay interval in
            pollUntil fuel inTime script interval verdict
        end
      else give None
  end.

(** [result?.value === 'complete' || result?.value === 'interactive'] *)
Definition isReady (value : Value) : bool :=
  match value with
  | Str s => String.eqb s "complete" || String.eqb s "interactive"
  | _ => false
  end.

Definition waitForDocumentReady (fuel : nat) (timeoutMs : Z) : Act unit :=
  let* start := dateNow in
  let* ready :=
    pollUntil fuel (fun now => now - start <? timeoutMs) ReadyState 100
      (fun value => if isReady value then Some tt else None) in
  match ready with
  | Some _ => give tt
  | None => raise (Effects.Err "Page did not reach ready state in time")
  end.

Definition navigateToChatGPT (fuel : nat) (url : string) : Act unit :=
  do* logger ("Navigating to " ++ url) in
  do* call (PageNavigate url) in
  waitForDocumentReady fuel 45000.

Definition waitForPrompt (fuel : nat) (timeoutMs : Z) : Act bool :=
  let* start := dateNow in
  let deadline := start + timeoutMs in
  let* found :=
    pollUntil fuel (fun now => now <? deadline) ComposerEnabled 200
      (fun value => if toBoolean value then Some tt else None) in
  match found with
  | Some _ => give true
  | None => give false
  end.

Definition ensurePromptReady (fuel : nat) (timeoutMs : Z) : Act unit :=
  let* ready := waitForPrompt fuel timeoutMs in
  if negb ready then raise (Effects.Err "Prompt textarea did not appear before timeout")
  else logger "Prompt textarea ready".

(** The verdict of [attemptSendButton] on one answer of the click script:
    ['clicked'] returns true, ['missing'] breaks out of the loop. *)
Definition sendVerdict (value : Value) : option bool :=
  match value with
  | Str s =>
      if String.eqb s "clicked" then Some true
      else if String.eqb s "missing" then Some false
      else None
  | _ => None
  end.

Definition attemptSendButton (fuel : nat) : Act bool :=
  let* start := dateNow in
  let deadline := start + 2000 in
  let* clicked := pollUntil fuel (fun now => now <? deadline) ClickSend 100 sendVerdict in
  match clicked with
  | Some true => give true
  | _ => give false
  end.

Definition verifyPromptCommitted (fuel : nat) (prompt : string) (timeoutMs : Z) : Act unit :=
  let* start := dateNow in
  let deadline := start + timeoutMs in
  let* matched :=
    pollUntil fuel (fun now => now <? deadline) (PromptInConversation (Js.trim prompt)) 100
      (fun value => if toBoolean (field "userMatched" value) then Some tt else None) in
  match matched with
  | Some _ => give tt
  | None =>
      raise (Effects.Err
               "Prompt did not appear in conversation before timeout (send may have failed)")
  end.

Definition submitPrompt (fuel : nat) (prompt : string) : Act unit :=
  let* focusResult := call (RuntimeEvaluate FocusComposer) in
  if negb (toBoolean (field "focused" focusResult)) then
    raise (Effects.Err "Failed to focus prompt textarea")
  else
    do* call (InputInsertText prompt) in
    let* verification := call (RuntimeEvaluate ReadComposer) in
    let editorText := trimmed (field "editorText" verification) in
    let fallbackValue := trimmed (field "fallbackValue" verification) in
    do* (if negb (Js.truthy editorText) && negb (Js.truthy fallbackValue) then
           do* call (RuntimeEvaluate (FillComposer prompt)) in
           give tt
         else give tt) in
    let* clicked := attemptSendButton fuel in
    do* (if negb clicked then
           do* call (InputDispatchKeyEvent "rawKeyDown") in
           do* call (InputDispatchKeyEvent "keyUp") in
           logger "Submitted prompt via Enter key"
         else logger "Clicked send button") in
    verifyPromptCommitted fuel prompt 30000.

End WithBrowser.

End PageDriver.

(** ** Sample inputs *)

Module Samples.
Import PageActions.

Definition instantMatchers : ModelMatchers := buildModelMatchersLiteral "5.1 Instant".

Definition labelled (label : string) : OptionNode :=
  {| dataTestid := None; textContent := label |}.

Definition withTestid (testid : string) : OptionNode :=
  {| dataTestid := Some testid; textContent := "" |}.








(** A cookie as Chrome stores it: expiry in microseconds since 1601. *)
Definition sessionCookie : Cookies.Cookie :=
  {| Cookies.name := Some "session"; Cookies.value := Some "abc";
     Cookies.domain := Some ".chatgpt.com"; Cookies.path := None;
     Cookies.expires := Some 13350000000000000%Z;
     Cookies.Secure := Some false; Cookies.HttpOnly := Some true;
     Cookies.secure := None; Cookies.httpOnly := None; Cookies.url := None |}.

Definition sessionCookieOnce : Cookies.Cookie :=
  {| Cookies.name := Some "session"; Cookies.value := Some "abc";
     Cookies.domain := Some ".chatgpt.com"; Cookies.path := Some "/";
     Cookies.expires := Some 1705526400%Z;
     Cookies.Secure := None; Cookies.HttpOnly := None;
     Cookies.secure := Some false; Cookies.httpOnly := Some true; Cookies.url := None |}.

Definition sessionCookieTwice : Cookies.Cookie :=
  {| Cookies.name := Some "session"; Cookies.value := Some "abc";
     Cookies.domain := Some ".chatgpt.com"; Cookies.path := Some "/";
     Cookies.expires := Some 1705526%Z;
     Cookies.Secure := None; Cookies.HttpOnly := None;
     Cookies.secure := Some true; Cookies.httpOnly := Some false; Cookies.url := None |}.

(** A cookie with an expiry in Unix seconds and no flags. *)
Definition plainCookie : Cookies.Cookie :=
  {| Cookies.name := Some "theme"; Cookies.value := None;
     Cookies.domain := None; Cookies.path := None;
     Cookies.expires := Some 1700000000%Z;
     Cookies.Secure := None; Cookies.HttpOnly := None;
     Cookies.secure := None; Cookies.httpOnly := None; Cookies.url := None |}.

(** Environments. *)

Definition quiet {T} (v : T) : Effects.Outcome T :=
  {| Effects.fired := false; Effects.settled := Effects.Resolved v |}.

Definition rejects {T} (message : string) : Effects.Outcome T :=
  {| Effects.fired := false; Effects.settled := Effects.Rejected (Effects.Err message) |}.

(** The connection drops while the call is pending, and the call rejects. *)
Definition drops {T} (message : string) : Effects.Outcome T :=
  {| Effects.fired := true; Effects.settled := Effects.Rejected (Effects.Err message) |}.

Definition hiAnswer : Effects.Answer :=
  {| Effects.answerText_ := "Hi there"; Effects.answerHtml_ := Some "<p>Hi there</p>";
     Effects.answerMeta := {| Effects.metaTurnId := Some "conversation-turn-2";
                              Effects.metaMessageId := Some "m1" |} |}.

Definition goodModule : Effects.Imported :=
  {| Effects.hasGetCookiesPromised := false; Effects.defaultHasGetCookiesPromised := true |}.

(** A world in which every call succeeds, but for the four that the samples
    vary: the environment variables, the import of the cookie module, the
    response wait and the markdown capture. *)
Definition world (environment : string -> option string)
    (imported : nat -> Effects.Outcome Effects.Imported)
    (response : nat -> Effects.Outcome Effects.Answer)
    (copied : nat -> Effects.Outcome (option string)) : Effects.World :=
  {| Effects.env := environment;
     Effects.platform := "darwin";
     Effects.HAS_PNPM_WORKSPACE := true;
     Effects.CHATGPT_URL := "https://chatgpt.com/";
     Effects.COOKIE_URLS := ["https://chatgpt.com"; "https://chat.openai.com"];
     Effects.urlHostname := fun u => if Js.includes "openai" u then Some "chat.openai.com"
                                     else Some "chatgpt.com";
     Effects.stripQuery := fun u => u;
     Effects.estimateTokenCount := fun text => Z.of_nat (String.length text);
     Effects.dateNow := fun n => (1000 * Z.of_nat n)%Z;
     Effects.mkdtemp := fun _ => quiet "/tmp/oracle-browser-x1";
     Effects.launchChrome := fun _ _ => quiet {| Effects.pid := 4242; Effects.port := 9222 |};
     Effects.registerTerminationHooks := fun _ _ => quiet tt;
     Effects.connectToChrome :=
       fun _ _ => quiet {| Effects.hasDOM := true; Effects.domHasEnable := true |};
     Effects.hideChromeWindow := fun _ => quiet tt;
     Effects.enableDomains := fun _ _ => quiet tt;
     Effects.clearBrowserCookies := fun _ => quiet tt;
     Effects.importCookiesModule := imported;
     Effects.spawnRebuild := fun _ _ _ => quiet (Some 1%Z);
     Effects.getCookiesPromised := fun _ _ _ => quiet (Some [sessionCookie; plainCookie]);
     Effects.setCookie := fun _ _ => quiet (Some true);
     Effects.navigateToChatGPT := fun _ _ => quiet tt;
     Effects.ensureNotBlocked := fun _ _ => quiet tt;
     Effects.ensurePromptReady := fun _ _ => quiet tt;
     Effects.evaluateModelSelection :=
       fun _ _ => quiet (Effects.Switched (Some "ChatGPT 5.1 Instant"));
     Effects.uploadAttachmentFile := fun _ _ => quiet tt;
     Effects.waitForAttachmentCompletion := fun _ _ => quiet tt;
     Effects.submitPrompt := fun _ _ => quiet tt;
     Effects.waitForAssistantResponse := fun _ => response;
     Effects.captureAssistantMarkdown := fun _ => copied;
     Effects.delay := fun _ _ => quiet tt;
     Effects.clientClose := fun _ => quiet tt;
     Effects.chromeKill := fun _ => quiet tt;
     Effects.rmUserDataDir := fun _ _ => quiet tt |}.

Definition noEnv : string -> option string := fun _ => None.

(** Everything works. *)
Definition calm : Effects.World :=
  world noEnv (fun _ => quiet goodModule) (fun _ => quiet hiAnswer)
    (fun _ => quiet (Some "**Hi** there")).

(** The native binding is missing and no rebuild was allowed. *)
Definition noBindings : Effects.World :=
  world noEnv (fun _ => rejects "Could not locate the bindings file. Tried: node_sqlite3.node")
    (fun _ => quiet hiAnswer) (fun _ => quiet (Some "**Hi** there")).

(** The copy control is never found. *)
Definition noCopyButton : Effects.World :=
  world noEnv (fun _ => quiet goodModule) (fun _ => quiet hiAnswer) (fun _ => quiet None).

(** The window is closed while the answer is awaited. *)
Definition closedWhileWaiting : Effects.World :=
  world noEnv (fun _ => quiet goodModule) (fun _ => drops "WebSocket is closed")
    (fun _ => quiet None).



(** Options of a run. *)

Definition helloOptions : Engine.BrowserRunOptions :=
  {| Engine.prompt := Some "Hello"; Engine.attachments := None; Engine.config := None;
     Engine.heartbeatIntervalMs := None; Engine.verbose := None |}.

Definition configWith (keep : option bool) (model : option string)
    : Automation.BrowserAutomationConfig :=
  {| Automation.chromeProfile := None; Automation.chromePath := None;
     Automation.url := None; Automation.timeoutMs := None;
     Automation.inputTimeoutMs := None; Automation.cookieSync := None;
     Automation.headless := None; Automation.keepBrowser := keep;
     Automation.hideWindow := None; Automation.desiredModel := model;
     Automation.debug := None; Automation.allowCookieErrors := None |}.

(** Keep the browser after the run. *)
Definition keepOptions : Engine.BrowserRunOptions :=
  {| Engine.prompt := Some "Hello"; Engine.attachments := None;
     Engine.config := Some (configWith (Some true) None);
     Engine.heartbeatIntervalMs := None; Engine.verbose := None |}.

(** A desired model and one attachment. *)
Definition modelOptions : Engine.BrowserRunOptions :=
  {| Engine.prompt := Some "Hello";
     Engine.attachments :=
       Some [{| Effects.attachmentPath := "/repo/notes.md"; Effects.displayPath := "notes.md" |}];
     Engine.config := Some (configWith None (Some "5.1 Instant"));
     Engine.heartbeatIntervalMs := None; Engine.verbose := None |}.

(** A process that synchronizes cookies several times, whatever each call
    returns or throws. *)
Definition lifetime (w : Effects.World) (calls : list (string * option string * bool))
    : Effects.M unit :=
  Engine.forEach calls
    (fun call =>
       Effects.tryCatch
         (Effects.bind
            (CookieSync.syncCookies w (fst (fst call)) (snd (fst call)) (snd call))
            (fun _ => Effects.ret tt))
         (fun _ => Effects.ret tt)).

End Samples.

(** * Properties *)

(** ** The model matcher *)

Module PageActionsSpec.
Import PageActions Samples.

Lemma lowerChar_idem c : Js.lowerChar (Js.lowerChar c) = Js.lowerChar c.
Proof.
  destruct c as [[] [] [] [] [] [] [] []]; reflexivity.
Qed.

Lemma toLowerCase_idem s : Js.toLowerCase (Js.toLowerCase s) = Js.toLowerCase s.
Proof.
  induction s as [|c s IH]; simpl; [reflexivity|].
  now rewrite lowerChar_idem, IH.
Qed.

Lemma truthy_toLowerCase s : Js.truthy (Js.toLowerCase s) = Js.truthy s.
Proof. destruct s; reflexivity. Qed.

Lemma normalizeText_toLowerCase s : normalizeText (Js.toLowerCase s) = normalizeText s.
Proof.
  unfold normalizeText. now rewrite truthy_toLowerCase, toLowerCase_idem.
Qed.

End PageActionsSpec.

(** ** Cookie normalization *)

Module CookiesSpec.
Import Cookies Samples.
Local Open Scope Z_scope.

Definition atMost (bound : Z) (expires : option Z) : Prop :=
  forall v, expires = Some v -> v <= bound.

Lemma normalizeExpiration_small (e : option Z) :
  atMost 1000000000000 e ->
  normalizeExpiration (normalizeExpiration e) = normalizeExpiration e.
Proof.
  intros Hle. destruct e as [v|]; [|reflexivity].
  specialize (Hle v eq_refl). unfold normalizeExpiration.
  destruct (v =? 0) eqn:E0; [reflexivity|].
  destruct (v <=? 0) eqn:E1; [reflexivity|].
  destruct (v >? 1000000000000) eqn:E2; [lia|].
  destruct (v >? 1000000000) eqn:E3.
  - unfold roundDiv.
    assert (Hr : 1 <= (2 * v + 1000) / (2 * 1000) <= 1000000000).
    { Z.div_mod_to_equations. lia. }
    destruct ((2 * v + 1000) / (2 * 1000) =? 0) eqn:R0; [lia|].
    destruct ((2 * v + 1000) / (2 * 1000) <=? 0) eqn:R1; [lia|].
    destruct ((2 * v + 1000) / (2 * 1000) >? 1000000000000) eqn:R2; [lia|].
    destruct ((2 * v + 1000) / (2 * 1000) >? 1000000000) eqn:R3; [lia|].
    reflexivity.
  - now rewrite E0, E1, E2, E3.
Qed.

(** The conversion of a microsecond timestamp goes through binary64: the
    quotient 1700000000.499999 and the difference are rounded, the
    difference to -9944473599.5, which [Math.round] takes up; exact
    arithmetic would give -9944473600. *)
Lemma microseconds_in_binary64 :
  normalizeExpiration (Some 1700000000499999) = Some (-9944473599) /\
  roundDiv 1700000000499999 1000000 - 11644473600 = -9944473600.
Proof. split; vm_compute; reflexivity. Qed.

(** C2 (as stated, refuted). A cookie as Chrome stores it, with its expiry
    in microseconds since 1601, [Secure: false] and [HttpOnly: true]:
    normalizing the normalized cookie rescales [expires] once more and
    resets [secure] and [httpOnly] to their defaults, and
    [normalizeExpiration] applied to its own result gives another value. *)
Lemma renormalizing_changes_cookie :
  normalizeCookie sessionCookie "chatgpt.com" = Some sessionCookieOnce /\
  normalizeCookie sessionCookieOnce "chatgpt.com" = Some sessionCookieTwice /\
  expires sessionCookieTwice <> expires sessionCookieOnce /\
  secure sessionCookieTwice <> secure sessionCookieOnce /\
  httpOnly sessionCookieTwice <> httpOnly sessionCookieOnce /\
  normalizeExpiration (normalizeExpiration (Some 13350000000000000))
    <> normalizeExpiration (Some 13350000000000000).
Proof.
  repeat split; try reflexivity; vm_compute; discriminate.
Qed.

(** C2 (amended). Normalizing a normalized cookie succeeds and keeps name,
    value, domain and path; [secure] and [httpOnly] come out as the
    defaults [true] and [false], so they are kept exactly when the first
    pass produced the defaults; [expires] is kept whenever the raw expiry
    was absent or at most 10^12, and on such values [normalizeExpiration]
    is idempotent. *)
Theorem renormalize_cookie (cookie once : Cookie) (host : string) :
  normalizeCookie cookie host = Some once ->
  exists twice,
    normalizeCookie once host = Some twice /\
    name twice = name once /\ value twice = value once /\
    domain twice = domain once /\ path twice = path once /\
    secure twice = Some true /\ httpOnly twice = Some false /\
    (Secure cookie <> Some false -> secure twice = secure once) /\
    (HttpOnly cookie <> Some true -> httpOnly twice = httpOnly once) /\
    (atMost 1000000000000 (expires cookie) -> expires twice = expires once) /\
    (atMost 1000000000000 (expires cookie) ->
     normalizeExpiration (normalizeExpiration (expires cookie))
     = normalizeExpiration (expires cookie)).
Proof.
  unfold normalizeCookie. intros H.
  destruct (name cookie) as [[|c n]|] eqn:Hn; try discriminate.
  injection H as <-. simpl. eexists. split; [reflexivity|]. simpl.
  repeat split.
  - f_equal.
    repeat match goal with
           | |- context [if ?b then _ else _] => destruct b
           | |- context [match ?d with Some _ => _ | None => _ end] => destruct d
           | |- context [match ?d with EmptyString => _ | String _ _ => _ end] => destruct d
           end; reflexivity.
  - intros Hs. destruct (Secure cookie) as [[]|]; congruence.
  - intros Hh. destruct (HttpOnly cookie) as [[]|]; congruence.
  - apply normalizeExpiration_small.
  - apply normalizeExpiration_small.
Qed.

Lemma renormalize_cookie_witness :
  exists twice,
    normalizeCookie
      {| name := Some "theme"; value := Some ""; domain := Some "chatgpt.com";
         path := Some "/"; expires := Some 1700000; Secure := None; HttpOnly := None;
         secure := Some true; httpOnly := Some false; url := None |} "chatgpt.com"
    = Some twice /\
    expires twice = Some 1700000 /\ secure twice = Some true.
Proof.
  destruct (renormalize_cookie plainCookie _ "chatgpt.com" eq_refl)
    as (twice & H & _ & _ & _ & _ & Hs & _ & _ & _ & He & _).
  exists twice. split; [exact H|]. split; [|exact Hs].
  rewrite He; [reflexivity|]. intros v Hv. injection Hv as <-. lia.
Defined.

End CookiesSpec.

(** ** The settle window *)

Module SettleSpec.
Import PageActions Samples.
Local Open Scope Z_scope.





Lemma textLength_nonneg e : 0 <= textLength e.
Proof. unfold textLength. lia. Qed.









End SettleSpec.

(** ** Reasoning about effectful code *)

Module EffectLemmas.
Import Effects.
Local Open Scope list_scope.

Definition resOf {T} (s : Settled T) : Res T :=
  match s with Resolved v => Ok v | Rejected e => Throw e end.

Definition isMark (e : Event) : bool :=
  match e with MarkConnectionLost => true | _ => false end.

(** Once the handler has run, or if the flag was already set, the flag is
    set. *)
Definition flagKept (st st' : St) (evs : list Event) : Prop :=
  connectionClosedUnexpectedly st = true \/ existsb isMark evs = true ->
  connectionClosedUnexpectedly st' = true.

(** Running [m] from [st] appends events that all satisfy [P]. *)
Definition emitsAt {A} (P : Event -> bool) (m : M A) (st : St) : Prop :=
  exists evs,
    trace (snd (m st)) = trace st ++ evs /\
    forallb P evs = true /\
    flagKept st (snd (m st)) evs.

Definition emits {A} (P : Event -> bool) (m : M A) : Prop :=
  forall st, emitsAt P m st.

Definition total {A} (m : M A) : Prop :=
  forall st, fst (m st) <> OutOfFuel.

Lemma flagKept_refl st : flagKept st st [].
Proof. intros [H|H]; [exact H|discriminate]. Qed.

Lemma flagKept_trans st1 st2 st3 evs1 evs2 :
  flagKept st1 st2 evs1 -> flagKept st2 st3 evs2 -> flagKept st1 st3 (evs1 ++ evs2).
Proof.
  unfold flagKept. rewrite existsb_app, orb_true_iff. intuition.
Qed.

Lemma emitsAt_nil {A} P (m : M A) st :
  trace (snd (m st)) = trace st ->
  (connectionClosedUnexpectedly st = true ->
   connectionClosedUnexpectedly (snd (m st)) = true) ->
  emitsAt P m st.
Proof.
  intros Ht Hf. exists []. rewrite app_nil_r. repeat split; auto.
  intros [H|H]; [auto|discriminate].
Qed.

Lemma emits_ret {A} P (a : A) : emits P (ret a).
Proof. intros st. now apply emitsAt_nil. Qed.

Lemma emits_throw {A} P e : emits P (@throw A e).
Proof. intros st. now apply emitsAt_nil. Qed.

Lemma emits_get P : emits P get.
Proof. intros st. now apply emitsAt_nil. Qed.

Lemma emits_now P w : emits P (now w).
Proof. intros st. now apply emitsAt_nil. Qed.

Lemma emitsAt_bind {A B} P (m : M A) (k : A -> M B) st :
  emitsAt P m st -> (forall a, emits P (k a)) -> emitsAt P (bind m k) st.
Proof.
  intros (evs1 & Ht1 & Hp1 & Hf1) Hk. unfold emitsAt, bind.
  destruct (m st) as [[a|e|] st1] eqn:Em; simpl in *.
  - destruct (Hk a st1) as (evs2 & Ht2 & Hp2 & Hf2).
    exists (evs1 ++ evs2). rewrite Ht2, Ht1, app_assoc, forallb_app, Hp1, Hp2.
    repeat split. eapply flagKept_trans; eauto.
  - exists evs1. auto.
  - exists evs1. auto.
Qed.

Lemma emits_bind {A B} P (m : M A) (k : A -> M B) :
  emits P m -> (forall a, emits P (k a)) -> emits P (bind m k).
Proof. intros Hm Hk st. apply emitsAt_bind; auto. Qed.

(** After [get], the continuation runs in the state it was given. *)
Lemma emits_get_bind {A} P (k : St -> M A) :
  (forall st, emitsAt P (k st) st) -> emits P (bind get k).
Proof. intros Hk st. exact (Hk st). Qed.

Lemma emits_tryCatch {A} P (m : M A) (h : Thrown -> M A) :
  emits P m -> (forall e, emits P (h e)) -> emits P (tryCatch m h).
Proof.
  intros Hm Hh st. destruct (Hm st) as (evs1 & Ht1 & Hp1 & Hf1). unfold emitsAt, tryCatch.
  destruct (m st) as [[a|e|] st1] eqn:Em; simpl in *.
  - exists evs1. auto.
  - destruct (Hh e st1) as (evs2 & Ht2 & Hp2 & Hf2).
    exists (evs1 ++ evs2). rewrite Ht2, Ht1, app_assoc, forallb_app, Hp1, Hp2.
    repeat split. eapply flagKept_trans; eauto.
  - exists evs1. auto.
Qed.

Lemma emits_emit P e : P e = true -> isMark e = false -> emits P (emit e).
Proof.
  intros He Hm st. exists [e]. simpl. rewrite He. repeat split.
  unfold flagKept; simpl. rewrite Hm. intros [H|H]; [exact H|discriminate].
Qed.

Lemma emits_log P l : P (Logged l) = true -> emits P (log l).
Proof. intros H. now apply emits_emit. Qed.

Lemma emits_when P b m : emits P m -> emits P (when b m).
Proof. destruct b; simpl; [auto|intros _; apply emits_ret]. Qed.

(** State updates that touch neither the trace nor the flag. *)
Definition silent (f : St -> St) : Prop :=
  forall st, trace (f st) = trace st /\
             connectionClosedUnexpectedly (f st) = connectionClosedUnexpectedly st.

Lemma emits_modify P f : silent f -> emits P (modify f).
Proof.
  intros Hf st. destruct (Hf st) as [Ht Hc]. apply emitsAt_nil; simpl; congruence.
Qed.

Lemma silent_setAttempted b : silent (setAttempted b).
Proof. now intros st. Qed.
Lemma silent_setClient c : silent (setClient c).
Proof. now intros st. Qed.
Lemma silent_setMonitor m : silent (setMonitor m).
Proof. now intros st. Qed.
Lemma silent_setRunStatus s : silent (setRunStatus s).
Proof. now intros st. Qed.

(** What one awaited call does to the state. *)
Lemma perform_run {T} (answer : nat -> Outcome T) (ev : Outcome T -> Event) (st : St) :
  let o := answer (length (trace st)) in
  let st' := snd (perform answer ev st) in
  fst (perform answer ev st) = resOf (settled o) /\
  client st' = client st /\
  attemptedSqliteRebuild st' = attemptedSqliteRebuild st /\
  stopThinkingMonitor st' = stopThinkingMonitor st /\
  runStatus st' = runStatus st /\
  ((client st <> None /\ fired o = true /\
    trace st' = trace st ++ [MarkConnectionLost; ev o] /\
    connectionClosedUnexpectedly st' = true)
   \/
   ((client st = None \/ fired o = false) /\
    trace st' = trace st ++ [ev o] /\
    connectionClosedUnexpectedly st' = connectionClosedUnexpectedly st)).
Proof.
  unfold perform; simpl.
  destruct (settled (answer (length (trace st)))); simpl;
    (split; [reflexivity|]);
    destruct (client st) eqn:Ec; simpl;
    try destruct (fired (answer (length (trace st)))) eqn:Ef; simpl;
    rewrite ?Ec; repeat split; auto;
    try (left; repeat split; [discriminate|now rewrite <- app_assoc]);
    right; repeat split; auto.
Qed.

Lemma emits_perform {T} P (answer : nat -> Outcome T) (ev : Outcome T -> Event) :
  P MarkConnectionLost = true -> (forall o, P (ev o) = true) ->
  (forall o, isMark (ev o) = false) ->
  emits P (perform answer ev).
Proof.
  intros Hm Hev Hnm st.
  destruct (perform_run answer ev st) as (_ & _ & _ & _ & _ & [H|H]).
  - destruct H as (_ & _ & Ht & Hc). exists [MarkConnectionLost; ev (answer (length (trace st)))].
    split; [exact Ht|]. split; [cbn [forallb]; now rewrite Hm, Hev|].
    intros _. exact Hc.
  - destruct H as (_ & Ht & Hc). exists [ev (answer (length (trace st)))].
    split; [exact Ht|]. split; [cbn [forallb]; now rewrite Hev|].
    unfold flagKept. cbn [existsb]. rewrite Hnm.
    intros [Hl|Hl]; [rewrite Hc; exact Hl|discriminate].
Qed.

Lemma emits_at {A} P (m : M A) st : emits P m -> emitsAt P m st.
Proof. intros H. apply H. Qed.

Lemma emits_foldM {A B} P (f : B -> A -> M B) (l : list A) :
  (forall acc x, emits P (f acc x)) -> forall acc, emits P (CookieSync.foldM f l acc).
Proof.
  intros Hf. induction l as [|x l IH]; intros acc; simpl.
  - apply emits_ret.
  - apply emits_bind; auto.
Qed.

Lemma emits_forEach {A} P (l : list A) (f : A -> M unit) :
  (forall x, emits P (f x)) -> emits P (Engine.forEach l f).
Proof.
  intros Hf. induction l as [|x l IH]; simpl.
  - apply emits_ret.
  - apply emits_bind; auto.
Qed.

Lemma emits_weaken {A} (P Q : Event -> bool) (m : M A) :
  (forall e, P e = true -> Q e = true) -> emits P m -> emits Q m.
Proof.
  intros HPQ Hm st. destruct (Hm st) as (evs & Ht & Hp & Hf).
  exists evs. repeat split; auto.
  rewrite forallb_forall in *. auto.
Qed.

(** Totality: the computation does not run out of fuel. *)
Lemma total_ret {A} (a : A) : total (ret a).
Proof. intros st. discriminate. Qed.

Lemma total_throw {A} e : total (@throw A e).
Proof. intros st. discriminate. Qed.

Lemma total_bind {A B} (m : M A) (k : A -> M B) :
  total m -> (forall a, total (k a)) -> total (bind m k).
Proof.
  intros Hm Hk st. specialize (Hm st). unfold bind.
  destruct (m st) as [[a|e|] st1]; simpl in *; [apply Hk|discriminate|congruence].
Qed.

Lemma total_tryCatch {A} (m : M A) (h : Thrown -> M A) :
  total m -> (forall e, total (h e)) -> total (tryCatch m h).
Proof.
  intros Hm Hh st. specialize (Hm st). unfold tryCatch.
  destruct (m st) as [[a|e|] st1]; simpl in *; [discriminate|apply Hh|congruence].
Qed.

Lemma total_perform {T} (answer : nat -> Outcome T) ev : total (perform answer ev).
Proof. intros st. unfold perform; simpl. destruct (settled _); discriminate. Qed.

Lemma total_modify f : total (modify f).
Proof. intros st. discriminate. Qed.

Lemma total_emit e : total (emit e).
Proof. intros st. discriminate. Qed.

Lemma total_log l : total (log l).
Proof. intros st. discriminate. Qed.

Lemma total_get : total get.
Proof. intros st. discriminate. Qed.

Lemma total_now w : total (now w).
Proof. intros st. discriminate. Qed.

Lemma total_when b m : total m -> total (when b m).
Proof. destruct b; simpl; [auto|intros _; apply total_ret]. Qed.

Lemma total_foldM {A B} (f : B -> A -> M B) (l : list A) :
  (forall acc x, total (f acc x)) -> forall acc, total (CookieSync.foldM f l acc).
Proof.
  intros Hf. induction l as [|x l IH]; intros acc; simpl.
  - apply total_ret.
  - apply total_bind; auto.
Qed.

Lemma total_forEach {A} (l : list A) (f : A -> M unit) :
  (forall x, total (f x)) -> total (Engine.forEach l f).
Proof.
  intros Hf. induction l as [|x l IH]; simpl.
  - apply total_ret.
  - apply total_bind; auto.
Qed.

Lemma emits_tryFinally {A} P (m : M A) (cleanup : M unit) :
  emits P m -> emits P cleanup -> emits P (tryFinally m cleanup).
Proof.
  intros Hm Hc st. destruct (Hm st) as (evs1 & Ht1 & Hp1 & Hf1). unfold emitsAt, tryFinally.
  destruct (m st) as [r st1] eqn:Em; simpl in *.
  destruct (Hc st1) as (evs2 & Ht2 & Hp2 & Hf2).
  assert (Hboth : trace (snd (cleanup st1)) = trace st ++ evs1 ++ evs2 /\
                  forallb P (evs1 ++ evs2) = true /\
                  flagKept st (snd (cleanup st1)) (evs1 ++ evs2)).
  { rewrite Ht2, Ht1, <- app_assoc, forallb_app, Hp1, Hp2. repeat split.
    eapply flagKept_trans; eauto. }
  destruct r as [a|e|].
  - destruct (cleanup st1) as [[u|e'|] st2]; exists (evs1 ++ evs2); exact Hboth.
  - destruct (cleanup st1) as [[u|e'|] st2]; exists (evs1 ++ evs2); exact Hboth.
  - exists evs1. auto.
Qed.

Lemma emits_withRetriesFrom {A} P w (task : M A) delayMs onRetry :
  emits P task -> (forall attempt error, emits P (onRetry attempt error)) ->
  P MarkConnectionLost = true -> (forall o, P (Delay delayMs o) = true) ->
  forall retries attempt, emits P (Engine.withRetriesFrom w task retries delayMs onRetry attempt).
Proof.
  intros Ht Ho Hm Hd retries. induction retries as [|retries IH]; intros attempt; simpl.
  - apply emits_tryCatch; [exact Ht|]. intros e. apply emits_throw.
  - apply emits_tryCatch; [exact Ht|]. intros e.
    apply emits_bind; [apply Ho|]. intros _.
    apply emits_bind; [|intros _; apply IH].
    apply emits_perform; auto.
Qed.

(** The assignment [flag = flag || b] of the catch block. *)
Lemma emitsAt_setConnectionClosed P st b :
  emitsAt P (modify (setConnectionClosed (connectionClosedUnexpectedly st || b))) st.
Proof.
  apply emitsAt_nil; simpl; [reflexivity|]. intros ->. reflexivity.
Qed.

Create HintDb effects discriminated.

#[export] Hint Resolve emits_ret emits_throw emits_get emits_now emits_bind emits_tryCatch
  emits_when emits_foldM emits_forEach silent_setAttempted silent_setClient
  silent_setMonitor silent_setRunStatus emits_modify
  total_ret total_throw total_bind total_tryCatch total_perform total_modify total_emit
  total_log total_get total_now total_when total_foldM total_forEach : effects.

(** Splits a goal about a composite computation into goals about its parts. *)
Ltac emits_step :=
  match goal with
  | |- emits _ (bind get _) => apply emits_get_bind; intros ?
  | |- emits _ (bind _ _) => apply emits_bind; [|intros ?]
  | |- emits _ (tryCatch _ _) => apply emits_tryCatch; [|intros ?]
  | |- emits _ (ret _) => apply emits_ret
  | |- emits _ (throw _) => apply emits_throw
  | |- emits _ (now _) => apply emits_now
  | |- emits _ (when _ _) => apply emits_when
  | |- emits _ (log _) => apply emits_log; reflexivity
  | |- emits _ (emit _) => apply emits_emit; reflexivity
  | |- emits _ (perform _ _) =>
      apply emits_perform; [reflexivity|intros ?; reflexivity|intros ?; reflexivity]
  | |- emits _ (modify _) => apply emits_modify; auto with effects
  | |- emits _ (CookieSync.foldM _ _ _) => apply emits_foldM; intros ? ?
  | |- emits _ (Engine.forEach _ _) => apply emits_forEach; intros ?
  | |- emits _ (if ?b then _ else _) => destruct b
  | |- emits _ (match ?x with _ => _ end) => destruct x
  | |- emits _ (tryFinally _ _) => apply emits_tryFinally
  | |- emitsAt _ (bind (modify (setConnectionClosed _)) _) _ =>
      apply emitsAt_bind; [apply emitsAt_setConnectionClosed|intros ?]
  | |- emitsAt _ (if ?b then _ else _) _ => destruct b
  | |- emitsAt _ (match ?x with _ => _ end) _ => destruct x
  | |- emitsAt _ _ _ => apply emits_at
  end.

Ltac total_step :=
  match goal with
  | |- total (bind _ _) => apply total_bind; [|intros ?]
  | |- total (tryCatch _ _) => apply total_tryCatch; [|intros ?]
  | |- total (when _ _) => apply total_when
  | |- total (CookieSync.foldM _ _ _) => apply total_foldM; intros ? ?
  | |- total (Engine.forEach _ _) => apply total_forEach; intros ?
  | |- total (if ?b then _ else _) => destruct b
  | |- total (match ?x with _ => _ end) => destruct x
  | |- total _ => solve [auto with effects]
  end.

End EffectLemmas.

(** ** The cookie synchronizer *)

Module CookieSyncSpec.
Import Effects EffectLemmas CookieSync.
Local Open Scope list_scope.

(** The events the synchronizer may add to the trace. *)
Definition syncEvent (e : Event) : bool :=
  match e with
  | ImportCookiesModule _ | SpawnRebuild _ _ _ | GetCookiesPromised _ _ _
  | SetCookie _ _ | Logged _ | MarkConnectionLost => true
  | _ => false
  end.

Lemma attemptSqliteRebuild_emits w : emits syncEvent (attemptSqliteRebuild w).
Proof. unfold attemptSqliteRebuild. repeat emits_step. Qed.

Lemma loadChromeCookiesModule_emits w fuel : emits syncEvent (loadChromeCookiesModule w fuel).
Proof.
  induction fuel as [|fuel IH]; simpl.
  - intros st. now apply emitsAt_nil.
  - repeat first [exact IH | apply attemptSqliteRebuild_emits | emits_step].
Qed.

Lemma readChromeCookies_emits w url profile : emits syncEvent (readChromeCookies w url profile).
Proof.
  unfold readChromeCookies. repeat first [apply loadChromeCookiesModule_emits | emits_step].
Qed.

Lemma syncCookies_emits w url profile allowErrors :
  emits syncEvent (syncCookies w url profile allowErrors).
Proof.
  unfold syncCookies, applyCookie.
  repeat first [apply readChromeCookies_emits | emits_step].
Qed.

Fixpoint countIf (f : Event -> bool) (l : list Event) : nat :=
  match l with
  | [] => 0
  | e :: rest => (if f e then 1 else 0) + countIf f rest
  end.

Lemma countIf_app f l1 l2 : countIf f (l1 ++ l2) = countIf f l1 + countIf f l2.
Proof. induction l1 as [|e l1 IH]; simpl; [reflexivity|]. rewrite IH. lia. Qed.

Lemma countIf_none f l : forallb (fun e => negb (f e)) l = true -> countIf f l = 0.
Proof.
  induction l as [|e l IH]; simpl; [reflexivity|].
  intros H. apply andb_true_iff in H as [He Hl]. destruct (f e); [discriminate|auto].
Qed.

(** The events added to the trace between two states. *)
Definition newEvents (st st' : St) : list Event := drop (length (trace st)) (trace st').

Lemma newEvents_app st st' evs : trace st' = trace st ++ evs -> newEvents st st' = evs.
Proof. intros H. unfold newEvents. rewrite H. apply drop_app_length. Qed.

(** A guarded attempt announces itself with one of these two warnings. *)
Definition attemptEvent (e : Event) : bool :=
  match e with
  | Logged WarnRebuildNotAllowed | Logged WarnAttemptingRebuild => true
  | _ => false
  end.

Definition spawnEvent (e : Event) : bool :=
  match e with SpawnRebuild _ _ _ => true | _ => false end.

Definition rebuiltEvent (e : Event) : bool :=
  match e with
  | SpawnRebuild _ _ o =>
      match settled o with Resolved (Some 0%Z) => true | _ => false end
  | _ => false
  end.

(** The rebuild bookkeeping of a process: guarded attempts are counted by the
    module variable, and every spawn belongs to an attempt that was allowed. *)
Definition rebuildInv (w : World) (st : St) : Prop :=
  countIf attemptEvent (trace st) <= (if attemptedSqliteRebuild st then 1 else 0) /\
  countIf spawnEvent (trace st) <= countIf attemptEvent (trace st) /\
  (rebuildAllowed w = false -> countIf spawnEvent (trace st) = 0).

Definition keeps {A} (I : St -> Prop) (m : M A) : Prop :=
  forall st, I st -> I (snd (m st)).

Lemma keeps_ret {A} I (a : A) : keeps I (ret a).
Proof. now intros st. Qed.

Lemma keeps_throw {A} I e : keeps I (@throw A e).
Proof. now intros st. Qed.

Lemma keeps_bind {A B} I (m : M A) (k : A -> M B) :
  keeps I m -> (forall a, keeps I (k a)) -> keeps I (bind m k).
Proof.
  intros Hm Hk st Hst. specialize (Hm st Hst). unfold bind.
  destruct (m st) as [[a|e|] st1]; simpl in *; auto. now apply Hk.
Qed.

Lemma keeps_tryCatch {A} I (m : M A) (h : Thrown -> M A) :
  keeps I m -> (forall e, keeps I (h e)) -> keeps I (tryCatch m h).
Proof.
  intros Hm Hh st Hst. specialize (Hm st Hst). unfold tryCatch.
  destruct (m st) as [[a|e|] st1]; simpl in *; auto. now apply Hh.
Qed.

Lemma keeps_foldM {A B} I (f : B -> A -> M B) (l : list A) :
  (forall acc x, keeps I (f acc x)) -> forall acc, keeps I (foldM f l acc).
Proof.
  intros Hf. induction l as [|x l IH]; intros acc; simpl.
  - apply keeps_ret.
  - apply keeps_bind; auto.
Qed.

Definition offRecord (e : Event) : bool := negb (attemptEvent e) && negb (spawnEvent e).

Lemma rebuildInv_addEvent w e st :
  offRecord e = true -> rebuildInv w st -> rebuildInv w (addEvent e st).
Proof.
  unfold offRecord, rebuildInv. intros He (H1 & H2 & H3). simpl.
  apply andb_true_iff in He as [Ha Hs]. apply negb_true_iff in Ha, Hs.
  rewrite !countIf_app. simpl. rewrite Ha, Hs. simpl. rewrite !Nat.add_0_r. auto.
Qed.

Lemma keeps_log w l : offRecord (Logged l) = true -> keeps (rebuildInv w) (log l).
Proof. intros Hl st Hst. now apply rebuildInv_addEvent. Qed.

Lemma keeps_perform w {T} (answer : nat -> Outcome T) ev :
  (forall o, offRecord (ev o) = true) -> keeps (rebuildInv w) (perform answer ev).
Proof.
  intros Hev st Hst. unfold perform; simpl.
  apply rebuildInv_addEvent; [apply Hev|].
  destruct (client st); [|exact Hst].
  destruct (fired _); [|exact Hst].
  unfold markConnectionLost. destruct Hst as (H1 & H2 & H3). unfold rebuildInv. simpl.
  rewrite !countIf_app. simpl. rewrite !Nat.add_0_r. auto.
Qed.

Ltac keeps_step :=
  match goal with
  | |- keeps _ (bind _ _) => apply keeps_bind; [|intros ?]
  | |- keeps _ (tryCatch _ _) => apply keeps_tryCatch; [|intros ?]
  | |- keeps _ (ret _) => apply keeps_ret
  | |- keeps _ (throw _) => apply keeps_throw
  | |- keeps _ (log _) => apply keeps_log; reflexivity
  | |- keeps _ (perform _ _) => apply keeps_perform; intros ?; reflexivity
  | |- keeps _ (foldM _ _ _) => apply keeps_foldM; intros ? ?
  | |- keeps _ (if ?b then _ else _) => destruct b
  | |- keeps _ (match ?x with _ => _ end) => destruct x
  end.

(** A second attempt is refused at once. *)
Lemma attemptSqliteRebuild_again w st :
  attemptedSqliteRebuild st = true -> attemptSqliteRebuild w st = (Ok false, st).
Proof. intros H. unfold attemptSqliteRebuild, bind, get. cbv beta iota. now rewrite H. Qed.

Lemma attemptSqliteRebuild_keeps w : keeps (rebuildInv w) (attemptSqliteRebuild w).
Proof.
  intros st (H1 & H2 & H3).
  destruct (attemptedSqliteRebuild st) eqn:Ea.
  { rewrite attemptSqliteRebuild_again by exact Ea. unfold rebuildInv. simpl. now rewrite Ea. }
  assert (Hzero : countIf attemptEvent (trace st) = 0) by lia.
  assert (Hspawn : countIf spawnEvent (trace st) = 0) by lia.
  unfold attemptSqliteRebuild, bind, get, modify, tryCatch, log, emit, modify, ret.
  cbv beta iota. rewrite Ea. simpl.
  destruct (rebuildAllowed w) eqn:Eallow; simpl.
  - unfold perform; simpl.
    destruct (settled _) as [[[| |]|]|]; simpl;
      unfold rebuildInv; simpl;
      destruct (client st); simpl; try destruct (fired _); simpl;
      rewrite !countIf_app; simpl; rewrite ?countIf_app; simpl;
      rewrite Hzero, Hspawn; repeat split; try lia; congruence.
  - unfold rebuildInv; simpl. rewrite !countIf_app. simpl.
    rewrite Hzero, Hspawn. repeat split; lia.
Qed.

(** An attempt always answers, leaves the module variable set, and answers
    [true] only after a rebuild that exited with code 0. *)
Lemma attemptSqliteRebuild_run w st :
  exists b evs,
    fst (attemptSqliteRebuild w st) = Ok b /\
    trace (snd (attemptSqliteRebuild w st)) = trace st ++ evs /\
    attemptedSqliteRebuild (snd (attemptSqliteRebuild w st)) = true /\
    (b = true -> existsb rebuiltEvent evs = true).
Proof.
  destruct (attemptedSqliteRebuild st) eqn:Ea.
  { rewrite attemptSqliteRebuild_again by exact Ea. exists false, []. simpl.
    rewrite app_nil_r. repeat split; auto. }
  unfold attemptSqliteRebuild, bind, get, modify, tryCatch, log, emit, modify, ret.
  cbv beta iota. rewrite Ea. simpl.
  destruct (rebuildAllowed w) eqn:Eallow; simpl.
  - unfold perform; simpl.
    destruct (settled _) as [[[| |]|]|] eqn:Es; simpl;
      destruct (client st); simpl; try destruct (fired _); simpl;
      eexists _, _; (split; [reflexivity|]);
      (split; [rewrite <- !app_assoc; reflexivity|]);
      (split; [reflexivity|]); simpl;
      rewrite <- ?app_assoc in Es; simpl in Es; rewrite ?Es; simpl; auto; discriminate.
  - exists false. eexists. split; [reflexivity|]. split; [reflexivity|].
    split; [reflexivity|discriminate].
Qed.

Lemma loadChromeCookiesModule_keeps w fuel :
  keeps (rebuildInv w) (loadChromeCookiesModule w fuel).
Proof.
  induction fuel as [|fuel IH]; simpl.
  - now intros st.
  - repeat first [exact IH | apply attemptSqliteRebuild_keeps | keeps_step].
Qed.

Lemma syncCookies_keeps w url profile allowErrors :
  keeps (rebuildInv w) (syncCookies w url profile allowErrors).
Proof.
  unfold syncCookies, readChromeCookies, applyCookie.
  repeat first [apply loadChromeCookiesModule_keeps | keeps_step].
Qed.

(** One unfolding of [loadChromeCookiesModule], as a case analysis. *)
Lemma loadChromeCookiesModule_unfold w fuel st :
  loadChromeCookiesModule w (S fuel) st =
  match perform (importCookiesModule w) ImportCookiesModule st with
  | (Ok imported, st1) =>
      match resolveChromeCookieModule imported with
      | Some secureModule => (Ok secureModule, st1)
      | None =>
          (Throw (CookieSyncErr "chrome-cookies-secure did not expose getCookiesPromised"),
           addEvent (Logged WarnNoGetter) st1)
      end
  | (Throw error, st1) =>
      let st2 := addEvent (Logged (WarnLoadFailed error)) st1 in
      if isSqliteBindingError error then
        match attemptSqliteRebuild w st2 with
        | (Ok true, st3) => loadChromeCookiesModule w fuel st3
        | (Ok false, st3) =>
            (Throw (CookieSyncErr unableToLoad), addEvent (Logged WarnBindingHint) st3)
        | (Throw e, st3) => (Throw e, st3)
        | (OutOfFuel, st3) => (OutOfFuel, st3)
        end
      else
        (Throw (CookieSyncErr unableToLoad), addEvent (Logged WarnRebuildManually) st2)
  | (OutOfFuel, st1) => (OutOfFuel, st1)
  end.
Proof.
  cbn [loadChromeCookiesModule]. unfold bind, tryCatch.
  destruct (perform (importCookiesModule w) ImportCookiesModule st) as [[imported|error|] st1];
    simpl; try reflexivity.
  - destruct (resolveChromeCookieModule imported); reflexivity.
  - destruct (isSqliteBindingError error); simpl; [|reflexivity].
    destruct (attemptSqliteRebuild w _) as [[[|]|e|] st3]; simpl; try reflexivity.
    destruct (loadChromeCookiesModule w fuel st3) as [[m|e|] st4]; reflexivity.
Qed.

Lemma import_run w st :
  exists evs1,
    trace (snd (perform (importCookiesModule w) ImportCookiesModule st)) = trace st ++ evs1 /\
    existsb rebuiltEvent evs1 = false /\
    attemptedSqliteRebuild (snd (perform (importCookiesModule w) ImportCookiesModule st))
    = attemptedSqliteRebuild st /\
    fst (perform (importCookiesModule w) ImportCookiesModule st)
    = resOf (settled (importCookiesModule w (length (trace st)))).
Proof.
  destruct (perform_run (importCookiesModule w) ImportCookiesModule st)
    as (Hr & _ & Hatt & _ & _ & Htr).
  destruct Htr as [(_ & _ & Ht & _)|(_ & Ht & _)]; eauto 6.
Qed.

(** Once the module variable is set, loading never rebuilds: it returns the
    module or throws the cookie-sync error. *)
Lemma loadChromeCookiesModule_attempted w fuel st :
  attemptedSqliteRebuild st = true ->
  exists evs,
    trace (snd (loadChromeCookiesModule w (S fuel) st)) = trace st ++ evs /\
    existsb rebuiltEvent evs = false /\
    match fst (loadChromeCookiesModule w (S fuel) st) with
    | Ok _ => True
    | Throw e => exists message, e = CookieSyncErr message
    | OutOfFuel => False
    end.
Proof.
  intros Ha. rewrite loadChromeCookiesModule_unfold.
  destruct (import_run w st) as (evs1 & Ht1 & Hn1 & Hatt & Hr).
  destruct (perform (importCookiesModule w) ImportCookiesModule st) as [r st1].
  simpl in Ht1, Hatt, Hr.
  destruct (settled (importCookiesModule w (length (trace st)))) as [imported|error];
    simpl in Hr; subst r.
  - destruct (resolveChromeCookieModule imported); simpl.
    + exists evs1. auto.
    + exists (evs1 ++ [Logged WarnNoGetter]).
      rewrite Ht1, <- app_assoc, existsb_app, Hn1. simpl. eauto.
  - cbv zeta. destruct (isSqliteBindingError error).
    + rewrite attemptSqliteRebuild_again by (simpl; congruence). simpl.
      exists (evs1 ++ [Logged (WarnLoadFailed error); Logged WarnBindingHint]).
      rewrite Ht1, <- !app_assoc, existsb_app, Hn1. simpl. eauto.
    + simpl.
      exists (evs1 ++ [Logged (WarnLoadFailed error); Logged WarnRebuildManually]).
      rewrite Ht1, <- !app_assoc, existsb_app, Hn1. simpl. eauto.
Qed.

(** Loading from any state, with the fuel the synchronizer gives it. *)
Lemma loadChromeCookiesModule_run w st :
  exists evs,
    trace (snd (loadChromeCookiesModule w loadFuel st)) = trace st ++ evs /\
    match fst (loadChromeCookiesModule w loadFuel st) with
    | Ok _ => True
    | Throw e => exists message, e = CookieSyncErr message
    | OutOfFuel => False
    end /\
    ((exists error, settled (importCookiesModule w (length (trace st))) = Rejected error) ->
     existsb rebuiltEvent evs = false ->
     fst (loadChromeCookiesModule w loadFuel st) = Throw (CookieSyncErr unableToLoad)).
Proof.
  unfold loadFuel. rewrite loadChromeCookiesModule_unfold.
  destruct (import_run w st) as (evs1 & Ht1 & Hn1 & Hatt & Hr).
  destruct (perform (importCookiesModule w) ImportCookiesModule st) as [r st1].
  simpl in Ht1, Hatt, Hr.
  destruct (settled (importCookiesModule w (length (trace st)))) as [imported|error];
    simpl in Hr; subst r.
  - destruct (resolveChromeCookieModule imported); simpl.
    + exists evs1. repeat split; auto. intros [error He]; discriminate.
    + exists (evs1 ++ [Logged WarnNoGetter]). rewrite Ht1, <- app_assoc.
      repeat split; eauto. intros [error He]; discriminate.
  - cbv zeta.
    set (st2 := addEvent (Logged (WarnLoadFailed error)) st1).
    assert (Ht2 : trace st2 = trace st ++ evs1 ++ [Logged (WarnLoadFailed error)]).
    { subst st2. simpl. now rewrite Ht1, <- app_assoc. }
    destruct (isSqliteBindingError error).
    + destruct (attemptSqliteRebuild_run w st2) as (b & evsA & Hb & HtA & HaA & HbA).
      destruct (attemptSqliteRebuild w st2) as [rA st3]. cbn [fst snd] in Hb, HtA, HaA. subst rA.
      destruct b.
      * destruct (loadChromeCookiesModule_attempted w 0 st3 HaA) as (evsL & HtL & HnL & HrL).
        exists (evs1 ++ [Logged (WarnLoadFailed error)] ++ evsA ++ evsL).
        assert (Hrebuilt : existsb rebuiltEvent
                  (evs1 ++ [Logged (WarnLoadFailed error)] ++ evsA ++ evsL) = true).
        { rewrite !existsb_app, (HbA eq_refl). now rewrite !orb_true_r. }
        rewrite HtL, HtA, Ht2, <- !app_assoc. repeat split; auto. congruence.
      * simpl.
        exists (evs1 ++ [Logged (WarnLoadFailed error)] ++ evsA ++ [Logged WarnBindingHint]).
        rewrite HtA, Ht2, <- !app_assoc. repeat split; eauto.
    + simpl.
      exists (evs1 ++ [Logged (WarnLoadFailed error); Logged WarnRebuildManually]).
      rewrite Ht1, <- !app_assoc. repeat split; eauto.
Qed.

(** The cookies handed to [Network.setCookie], in call order. *)
Fixpoint setCookieCalls (evs : list Event) : list Cookies.Cookie :=
  match evs with
  | [] => []
  | SetCookie cookie _ :: rest => cookie :: setCookieCalls rest
  | _ :: rest => setCookieCalls rest
  end.

(** A call of [Network.setCookie] that answered [{ success: true }]. *)
Definition appliedEvent (e : Event) : bool :=
  match e with
  | SetCookie _ o => match settled o with Resolved (Some true) => true | _ => false end
  | _ => false
  end.

Lemma setCookieCalls_app evs1 evs2 :
  setCookieCalls (evs1 ++ evs2) = setCookieCalls evs1 ++ setCookieCalls evs2.
Proof.
  induction evs1 as [|e evs1 IH]; simpl; [reflexivity|].
  destruct e; simpl; now rewrite ?IH.
Qed.

Definition failureLogged (evs : list Event) : Prop :=
  forall cookie o error,
    In (SetCookie cookie o) evs -> settled o = Rejected error ->
    In (Logged (LogFailedSetCookie (Cookies.name cookie) (messageOf error))) evs.

Lemma failureLogged_app evs1 evs2 :
  failureLogged evs1 -> failureLogged evs2 -> failureLogged (evs1 ++ evs2).
Proof.
  intros H1 H2 cookie o error Hin Hs. rewrite in_app_iff in *.
  destruct Hin as [Hin|Hin]; [left; eapply H1|right; eapply H2]; eauto.
Qed.

Lemma withUrl_name url cookie : Cookies.name (withUrl url cookie) = Cookies.name cookie.
Proof.
  unfold withUrl. destruct (Cookies.domain cookie) as [[|c d]|]; try reflexivity.
  destruct (String.eqb (String c d) "localhost"); [reflexivity|].
  destruct (negb (Js.startsWith "." (String c d))); reflexivity.
Qed.

(** One cookie: one call, counted when it succeeds, logged when it throws. *)
Lemma applyCookie_run w url applied cookie st :
  exists evs,
    trace (snd (applyCookie w url applied cookie st)) = trace st ++ evs /\
    setCookieCalls evs = [withUrl url cookie] /\
    fst (applyCookie w url applied cookie st)
    = Ok (applied + Z.of_nat (countIf appliedEvent evs))%Z /\
    failureLogged evs.
Proof.
  unfold applyCookie, tryCatch, bind.
  destruct (perform_run (setCookie w (withUrl url cookie)) (SetCookie (withUrl url cookie)) st)
    as (Hr & _ & _ & _ & _ & Htr).
  destruct (perform (setCookie w (withUrl url cookie)) (SetCookie (withUrl url cookie)) st)
    as [r st1].
  cbn [fst snd] in Hr, Htr.
  set (o := setCookie w (withUrl url cookie) (length (trace st))) in *.
  assert (Hev : exists pre, trace st1 = trace st ++ pre ++ [SetCookie (withUrl url cookie) o]
                            /\ (pre = [] \/ pre = [MarkConnectionLost])).
  { destruct Htr as [(_ & _ & Ht & _)|(_ & Ht & _)].
    - exists [MarkConnectionLost]. auto.
    - exists []. auto. }
  destruct Hev as (pre & Ht1 & Hpre).
  destruct (settled o) as [result|error] eqn:Es; simpl in Hr; subst r; cbv beta iota.
  - exists (pre ++ [SetCookie (withUrl url cookie) o]).
    assert (Hcount : countIf appliedEvent (pre ++ [SetCookie (withUrl url cookie) o])
                     = if appliedEvent (SetCookie (withUrl url cookie) o) then 1 else 0).
    { rewrite countIf_app. destruct Hpre as [-> | ->]; simpl; lia. }
    assert (Hcalls : setCookieCalls (pre ++ [SetCookie (withUrl url cookie) o])
                     = [withUrl url cookie]).
    { rewrite setCookieCalls_app. destruct Hpre as [-> | ->]; reflexivity. }
    assert (Hlog : failureLogged (pre ++ [SetCookie (withUrl url cookie) o])).
    { intros c o' e Hin Hs. rewrite in_app_iff in Hin. simpl in Hin.
      destruct Hin as [Hin|[Hin|[]]].
      - destruct Hpre as [-> | ->]; simpl in Hin; intuition discriminate.
      - injection Hin as <- <-. congruence. }
    rewrite Hcount. simpl. rewrite Es.
    destruct result as [[|]|]; unfold ret; simpl; rewrite ?Z.add_0_r; auto.
  - unfold log, emit, modify, ret; simpl.
    exists (pre ++ [SetCookie (withUrl url cookie) o;
                    Logged (LogFailedSetCookie (Cookies.name cookie) (messageOf error))]).
    rewrite Ht1, <- !app_assoc. split; [reflexivity|].
    split; [rewrite setCookieCalls_app; destruct Hpre as [-> | ->]; reflexivity|].
    split.
    + rewrite countIf_app. simpl. rewrite Es.
      destruct Hpre as [-> | ->]; simpl; now rewrite Z.add_0_r.
    + intros c o' e Hin Hs. rewrite in_app_iff in *. simpl in *.
      destruct Hin as [Hin|[Hin|[Hin|[]]]].
      * destruct Hpre as [-> | ->]; simpl in Hin; intuition discriminate.
      * injection Hin as <- <-. rewrite withUrl_name.
        assert (e = error) as -> by congruence. auto.
      * discriminate.
Qed.

(** The loop over the cookies never aborts. *)
Lemma applyCookies_run w url cookies : forall applied st,
  exists evs,
    trace (snd (foldM (applyCookie w url) cookies applied st)) = trace st ++ evs /\
    setCookieCalls evs = map (withUrl url) cookies /\
    fst (foldM (applyCookie w url) cookies applied st)
    = Ok (applied + Z.of_nat (countIf appliedEvent evs))%Z /\
    failureLogged evs.
Proof.
  induction cookies as [|cookie cookies IH]; intros applied st.
  - exists []. simpl. rewrite app_nil_r, Z.add_0_r. repeat split. intros c o e [].
  - cbn [foldM]. unfold bind.
    destruct (applyCookie_run w url applied cookie st) as (evs1 & Ht1 & Hc1 & Hr1 & Hl1).
    destruct (applyCookie w url applied cookie st) as [r st1]. cbn [fst snd] in *. subst r.
    destruct (IH (applied + Z.of_nat (countIf appliedEvent evs1))%Z st1)
      as (evs2 & Ht2 & Hc2 & Hr2 & Hl2).
    exists (evs1 ++ evs2). rewrite Ht2, Ht1, Hr2, app_assoc, setCookieCalls_app, Hc1, Hc2.
    repeat split.
    + f_equal. rewrite countIf_app. lia.
    + now apply failureLogged_app.
Qed.

Lemma loadChromeCookiesModule_total w : total (loadChromeCookiesModule w loadFuel).
Proof.
  intros st. destruct (loadChromeCookiesModule_run w st) as (evs & _ & H & _).
  destruct (fst _); [discriminate|discriminate|contradiction].
Qed.

Lemma readChromeCookies_total w url profile : total (readChromeCookies w url profile).
Proof.
  unfold readChromeCookies. repeat first [apply loadChromeCookiesModule_total | total_step].
Qed.

Lemma syncCookies_total w url profile allowErrors :
  total (syncCookies w url profile allowErrors).
Proof.
  unfold syncCookies, applyCookie.
  repeat first [apply readChromeCookies_total | total_step].
Qed.

(** C5. When the cookies can be read, they are handed to [Network.setCookie]
    one at a time, each exactly once and in order, a call that throws is
    logged and the loop goes on, and the result is the number of calls that
    answered success. When reading or loading the module fails, the call
    throws a ChromeCookieSyncError with that message if [allowErrors] is
    false, and logs a warning and returns 0 if it is true. *)
Theorem syncCookies_policy (w : World) (url : string) (profile : option string)
    (allowErrors : bool) (st : St) :
  let read := readChromeCookies w url profile st in
  let sync := syncCookies w url profile allowErrors st in
  match fst read with
  | Ok cookies =>
      exists evs,
        trace (snd sync) = trace (snd read) ++ evs /\
        setCookieCalls evs = map (withUrl url) cookies /\
        fst sync = Ok (Z.of_nat (countIf appliedEvent evs)) /\
        failureLogged evs
  | Throw error =>
      if allowErrors then
        fst sync = Ok 0%Z /\
        trace (snd sync)
        = trace (snd read) ++ [Logged (LogCookieSyncOverride (messageOf error))]
      else
        fst sync = Throw (CookieSyncErr (messageOf error)) /\
        trace (snd sync) = trace (snd read)
  | OutOfFuel => False
  end.
Proof.
  cbv zeta. pose proof (readChromeCookies_total w url profile st) as Htotal.
  unfold syncCookies, tryCatch, bind.
  destruct (readChromeCookies w url profile st) as [[cookies|error|] st1]; cbn [fst snd] in *.
  - destruct (applyCookies_run w url cookies 0%Z st1) as (evs & Ht & Hc & Hr & Hl).
    destruct cookies as [|cookie cookies].
    + exists []. simpl. rewrite app_nil_r. repeat split. intros c o e [].
    + destruct (foldM (applyCookie w url) (cookie :: cookies) 0%Z st1) as [r st2].
      cbn [fst snd] in *. subst r. exists evs. auto.
  - destruct allowErrors; simpl.
    + auto.
    + split; [|reflexivity]. now destruct error.
  - congruence.
Qed.

Lemma keeps_forEach {A} I (l : list A) (f : A -> M unit) :
  (forall x, keeps I (f x)) -> keeps I (Engine.forEach l f).
Proof.
  intros Hf. induction l as [|x l IH]; simpl.
  - apply keeps_ret.
  - apply keeps_bind; auto.
Qed.

Lemma rebuildAllowed_false w :
  env w "ORACLE_ALLOW_SQLITE_REBUILD" <> Some "1" -> rebuildAllowed w = false.
Proof.
  unfold rebuildAllowed. intros H.
  destruct (env w "ORACLE_ALLOW_SQLITE_REBUILD") as [v|]; [|reflexivity].
  destruct (String.eqb_spec v "1"); [congruence|reflexivity].
Qed.

(** C9. Over the lifetime of a process, however many times cookies are
    synchronized, at most one guarded rebuild attempt is made and at most one
    rebuild subprocess is spawned, and none at all unless
    ORACLE_ALLOW_SQLITE_REBUILD is '1'. Loading the cookie module always ends:
    it returns the module or throws a ChromeCookieSyncError, and when the
    import fails and no rebuild exits with code 0 it throws the
    ChromeCookieSyncError "Unable to load chrome-cookies-secure. Cookie copy
    is required.". *)
Theorem sqlite_rebuild_policy (w : World) :
  (forall calls,
      let st := snd (Samples.lifetime w calls processStart) in
      countIf attemptEvent (trace st) <= 1 /\
      countIf spawnEvent (trace st) <= 1 /\
      (env w "ORACLE_ALLOW_SQLITE_REBUILD" <> Some "1" ->
       countIf spawnEvent (trace st) = 0)) /\
  (forall st,
      match fst (loadChromeCookiesModule w loadFuel st) with
      | Ok _ => True
      | Throw e => exists message, e = CookieSyncErr message
      | OutOfFuel => False
      end) /\
  (forall st error,
      settled (importCookiesModule w (length (trace st))) = Rejected error ->
      existsb rebuiltEvent (newEvents st (snd (loadChromeCookiesModule w loadFuel st))) = false ->
      fst (loadChromeCookiesModule w loadFuel st) = Throw (CookieSyncErr unableToLoad)).
Proof.
  split; [|split].
  - intros calls st.
    assert (Hinv : rebuildInv w st).
    { subst st. unfold Samples.lifetime. apply (keeps_forEach (rebuildInv w)).
      - intros call. repeat first [apply syncCookies_keeps | keeps_step].
      - unfold rebuildInv. simpl. repeat split; lia. }
    destruct Hinv as (H1 & H2 & H3).
    assert (countIf attemptEvent (trace st) <= 1) by (destruct (attemptedSqliteRebuild st); lia).
    repeat split; try lia. intros Henv. apply H3. now apply rebuildAllowed_false.
  - intros st. destruct (loadChromeCookiesModule_run w st) as (evs & _ & H & _). exact H.
  - intros st error Himp Hnone.
    destruct (loadChromeCookiesModule_run w st) as (evs & Ht & _ & H).
    rewrite (newEvents_app _ _ _ Ht) in Hnone. apply H; eauto.
Qed.

Lemma sqlite_rebuild_policy_witness :
  fst (loadChromeCookiesModule Samples.noBindings loadFuel processStart)
  = Throw (CookieSyncErr unableToLoad) /\
  countIf spawnEvent
    (trace (snd (Samples.lifetime Samples.noBindings
                   [("https://chatgpt.com/", None, false);
                    ("https://chatgpt.com/", Some "Default", true)] processStart))) = 0.
Proof.
  destruct (sqlite_rebuild_policy Samples.noBindings) as (Hlife & _ & Hload).
  split.
  - apply (Hload processStart
             (Err "Could not locate the bindings file. Tried: node_sqlite3.node"));
      vm_compute; reflexivity.
  - apply Hlife. vm_compute. discriminate.
Defined.

End CookieSyncSpec.

(** ** The run coordinator *)

Module EngineSpec.
Import Effects EffectLemmas Engine.
Local Open Scope list_scope.

Fixpoint onlyWhitespace (s : string) : bool :=
  match s with
  | EmptyString => true
  | String c rest => Js.isSpace c && onlyWhitespace rest
  end.

Lemma trim_onlyWhitespace s : onlyWhitespace s = true -> Js.trim s = EmptyString.
Proof.
  unfold Js.trim. induction s as [|c s IH]; simpl; [reflexivity|].
  intros H. apply andb_true_iff in H as [Hc Hs]. rewrite Hc. auto.
Qed.

(** C10. When the prompt is absent, empty or only whitespace, the call
    throws "Prompt text is required when using browser mode." and leaves the
    state as it was: nothing is added to the trace, so no temporary profile
    directory is created and no browser is launched. *)
Theorem prompt_required (w : World) (options : BrowserRunOptions) (st : St) :
  match prompt options with
  | None => True
  | Some text => onlyWhitespace text = true
  end ->
  runBrowserMode w options st = (Throw (Err promptRequired), st).
Proof.
  unfold runBrowserMode. destruct (prompt options) as [text|]; simpl; [|reflexivity].
  intros H. now rewrite (trim_onlyWhitespace _ H).
Qed.

Lemma prompt_required_witness :
  runBrowserMode Samples.calm
    {| prompt := Some "   "; attachments := None; config := None;
       heartbeatIntervalMs := None; verbose := None |} processStart
  = (Throw (Err promptRequired), processStart).
Proof.
  apply (prompt_required Samples.calm). reflexivity.
Defined.

(** *** Footprints *)

(** What the try block and the catch block may add to the trace. *)
Definition bodyEvent (e : Event) : bool :=
  match e with
  | Mkdtemp _ | LaunchChrome _ _ | RegisterTerminationHooks _ _ | RemoveTerminationHooks
  | ClientClose _ | ChromeKill _ | RmUserDataDir _ _ | EvaluateModelSelection _ _ => false
  | _ => true
  end.

Definition killsOrRemoves (e : Event) : bool :=
  match e with
  | ChromeKill _ | RmUserDataDir _ _ => true
  | _ => false
  end.

Definition spares (e : Event) : bool := negb (killsOrRemoves e).

Lemma bodyEvent_spares e : bodyEvent e = true -> spares e = true.
Proof. destruct e; simpl; auto. Qed.

Lemma syncEvent_bodyEvent e : CookieSyncSpec.syncEvent e = true -> bodyEvent e = true.
Proof. destruct e; simpl; auto. Qed.

Lemma stopMonitor_emits : emits bodyEvent stopMonitor.
Proof. unfold stopMonitor. repeat emits_step. Qed.

Lemma startThinkingStatusMonitor_emits : emits bodyEvent startThinkingStatusMonitor.
Proof. unfold startThinkingStatusMonitor. repeat emits_step. Qed.

Lemma tryBlock_emits w options config promptText attachments chrome dir startedAt :
  emits bodyEvent (tryBlock w options config promptText attachments chrome dir startedAt).
Proof.
  unfold tryBlock, withRetries.
  repeat first
    [ apply stopMonitor_emits
    | apply startThinkingStatusMonitor_emits
    | eapply emits_weaken; [apply syncEvent_bodyEvent|apply CookieSyncSpec.syncCookies_emits]
    | apply emits_withRetriesFrom; [| intros ? ? | reflexivity | intros ?; reflexivity]
    | emits_step ].
Qed.

Lemma onFailure_emits w config error : emits bodyEvent (onFailure w config error).
Proof.
  unfold onFailure. repeat first [apply stopMonitor_emits | emits_step].
Qed.

Lemma teardown_keeps_browser w config chrome dir hooks startedAt :
  keepBrowser config = true ->
  emits spares (teardown w config chrome dir hooks startedAt).
Proof.
  intros Hkeep. unfold teardown. rewrite Hkeep. cbn [negb]. repeat emits_step.
Qed.

(** C4. With [keepBrowser] set, whatever the environment does and however
    the run ends, no event added to the trace is a call of [chrome.kill()] or
    a removal of the profile directory. *)
Theorem keepBrowser_never_kills (w : World) (options : BrowserRunOptions) (st : St) :
  keepBrowser (resolveBrowserConfig w (config options)) = true ->
  exists evs,
    trace (snd (runBrowserMode w options st)) = trace st ++ evs /\
    forallb spares evs = true.
Proof.
  intros Hkeep. unfold runBrowserMode.
  destruct (option_map Js.trim (prompt options)) as [[|c text]|].
  1, 3: exists []; now rewrite app_nil_r.
  match goal with
  | |- context [bind (modify declareLocals) ?k] =>
      assert (Hrest : emits spares (k tt))
  end.
  { repeat first
      [ apply teardown_keeps_browser; exact Hkeep
      | eapply emits_weaken; [apply bodyEvent_spares|apply tryBlock_emits]
      | eapply emits_weaken; [apply bodyEvent_spares|apply onFailure_emits]
      | emits_step ]. }
  destruct (Hrest (declareLocals st)) as (evs & Ht & Hp & _).
  exists evs. split; [exact Ht|exact Hp].
Qed.

Lemma keepBrowser_never_kills_witness :
  exists evs,
    trace (snd (runBrowserMode Samples.closedWhileWaiting Samples.keepOptions processStart))
    = [] ++ evs /\
    forallb spares evs = true.
Proof.
  apply (keepBrowser_never_kills Samples.closedWhileWaiting Samples.keepOptions processStart).
  reflexivity.
Defined.

(** *** The shape of a run *)

Definition setupEvent (e : Event) : bool :=
  match e with
  | Mkdtemp _ | LaunchChrome _ _ | RegisterTerminationHooks _ _ | Logged _ => true
  | _ => false
  end.

(** The state in which the try block is entered. *)
Definition entered (st st1 : St) (evs0 : list Event) : Prop :=
  trace st1 = trace st ++ evs0 /\
  forallb setupEvent evs0 = true /\
  client st1 = None /\
  connectionClosedUnexpectedly st1 = false /\
  stopThinkingMonitor st1 = None /\
  runStatus st1 = attempted.

(** A run with a prompt either fails while the profile directory is made or
    Chrome is launched, or is the try/catch/finally statement run from the
    state reached after that setup. *)
Lemma run_cases w options promptText st :
  option_map Js.trim (prompt options) = Some promptText ->
  promptText <> EmptyString ->
  let config := resolveBrowserConfig w (config options) in
  (exists e evs0,
      fst (runBrowserMode w options st) = Throw e /\
      trace (snd (runBrowserMode w options st)) = trace st ++ evs0 /\
      forallb setupEvent evs0 = true)
  \/
  (exists dir chrome hooks startedAt st1 evs0,
      entered st st1 evs0 /\
      runBrowserMode w options st
      = tryFinally
          (tryCatch
             (tryBlock w options config promptText (default [] (attachments options))
                chrome dir startedAt)
             (onFailure w config))
          (teardown w config chrome dir hooks startedAt) st1).
Proof.
  intros Hp Hne config.
  remember (runBrowserMode w options st) as run eqn:Erun.
  unfold runBrowserMode in Erun. rewrite Hp in Erun.
  destruct promptText as [|c text]; [congruence|].
  cbv zeta in Erun. fold config in Erun.
  unfold bind at 1, modify at 1 in Erun. cbv beta iota in Erun.
  unfold bind at 1 in Erun.
  assert (Hlog : exists st0 evs,
             when (tracing w config) (log (LogConfig (String.length (String c text))))
               (declareLocals st) = (Ok tt, st0) /\
             trace st0 = trace st ++ evs /\ forallb setupEvent evs = true /\
             client st0 = None /\ connectionClosedUnexpectedly st0 = false /\
             stopThinkingMonitor st0 = None /\ runStatus st0 = attempted).
  { destruct (tracing w config); simpl.
    - eexists _, _. split; [reflexivity|]. simpl. repeat split.
    - exists (declareLocals st), []. simpl. rewrite app_nil_r. repeat split. }
  destruct Hlog as (st0 & evsL & Hwhen & Ht0 & Hs0 & Hc0 & Hf0 & Hm0 & Hr0).
  rewrite Hwhen in Erun. unfold bind at 1 in Erun.
  assert (Hperform : forall T (answer : nat -> Outcome T) ev st',
             client st' = None ->
             perform answer ev st'
             = (resOf (settled (answer (length (trace st')))),
                addEvent (ev (answer (length (trace st')))) st')).
  { intros T answer ev st' Hc. unfold perform. rewrite Hc. reflexivity. }
  rewrite (Hperform _ _ _ _ Hc0) in Erun.
  destruct (settled (mkdtemp w (length (trace st0)))) as [dir|e] eqn:Emk; cbn [resOf] in Erun.
  2:{ left. subst run. eexists _, _. split; [reflexivity|]. simpl. rewrite Ht0, <- app_assoc.
      split; [reflexivity|]. rewrite forallb_app, Hs0. reflexivity. }
  unfold bind at 1, log at 1, emit at 1, modify at 1 in Erun. cbv beta iota in Erun.
  unfold bind at 1 in Erun. rewrite Hperform in Erun by (simpl; exact Hc0).
  destruct (settled (launchChrome w dir _)) as [chrome|e] eqn:El; cbn [resOf] in Erun.
  2:{ left. subst run. eexists _, _. split; [reflexivity|]. simpl. rewrite Ht0, <- !app_assoc.
      split; [reflexivity|]. rewrite forallb_app, Hs0. reflexivity. }
  unfold bind at 1, tryCatch at 1, bind at 1 in Erun.
  rewrite Hperform in Erun by (simpl; exact Hc0).
  right. exists dir, chrome.
  destruct (settled (registerTerminationHooks w (keepBrowser config) _)) as [u|e] eqn:Er;
    cbn [resOf] in Erun; unfold ret at 1 in Erun; cbv beta iota in Erun;
    unfold bind at 1, now at 1 in Erun; cbv beta iota in Erun.
  - eexists true, _, _, _. split; [|exact Erun].
    unfold entered. simpl. rewrite Ht0, <- !app_assoc.
    repeat split; auto. rewrite forallb_app, Hs0. reflexivity.
  - eexists false, _, _, _. split; [|exact Erun].
    unfold entered. simpl. rewrite Ht0, <- !app_assoc.
    repeat split; auto. rewrite forallb_app, Hs0. reflexivity.
Qed.

Definition quietEvent (e : Event) : bool :=
  match e with
  | Logged _ | StopThinkingStatusMonitor => true
  | _ => false
  end.

(** [error instanceof Error ? error : new Error(String(error))] *)
Definition normalizedError (error : Thrown) : Thrown :=
  if instanceofError error then error else Err (messageOf error).

(** The catch block: what it throws and how it leaves the flag. *)
Lemma onFailure_run w config error st :
  let closed :=
    connectionClosedUnexpectedly st || isWebSocketClosureError (normalizedError error) in
  exists evs,
    trace (snd (onFailure w config error st)) = trace st ++ evs /\
    forallb quietEvent evs = true /\
    fst (onFailure w config error st)
    = Throw (if closed then ErrCaused windowClosed (normalizedError error)
             else normalizedError error) /\
    connectionClosedUnexpectedly (snd (onFailure w config error st)) = closed /\
    client (snd (onFailure w config error st)) = client st.
Proof.
  unfold onFailure. fold (normalizedError error).
  set (closure := isWebSocketClosureError (normalizedError error)).
  set (normalized := normalizedError error).
  unfold stopMonitor, bind, get, modify, emit, log, when, throw, ret.
  cbv beta iota zeta.
  destruct (stopThinkingMonitor st) as [[|]|]; cbv beta iota; simpl;
    destruct (connectionClosedUnexpectedly st); simpl;
    destruct closure; simpl;
    destruct (tracing w config); simpl;
    eexists; (split; [rewrite <- ?app_assoc; try reflexivity; now rewrite app_nil_r|]);
    simpl; repeat split.
Qed.

Definition teardownEvent (e : Event) : bool :=
  match e with
  | ClientClose _ | RemoveTerminationHooks | ChromeKill _ | RmUserDataDir _ _
  | Logged _ | MarkConnectionLost => true
  | _ => false
  end.

Definition closesOrKills (e : Event) : bool :=
  match e with
  | ClientClose _ | ChromeKill _ => true
  | _ => false
  end.


Lemma teardown_emits w config chrome dir hooks startedAt :
  emits teardownEvent (teardown w config chrome dir hooks startedAt).
Proof. unfold teardown. repeat emits_step. Qed.







(** *** Code that always completes normally *)

Definition succeeds {A} (m : M A) : Prop := forall st, exists a, fst (m st) = Ok a.

Lemma succeeds_ret {A} (a : A) : succeeds (ret a).
Proof. intros st. now exists a. Qed.

Lemma succeeds_bind {A B} (m : M A) (k : A -> M B) :
  succeeds m -> (forall a, succeeds (k a)) -> succeeds (bind m k).
Proof.
  intros Hm Hk st. destruct (Hm st) as (a & Ha). unfold bind.
  destruct (m st) as [r st1]. simpl in Ha. subst r. apply Hk.
Qed.

Lemma succeeds_tryCatch {A} (m : M A) (h : Thrown -> M A) :
  total m -> (forall e, succeeds (h e)) -> succeeds (tryCatch m h).
Proof.
  intros Hm Hh st. specialize (Hm st). unfold tryCatch.
  destruct (m st) as [[a|e|] st1]; simpl in *; [now exists a|apply Hh|congruence].
Qed.

Lemma succeeds_get : succeeds get.
Proof. intros st. now exists st. Qed.

Lemma succeeds_modify f : succeeds (modify f).
Proof. intros st. now exists tt. Qed.

Lemma succeeds_now w : succeeds (now w).
Proof. intros st. now eexists. Qed.

Lemma succeeds_when b m : succeeds m -> succeeds (when b m).
Proof. destruct b; simpl; [auto|intros _; apply succeeds_ret]. Qed.

Ltac succeeds_step :=
  match goal with
  | |- succeeds (bind _ _) => apply succeeds_bind; [|intros ?]
  | |- succeeds (tryCatch _ _) => apply succeeds_tryCatch; [repeat total_step|intros ?]
  | |- succeeds (ret _) => apply succeeds_ret
  | |- succeeds get => apply succeeds_get
  | |- succeeds (modify _) => apply succeeds_modify
  | |- succeeds (emit _) => apply succeeds_modify
  | |- succeeds (log _) => apply succeeds_modify
  | |- succeeds (now _) => apply succeeds_now
  | |- succeeds (when _ _) => apply succeeds_when
  | |- succeeds (if ?b then _ else _) => destruct b
  | |- succeeds (match ?x with _ => _ end) => destruct x
  end.

Lemma teardown_succeeds w config chrome dir hooks startedAt :
  succeeds (teardown w config chrome dir hooks startedAt).
Proof. unfold teardown. repeat succeeds_step. Qed.

Lemma stopMonitor_succeeds : succeeds stopMonitor.
Proof. unfold stopMonitor. repeat succeeds_step. Qed.

Lemma total_withRetriesFrom {A} w (task : M A) delayMs onRetry :
  total task -> (forall attempt error, total (onRetry attempt error)) ->
  forall retries attempt, total (withRetriesFrom w task retries delayMs onRetry attempt).
Proof.
  intros Ht Ho retries. induction retries as [|retries IH]; intros attempt; simpl.
  - apply total_tryCatch; [exact Ht|]. intros e. apply total_throw.
  - apply total_tryCatch; [exact Ht|]. intros e.
    apply total_bind; [apply Ho|]. intros _.
    apply total_bind; [apply total_perform|intros _; apply IH].
Qed.

Lemma tryBlock_total w options config promptText attachments chrome dir startedAt :
  total (tryBlock w options config promptText attachments chrome dir startedAt).
Proof.
  unfold tryBlock, withRetries, stopMonitor, startThinkingStatusMonitor.
  repeat first
    [ apply CookieSyncSpec.syncCookies_total
    | apply total_withRetriesFrom; [|intros ? ?]
    | total_step ].
Qed.

(** The outcome of the whole statement, from the outcomes of its blocks. *)
Lemma statement_cases w options config promptText attachments chrome dir hooks startedAt st1 :
  let body := tryBlock w options config promptText attachments chrome dir startedAt in
  let finally_ := teardown w config chrome dir hooks startedAt in
  let whole := tryFinally (tryCatch body (onFailure w config)) finally_ st1 in
  (exists result,
      fst (body st1) = Ok result /\
      whole = (Ok result, snd (finally_ (snd (body st1)))))
  \/
  (exists error,
      fst (body st1) = Throw error /\
      let failed := onFailure w config error (snd (body st1)) in
      whole = (fst failed, snd (finally_ (snd failed)))).
Proof.
  cbv zeta. unfold tryFinally, tryCatch.
  pose proof (tryBlock_total w options config promptText attachments chrome dir startedAt st1)
    as Htotal.
  destruct (tryBlock w options config promptText attachments chrome dir startedAt st1)
    as [[result|error|] st2]; cbn [fst snd] in *; [| |congruence].
  - left. exists result. split; [reflexivity|].
    destruct (teardown_succeeds w config chrome dir hooks startedAt st2) as (u & Hu).
    destruct (teardown w config chrome dir hooks startedAt st2) as [r st3].
    cbn [fst snd] in *. now subst r.
  - right. exists error. split; [reflexivity|].
    destruct (onFailure_run w config error st2) as (evs & _ & _ & Hr & _).
    destruct (onFailure w config error st2) as [r st3]. cbn [fst snd] in *. subst r.
    destruct (teardown_succeeds w config chrome dir hooks startedAt st3) as (u & Hu).
    destruct (teardown w config chrome dir hooks startedAt st3) as [r st4].
    cbn [fst snd] in *. now subst r.
Qed.

(** *** Failures that reach the catch block *)

Definition rejection {T} (o : Outcome T) : option Thrown :=
  match settled o with Rejected e => Some e | Resolved _ => None end.

(** The error of a rejected call of the try block whose rejection is not
    caught inside the block: connecting, preparing the page, and the page
    steps up to the response wait. *)
Definition stepFailure (e : Event) : option Thrown :=
  match e with
  | ConnectToChrome _ o => rejection o
  | HideChromeWindow o => rejection o
  | EnableDomains _ o => rejection o
  | ClearBrowserCookies o => rejection o
  | NavigateToChatGPT _ o => rejection o
  | EnsureNotBlocked _ o => rejection o
  | EnsurePromptReady _ o => rejection o
  | UploadAttachmentFile _ o => rejection o
  | WaitForAttachmentCompletion _ o => rejection o
  | SubmitPrompt _ o => rejection o
  | WaitForAssistantResponse _ o => rejection o
  | _ => None
  end.

Definition noFailure (e : Event) : bool :=
  match stepFailure e with None => true | Some _ => false end.

Definition failsAtEnd {A} (r : Res A) (evs : list Event) : Prop :=
  match r with
  | Ok _ => forallb noFailure evs = true
  | Throw e =>
      forallb noFailure evs = true \/
      exists pre ev, evs = pre ++ [ev] /\ stepFailure ev = Some e /\
                     forallb noFailure pre = true
  | OutOfFuel => False
  end.

(** A computation that stops at its first failed step, throwing its error. *)
Definition stopsAtFailure {A} (m : M A) : Prop :=
  forall st, exists evs,
    trace (snd (m st)) = trace st ++ evs /\
    flagKept st (snd (m st)) evs /\
    failsAtEnd (fst (m st)) evs.

Lemma stops_bind {A B} (m : M A) (k : A -> M B) :
  stopsAtFailure m -> (forall a, stopsAtFailure (k a)) -> stopsAtFailure (bind m k).
Proof.
  intros Hm Hk st. destruct (Hm st) as (evs1 & Ht1 & Hf1 & Hg1). unfold bind.
  destruct (m st) as [[a|e|] st1]; cbn [fst snd] in *.
  - destruct (Hk a st1) as (evs2 & Ht2 & Hf2 & Hg2).
    exists (evs1 ++ evs2). rewrite Ht2, Ht1, app_assoc.
    split; [reflexivity|]. split; [eapply flagKept_trans; eauto|].
    destruct (fst (k a st1)) as [b|e|]; simpl in *.
    + now rewrite forallb_app, Hg1, Hg2.
    + destruct Hg2 as [Hclean|(pre & ev & -> & Hev & Hpre)].
      * left. now rewrite forallb_app, Hg1, Hclean.
      * right. exists (evs1 ++ pre), ev. rewrite app_assoc.
        repeat split; auto. now rewrite forallb_app, Hg1, Hpre.
    + exact Hg2.
  - exists evs1. auto.
  - contradiction.
Qed.

Lemma stops_quiet {A} P (m : M A) :
  emits P m -> total m -> (forall e, P e = true -> noFailure e = true) -> stopsAtFailure m.
Proof.
  intros Hm Ht HP st. destruct (Hm st) as (evs & Htr & Hp & Hf). specialize (Ht st).
  exists evs. repeat split; auto.
  assert (Hclean : forallb noFailure evs = true).
  { rewrite forallb_forall in *. auto. }
  destruct (fst (m st)); simpl; auto.
Qed.

Lemma stops_perform {T} (answer : nat -> Outcome T) (ev : Outcome T -> Event) :
  (forall o, stepFailure (ev o) = rejection o) ->
  (forall o, isMark (ev o) = false) ->
  stopsAtFailure (perform answer ev).
Proof.
  intros Hev Hnm st.
  destruct (emits_perform (fun _ => true) answer ev eq_refl (fun _ => eq_refl) Hnm st)
    as (evs & Ht & _ & Hf).
  destruct (perform_run answer ev st) as (Hr & _ & _ & _ & _ & Htr).
  exists evs. split; [exact Ht|]. split; [exact Hf|].
  set (o := answer (length (trace st))) in *.
  assert (Hevs : evs = [MarkConnectionLost; ev o] \/ evs = [ev o]).
  { destruct Htr as [(_ & _ & Ht' & _)|(_ & Ht' & _)]; rewrite Ht' in Ht;
      apply app_inv_head in Ht; auto. }
  rewrite Hr. specialize (Hev o). unfold rejection in Hev.
  destruct (settled o) as [v|e]; simpl.
  - destruct Hevs as [-> | ->]; simpl; unfold noFailure; now rewrite Hev.
  - right. destruct Hevs as [-> | ->].
    + exists [MarkConnectionLost], (ev o). auto.
    + exists [], (ev o). auto.
Qed.

Lemma stops_forEach {A} (l : list A) (f : A -> M unit) :
  (forall x, stopsAtFailure (f x)) -> stopsAtFailure (forEach l f).
Proof.
  intros Hf. induction l as [|x l IH]; simpl.
  - intros st. exists []. rewrite app_nil_r. repeat split. apply flagKept_refl.
  - apply stops_bind; auto.
Qed.

Definition captureEvent (e : Event) : bool :=
  match e with
  | CaptureAssistantMarkdown _ _ | Delay _ _ | Logged _ | MarkConnectionLost
  | StartThinkingStatusMonitor | StopThinkingStatusMonitor => true
  | _ => false
  end.

Lemma captureEvent_noFailure e : captureEvent e = true -> noFailure e = true.
Proof. destruct e; simpl; auto; discriminate. Qed.

Lemma syncEvent_noFailure e : CookieSyncSpec.syncEvent e = true -> noFailure e = true.
Proof. destruct e; simpl; auto; discriminate. Qed.

(** A block that calls nothing but the capture, delays and the logger. *)
Ltac quiet_block :=
  apply (stops_quiet captureEvent);
  [ unfold withRetries, stopMonitor, startThinkingStatusMonitor;
    repeat first
      [ apply emits_withRetriesFrom; [| intros ? ? | reflexivity | intros ?; reflexivity]
      | emits_step ]
  | unfold withRetries, stopMonitor, startThinkingStatusMonitor;
    repeat first [apply total_withRetriesFrom; [|intros ? ?] | total_step]
  | exact captureEvent_noFailure ].

Lemma tryBlock_stops w options config promptText attachments chrome dir startedAt :
  stopsAtFailure (tryBlock w options config promptText attachments chrome dir startedAt).
Proof.
  unfold tryBlock.
  repeat first
    [ apply stops_perform; [intros ?; reflexivity|intros ?; reflexivity]
    | apply stops_forEach; intros ?
    | match goal with
      | |- stopsAtFailure (bind (CookieSync.syncCookies _ _ _ _) _) =>
          apply stops_bind;
          [ apply (stops_quiet CookieSyncSpec.syncEvent);
            [ apply CookieSyncSpec.syncCookies_emits
            | apply CookieSyncSpec.syncCookies_total
            | exact syncEvent_noFailure ]
          | intros ? ]
      | |- stopsAtFailure (bind (tryCatch _ _) _) => apply stops_bind; [quiet_block|intros ?]
      | |- stopsAtFailure (bind _ _) => apply stops_bind; [|intros ?]
      | |- stopsAtFailure (if ?b then _ else _) => destruct b
      | |- stopsAtFailure (match ?x with _ => _ end) => destruct x
      | |- stopsAtFailure (when ?b _) => destruct b; cbn [when]
      end
    | quiet_block ].
Qed.

(** Where the one event of its kind sits in a list. *)
Lemma split_unique (f : Event -> bool) l1 x l2 : forall pre ev post,
  forallb (fun e => negb (f e)) l1 = true ->
  forallb (fun e => negb (f e)) l2 = true ->
  f ev = true ->
  l1 ++ x :: l2 = pre ++ ev :: post ->
  pre = l1 /\ ev = x /\ post = l2.
Proof.
  induction l1 as [|y l1 IH]; intros pre ev post H1 H2 Hev Heq.
  - destruct pre as [|p pre]; simpl in Heq.
    + injection Heq as -> ->. auto.
    + injection Heq as -> ->. rewrite forallb_app in H2. simpl in H2.
      rewrite Hev in H2. simpl in H2. rewrite andb_false_r in H2. discriminate.
  - simpl in H1. apply andb_true_iff in H1 as [Hy H1].
    destruct pre as [|p pre]; simpl in Heq.
    + injection Heq as -> _. rewrite Hev in Hy. discriminate.
    + injection Heq as -> Heq. destruct (IH pre ev post H1 H2 Hev Heq) as (-> & -> & ->).
      auto.
Qed.

Lemma absent_unique (f : Event -> bool) l : forall pre ev post,
  forallb (fun e => negb (f e)) l = true -> f ev = true -> l <> pre ++ ev :: post.
Proof.
  intros pre ev post Hl Hev ->. rewrite forallb_app in Hl. simpl in Hl.
  rewrite Hev in Hl. simpl in Hl. rewrite andb_false_r in Hl. discriminate.
Qed.

Definition failed (e : Event) : bool := negb (noFailure e).

Lemma noFailure_failed l :
  forallb noFailure l = true -> forallb (fun e => negb (failed e)) l = true.
Proof.
  intros H. rewrite forallb_forall in *. intros e He. unfold failed.
  now rewrite (H e He).
Qed.

Lemma weaken_forallb (P Q : Event -> bool) l :
  (forall e, P e = true -> Q e = true) -> forallb P l = true -> forallb Q l = true.
Proof. intros HPQ H. rewrite forallb_forall in *. auto. Qed.

Definition undisturbed (e : Event) : bool := negb (closesOrKills e).



Lemma teardownEvent_noFailure e : teardownEvent e = true -> noFailure e = true.
Proof. destruct e; simpl; auto; discriminate. Qed.



(** *** The run, part by part *)

(** A run with a prompt is its prologue followed by the statement. *)
Lemma run_prologue w options promptText st :
  option_map Js.trim (prompt options) = Some promptText ->
  promptText <> EmptyString ->
  runBrowserMode w options st
  = bind (prologue w options promptText) (statement w options promptText) st.
Proof.
  intros Hp Hne. unfold runBrowserMode. rewrite Hp.
  destruct promptText as [|c text]; [congruence|].
  unfold prologue, statement, tryBody. cbv zeta. unfold bind, tryCatch, ret.
  repeat match goal with
         | |- context [match ?x with _ => _ end] => destruct x as [[?|?|] ?]
         end; reflexivity.
Qed.

(** The state in which the statement is entered. *)
Lemma prologue_run w options promptText st bound st1 :
  prologue w options promptText st = (Ok bound, st1) ->
  exists evs0, entered st st1 evs0.
Proof.
  unfold prologue. cbv zeta.
  unfold bind, modify, when, log, emit, tryCatch, perform, now, ret, entered.
  destruct (tracing w (resolveBrowserConfig w (config options))); cbn -[app length];
    repeat (match goal with
            | |- context [settled ?o] => destruct (settled o) eqn:?
            end; cbn -[app length]);
    intros [= <- <-] || discriminate; cbn -[app length];
    eexists; (split; [rewrite <- ?app_assoc; try reflexivity; now rewrite app_nil_r|]);
    repeat split.
Qed.

(** The outcome and the trace of a run whose [try] block threw. *)
Lemma thrown_run w options promptText st bound st1 error :
  option_map Js.trim (prompt options) = Some promptText ->
  promptText <> EmptyString ->
  prologue w options promptText st = (Ok bound, st1) ->
  fst (tryBody w options promptText bound st1) = Throw error ->
  let config := resolveBrowserConfig w (config options) in
  let st2 := snd (tryBody w options promptText bound st1) in
  let st3 := snd (onFailure w config error st2) in
  exists evs0 evsB evsH evsT,
    entered st st1 evs0 /\
    trace st2 = trace st1 ++ evsB /\ forallb bodyEvent evsB = true /\
    flagKept st1 st2 evsB /\
    trace st3 = trace st2 ++ evsH /\ forallb quietEvent evsH = true /\
    trace (snd (teardown w config (boundChrome bound) (boundDir bound) (boundHooks bound)
                  (boundStart bound) st3)) = trace st3 ++ evsT /\
    forallb teardownEvent evsT = true /\
    fst (runBrowserMode w options st) = fst (onFailure w config error st2) /\
    trace (snd (runBrowserMode w options st)) = trace st ++ evs0 ++ evsB ++ evsH ++ evsT.
Proof.
  intros Hp Hne Hpro Hbody. cbv zeta.
  destruct (prologue_run w options promptText st bound st1 Hpro) as (evs0 & Hent).
  rewrite (run_prologue w options promptText st Hp Hne).
  unfold bind. rewrite Hpro. unfold statement, tryBody in *.
  set (config := resolveBrowserConfig w (Engine.config options)) in *.
  set (files := default [] (attachments options)) in *.
  destruct (tryBlock_emits w options config promptText files (boundChrome bound)
              (boundDir bound) (boundStart bound) st1) as (evsB & HtB & HpB & HfB).
  destruct (statement_cases w options config promptText files (boundChrome bound)
              (boundDir bound) (boundHooks bound) (boundStart bound) st1)
    as [(result & Hok & _)|(error' & Hthrow & Hwhole)]; [congruence|].
  cbv zeta in Hwhole. assert (error' = error) as -> by congruence.
  set (st2 := snd (tryBlock w options config promptText files (boundChrome bound)
                     (boundDir bound) (boundStart bound) st1)) in *.
  destruct (onFailure_run w config error st2) as (evsH & HtH & HpH & _).
  set (st3 := snd (onFailure w config error st2)) in *.
  destruct (teardown_emits w config (boundChrome bound) (boundDir bound) (boundHooks bound)
              (boundStart bound) st3) as (evsT & HtT & HpT & _).
  exists evs0, evsB, evsH, evsT. rewrite Hwhole. cbn [fst snd].
  repeat (split; [assumption||reflexivity|]).
  destruct Hent as (Ht1 & _). rewrite HtT, HtH, HtB, Ht1. now rewrite <- !app_assoc.
Qed.



(** The scenario of the specification: the window is closed while the answer
    is awaited. The response wait rejects with "WebSocket is closed", which
    becomes the cause of the error thrown. *)
Lemma loss_during_response_wait :
  let run := runBrowserMode Samples.closedWhileWaiting Samples.helloOptions processStart in
  fst run = Throw (ErrCaused windowClosed (Err "WebSocket is closed")) /\
  forallb undisturbed (trace (snd run)) = true.
Proof. cbv zeta. split; vm_compute; reflexivity. Qed.


Lemma bind_ok {A B} (m : M A) (k : A -> M B) st a st' :
  m st = (Ok a, st') -> bind m k st = k a st'.
Proof. intros H. unfold bind. now rewrite H. Qed.

Lemma bind_throw {A B} (m : M A) (k : A -> M B) st e st' :
  m st = (Throw e, st') -> bind m k st = (Throw e, st').
Proof. intros H. unfold bind. now rewrite H. Qed.

(** *** Transcript capture *)

(** The capture call gave a non-empty markdown. *)
Definition yields (o : Outcome (option string)) : bool :=
  match settled o with
  | Resolved (Some (String _ _)) => true
  | _ => false
  end.

(** Not a capture call that gave markdown: the capture yielded nothing or
    threw, or the event is no capture at all. *)
Definition captureFailed (e : Event) : bool :=
  match e with
  | CaptureAssistantMarkdown _ o => negb (yields o)
  | _ => true
  end.

Definition isCapture (e : Event) : bool :=
  match e with CaptureAssistantMarkdown _ _ => true | _ => false end.

Definition isResponseWait (e : Event) : bool :=
  match e with WaitForAssistantResponse _ _ => true | _ => false end.

(** Events of the capture retries: capture calls, delays of 350 ms, log
    lines, and the disconnect handler. *)
Definition retryEvent (e : Event) : bool :=
  match e with
  | CaptureAssistantMarkdown _ _ | Logged _ | MarkConnectionLost => true
  | Delay ms _ => (ms =? 350)%Z
  | _ => false
  end.

(** Events that are neither a response wait, a capture nor a delay. *)
Definition beforeWait (e : Event) : bool :=
  match e with
  | WaitForAssistantResponse _ _ | CaptureAssistantMarkdown _ _ | Delay _ _ => false
  | _ => true
  end.

(** Every delay in the list is one of 350 ms. *)
Definition paced (e : Event) : bool :=
  match e with Delay ms _ => (ms =? 350)%Z | _ => true end.

Definition captureTask (w : World) (meta : Meta) : M string :=
  bind (perform (captureAssistantMarkdown w meta) (CaptureAssistantMarkdown meta))
    (fun attempt =>
       match attempt with
       | None | Some EmptyString => throw (Err "copy-missing")
       | Some markdown => ret markdown
       end).

Definition retryLog (options : BrowserRunOptions) (attempt : nat) (error : Thrown) : M unit :=
  when (default false (verbose options)) (log (LogRetry (attempt + 1) (messageOf error))).

Record Retried (r : Res string) (evs : list Event) (budget : nat) : Prop := {
  retried_events : forallb retryEvent evs = true;
  retried_some : 1 <= CookieSyncSpec.countIf isCapture evs;
  retried_bound : CookieSyncSpec.countIf isCapture evs <= budget;
  retried_total : r <> OutOfFuel;
  retried_failed : forallb captureFailed evs = true -> exists e, r = Throw e;
}.

Lemma captureTask_run w meta st :
  exists evs,
    trace (snd (captureTask w meta st)) = trace st ++ evs /\
    Retried (fst (captureTask w meta st)) evs 1.
Proof.
  unfold captureTask, bind.
  destruct (perform_run (captureAssistantMarkdown w meta) (CaptureAssistantMarkdown meta) st)
    as (Hr & _ & _ & _ & _ & Htr).
  destruct (perform (captureAssistantMarkdown w meta) (CaptureAssistantMarkdown meta) st)
    as [r st1]. cbn [fst snd] in *.
  set (o := captureAssistantMarkdown w meta (length (trace st))) in *.
  assert (Hev : exists pre, trace st1 = trace st ++ pre ++ [CaptureAssistantMarkdown meta o] /\
                            (pre = [] \/ pre = [MarkConnectionLost])).
  { destruct Htr as [(_ & _ & Ht & _)|(_ & Ht & _)].
    - exists [MarkConnectionLost]. auto.
    - exists []. auto. }
  destruct Hev as (pre & Ht1 & Hpre).
  exists (pre ++ [CaptureAssistantMarkdown meta o]).
  assert (Hcount : CookieSyncSpec.countIf isCapture (pre ++ [CaptureAssistantMarkdown meta o]) = 1)
    by (destruct Hpre as [-> | ->]; reflexivity).
  assert (Hretry : forallb retryEvent (pre ++ [CaptureAssistantMarkdown meta o]) = true)
    by (destruct Hpre as [-> | ->]; reflexivity).
  assert (Hfail : forallb captureFailed (pre ++ [CaptureAssistantMarkdown meta o])
                  = negb (yields o))
    by (destruct Hpre as [-> | ->]; simpl; now rewrite andb_true_r).
  unfold yields in Hfail.
  destruct (settled o) as [[[|c text]|]|e] eqn:Es; simpl in Hr; subst r; simpl;
    (split; [exact Ht1|]); constructor; rewrite ?Hcount; auto; try discriminate;
    try (intros _; eexists; reflexivity).
  rewrite Hfail. discriminate.
Qed.

Lemma retryLog_run options attempt error st :
  exists evs,
    retryLog options attempt error st = (Ok tt, snd (retryLog options attempt error st)) /\
    trace (snd (retryLog options attempt error st)) = trace st ++ evs /\
    forallb retryEvent evs = true /\ forallb captureFailed evs = true /\
    CookieSyncSpec.countIf isCapture evs = 0.
Proof.
  unfold retryLog. destruct (default false (verbose options)); simpl.
  - eexists. repeat split.
  - exists []. rewrite app_nil_r. repeat split.
Qed.

Lemma withRetries_run w options meta retries : forall attempt st,
  let m := withRetriesFrom w (captureTask w meta) retries 350 (retryLog options) attempt in
  exists evs,
    trace (snd (m st)) = trace st ++ evs /\
    Retried (fst (m st)) evs (S retries).
Proof.
  induction retries as [|retries IH]; intros attempt st; cbv zeta; cbn [withRetriesFrom];
    unfold tryCatch;
    destruct (captureTask_run w meta st) as (evs1 & Ht1 & [He1 Hs1 Hb1 Hn1 Hf1]);
    destruct (captureTask w meta st) as [[md|e|] st1]; cbn [fst snd] in *;
    try congruence.
  - exists evs1. split; [exact Ht1|]. constructor; auto.
  - exists evs1. split; [exact Ht1|]. constructor; auto.
  - exists evs1. split; [exact Ht1|]. constructor; auto; lia.
  - destruct (retryLog_run options attempt e st1) as (evsL & HrL & HtL & HeL & HfL & HcL).
    set (st2 := snd (retryLog options attempt e st1)) in *.
    rewrite (bind_ok _ _ _ _ _ HrL).
    destruct (perform_run (delay w 350) (Delay 350) st2) as (HrD & _ & _ & _ & _ & HtrD).
    destruct (perform (delay w 350) (Delay 350) st2) as [rD st3] eqn:ED. cbn [fst snd] in *.
    assert (HevD : exists evsD, trace st3 = trace st2 ++ evsD /\
                     forallb retryEvent evsD = true /\ forallb captureFailed evsD = true /\
                     CookieSyncSpec.countIf isCapture evsD = 0).
    { destruct HtrD as [(_ & _ & Ht & _)|(_ & Ht & _)]; eexists; (split; [exact Ht|]);
        repeat split. }
    destruct HevD as (evsD & HtD & HeD & HfD & HcD).
    destruct rD as [u|eD|].
    + rewrite (bind_ok _ _ _ _ _ ED).
      destruct (IH (S attempt) st3) as (evs2 & Ht2 & [He2 Hs2 Hb2 Hn2 Hf2]).
      exists (evs1 ++ evsL ++ evsD ++ evs2).
      split; [rewrite Ht2, HtD, HtL, Ht1; now rewrite <- !app_assoc|].
      constructor.
      * now rewrite !forallb_app, He1, HeL, HeD, He2.
      * rewrite !CookieSyncSpec.countIf_app. lia.
      * rewrite !CookieSyncSpec.countIf_app. lia.
      * exact Hn2.
      * rewrite !forallb_app, !andb_true_iff. intros (_ & _ & _ & H). auto.
    + rewrite (bind_throw _ _ _ _ _ ED). cbn [fst snd].
      exists (evs1 ++ evsL ++ evsD).
      split; [rewrite HtD, HtL, Ht1; now rewrite <- !app_assoc|].
      constructor.
      * now rewrite !forallb_app, He1, HeL, HeD.
      * rewrite !CookieSyncSpec.countIf_app. lia.
      * rewrite !CookieSyncSpec.countIf_app. lia.
      * discriminate.
      * eauto.
    + destruct (settled (delay w 350 (length (trace st2)))); discriminate.
Qed.

(** The statements of the try block after the response wait. *)
Definition finish (w : World) (options : BrowserRunOptions) (chrome : Chrome) (dir : string)
    (startedAt : Z) (answer : Answer) : M BrowserRunResult :=
  bind
    (tryCatch
       (bind (withRetries w (captureTask w (answerMeta answer)) 2 350 (retryLog options))
          (fun copied => ret (Some copied)))
       (fun _ => ret None))
    (fun copiedMarkdown =>
       bind stopMonitor (fun _ =>
       bind (modify (setRunStatus complete)) (fun _ =>
       bind (now w) (fun finishedAt =>
       ret {| answerText := answerText_ answer;
              answerMarkdown := default (answerText_ answer) copiedMarkdown;
              answerHtml := if Js.truthy (default EmptyString (answerHtml_ answer))
                            then Some (default EmptyString (answerHtml_ answer)) else None;
              tookMs := (finishedAt - startedAt)%Z;
              answerTokens :=
                estimateTokenCount w (default (answerText_ answer) copiedMarkdown);
              answerChars := String.length (answerText_ answer);
              chromePid := pid chrome;
              chromePort := port chrome;
              userDataDir := dir |})))).

Definition afterWait (e : Event) : bool := retryEvent e || quietEvent e.

Lemma finish_run w options chrome dir startedAt answer st :
  exists evs result,
    fst (finish w options chrome dir startedAt answer st) = Ok result /\
    trace (snd (finish w options chrome dir startedAt answer st)) = trace st ++ evs /\
    forallb afterWait evs = true /\
    answerText result = answerText_ answer /\
    (forallb captureFailed evs = true -> answerMarkdown result = answerText result) /\
    1 <= CookieSyncSpec.countIf isCapture evs <= 3.
Proof.
  unfold finish, withRetries.
  destruct (withRetries_run w options (answerMeta answer) 2 0 st)
    as (evs1 & Ht1 & [He1 Hs1 Hb1 Hn1 Hf1]). cbv zeta in *.
  set (retries := withRetriesFrom w (captureTask w (answerMeta answer)) 2 350
                    (retryLog options) 0) in *.
  assert (Hcopy : exists copied,
             tryCatch (bind retries (fun copied => ret (Some copied))) (fun _ => ret None) st
             = (Ok copied, snd (retries st)) /\
             (forallb captureFailed evs1 = true -> copied = None)).
  { unfold tryCatch, bind. destruct (retries st) as [[md|e|] st1]; cbn [fst snd] in *.
    - exists (Some md). split; [reflexivity|]. intros H. destruct (Hf1 H). discriminate.
    - exists None. auto.
    - congruence. }
  destruct Hcopy as (copied & Hcopy & Hnone).
  rewrite (bind_ok _ _ _ _ _ Hcopy).
  set (st1 := snd (retries st)) in *.
  assert (Hstop : exists evs2, stopMonitor st1 = (Ok tt, snd (stopMonitor st1)) /\
                    trace (snd (stopMonitor st1)) = trace st1 ++ evs2 /\
                    forallb quietEvent evs2 = true).
  { unfold stopMonitor, bind, get, modify, emit, modify, ret.
    destruct (stopThinkingMonitor st1) as [[|]|]; simpl.
    - exists []. rewrite app_nil_r. auto.
    - eexists. repeat split.
    - exists []. rewrite app_nil_r. auto. }
  destruct Hstop as (evs2 & Hstop & Ht2 & He2).
  rewrite (bind_ok _ _ _ _ _ Hstop).
  unfold bind, modify, now, ret. cbn [fst snd trace setRunStatus].
  exists (evs1 ++ evs2). eexists. split; [reflexivity|].
  split; [rewrite Ht2, Ht1; now rewrite app_assoc|].
  assert (Hquiet : forallb captureFailed evs2 = true /\
                   CookieSyncSpec.countIf isCapture evs2 = 0 /\
                   forallb afterWait evs2 = true).
  { clear - He2. induction evs2 as [|e evs2 IH]; [auto|]. simpl in He2.
    apply andb_true_iff in He2 as [He Hrest]. destruct (IH Hrest) as (H1 & H2 & H3).
    unfold afterWait. destruct e; simpl in *; try discriminate; rewrite ?H1, ?H2; auto. }
  destruct Hquiet as (Hq1 & Hq2 & Hq3).
  split.
  { rewrite forallb_app, Hq3, andb_true_r.
    eapply weaken_forallb; [|exact He1]. intros e He. unfold afterWait. now rewrite He. }
  simpl. split; [reflexivity|]. split.
  - rewrite forallb_app, andb_true_iff. intros [H _]. now rewrite (Hnone H).
  - rewrite CookieSyncSpec.countIf_app. lia.
Qed.

(** If the response wait resolved, the run returns the answer. *)
Definition holdsAnswer (r : Res BrowserRunResult) (evs : list Event) : Prop :=
  forall t o answer,
    In (WaitForAssistantResponse t o) evs -> settled o = Resolved answer ->
    exists result,
      r = Ok result /\
      answerText result = answerText_ answer /\
      (forallb captureFailed evs = true -> answerMarkdown result = answerText result) /\
      1 <= CookieSyncSpec.countIf isCapture evs <= 3 /\
      forallb paced evs = true.

Definition answers {A} (m : M A) (holds : Res A -> list Event -> Prop) : Prop :=
  forall st, exists evs, trace (snd (m st)) = trace st ++ evs /\ holds (fst (m st)) evs.

Lemma beforeWait_facts evs :
  forallb beforeWait evs = true ->
  (forall t o, ~ In (WaitForAssistantResponse t o) evs) /\
  forallb captureFailed evs = true /\
  CookieSyncSpec.countIf isCapture evs = 0 /\
  forallb paced evs = true.
Proof.
  induction evs as [|e evs IH]; simpl; [auto|].
  intros H. apply andb_true_iff in H as [He Hrest].
  destruct (IH Hrest) as (H1 & H2 & H3 & H4).
  repeat split.
  - intros t o [Heq|Hin]; [subst e; discriminate|eapply H1; eauto].
  - destruct e; simpl in *; auto; discriminate.
  - destruct e; simpl in *; auto; discriminate.
  - destruct e; simpl in *; auto; discriminate.
Qed.

Lemma answers_skip {A} (m : M A) (k : A -> M BrowserRunResult) :
  emits beforeWait m -> (forall a, answers (k a) holdsAnswer) ->
  answers (bind m k) holdsAnswer.
Proof.
  intros Hm Hk st. destruct (Hm st) as (evs1 & Ht1 & Hp1 & _).
  destruct (beforeWait_facts evs1 Hp1) as (Hno & Hfail & Hcount & Hpaced).
  unfold bind. destruct (m st) as [[a|e|] st1]; cbn [fst snd] in *.
  - destruct (Hk a st1) as (evs2 & Ht2 & Hh2).
    exists (evs1 ++ evs2). split; [rewrite Ht2, Ht1; now rewrite app_assoc|].
    intros t o answer Hin Hs. apply in_app_or in Hin as [Hin|Hin]; [now apply Hno in Hin|].
    destruct (Hh2 t o answer Hin Hs) as (result & Hr & Htext & Hmd & Hc & Hp).
    exists result. repeat split; auto; try (rewrite CookieSyncSpec.countIf_app; lia).
    + rewrite forallb_app, andb_true_iff. intros [_ H]. auto.
    + now rewrite forallb_app, Hpaced, Hp.
  - exists evs1. split; [exact Ht1|]. intros t o answer Hin. now apply Hno in Hin.
  - exists evs1. split; [exact Ht1|]. intros t o answer Hin. now apply Hno in Hin.
Qed.

Lemma afterWait_facts evs :
  forallb afterWait evs = true ->
  (forall t o, ~ In (WaitForAssistantResponse t o) evs) /\ forallb paced evs = true.
Proof.
  induction evs as [|e evs IH]; simpl; [auto|].
  intros H. apply andb_true_iff in H as [He Hrest]. destruct (IH Hrest) as (H1 & H2).
  split.
  - intros t o [Heq|Hin]; [subst e; discriminate|eapply H1; eauto].
  - rewrite H2, andb_true_r. unfold afterWait in He.
    destruct e; simpl in *; rewrite ?orb_false_r in He; auto.
Qed.

Lemma answers_wait w options chrome dir startedAt timeout :
  answers
    (bind (perform (waitForAssistantResponse w timeout) (WaitForAssistantResponse timeout))
       (finish w options chrome dir startedAt))
    holdsAnswer.
Proof.
  intros st.
  destruct (perform_run (waitForAssistantResponse w timeout) (WaitForAssistantResponse timeout) st)
    as (Hr & _ & _ & _ & _ & Htr).
  destruct (perform (waitForAssistantResponse w timeout) (WaitForAssistantResponse timeout) st)
    as [r st1] eqn:Ep. cbn [fst snd] in *.
  set (o := waitForAssistantResponse w timeout (length (trace st))) in *.
  assert (Hev : exists pre, trace st1 = trace st ++ pre ++ [WaitForAssistantResponse timeout o]
                            /\ forallb beforeWait pre = true).
  { destruct Htr as [(_ & _ & Ht & _)|(_ & Ht & _)].
    - exists [MarkConnectionLost]. auto.
    - exists []. auto. }
  destruct Hev as (pre & Ht1 & Hpre).
  destruct (beforeWait_facts pre Hpre) as (Hno & Hfail & Hcount & Hpaced).
  destruct (settled o) as [answer|e] eqn:Es; simpl in Hr; subst r.
  - rewrite (bind_ok _ _ _ _ _ Ep).
    destruct (finish_run w options chrome dir startedAt answer st1)
      as (evs2 & result & Hres & Ht2 & Ha2 & Htext & Hmd & Hc).
    destruct (afterWait_facts evs2 Ha2) as (Hno2 & Hpaced2).
    exists ((pre ++ [WaitForAssistantResponse timeout o]) ++ evs2).
    split; [rewrite Ht2, Ht1; now rewrite <- !app_assoc|].
    intros t o' answer' Hin Hs.
    assert (o' = o).
    { rewrite !in_app_iff in Hin. simpl in Hin.
      destruct Hin as [[Hin|[Heq|[]]]|Hin].
      - now apply Hno in Hin.
      - now injection Heq.
      - now apply Hno2 in Hin. }
    subst o'. assert (answer' = answer) as -> by congruence.
    exists result. rewrite Hres. repeat split; auto.
    + rewrite !forallb_app, !andb_true_iff. intros [_ H]. auto.
    + rewrite !CookieSyncSpec.countIf_app, Hcount. simpl. lia.
    + rewrite !CookieSyncSpec.countIf_app, Hcount. simpl. lia.
    + rewrite !forallb_app, Hpaced, Hpaced2. reflexivity.
  - rewrite (bind_throw _ _ _ _ _ Ep). cbn [fst snd].
    exists (pre ++ [WaitForAssistantResponse timeout o]). split; [exact Ht1|].
    intros t o' answer' Hin Hs. exfalso.
    rewrite in_app_iff in Hin. simpl in Hin. destruct Hin as [Hin|[Heq|[]]].
    + now apply Hno in Hin.
    + injection Heq as _ <-. congruence.
Qed.

Lemma syncEvent_beforeWait e : CookieSyncSpec.syncEvent e = true -> beforeWait e = true.
Proof. destruct e; simpl; auto. Qed.

Lemma tryBlock_answers w options config promptText attachments chrome dir startedAt :
  answers (tryBlock w options config promptText attachments chrome dir startedAt) holdsAnswer.
Proof.
  unfold tryBlock.
  repeat (apply answers_skip;
          [ solve [ unfold startThinkingStatusMonitor;
                    repeat first
                      [ eapply emits_weaken;
                        [apply syncEvent_beforeWait|apply CookieSyncSpec.syncCookies_emits]
                      | emits_step ] ]
          | intros ? ]).
  exact (answers_wait w options chrome dir startedAt (timeoutMs config)).
Qed.

Lemma setupEvent_beforeWait e : setupEvent e = true -> beforeWait e = true.
Proof. destruct e; simpl; auto; discriminate. Qed.

Lemma teardownEvent_beforeWait e : teardownEvent e = true -> beforeWait e = true.
Proof. destruct e; simpl; auto; discriminate. Qed.

(** C6: in a run whose response wait resolved with an answer, the run returns
    a result carrying that answer's text, whatever the markdown capture did.
    The capture is called at least once and at most three times (two
    retries), every delay of the run is one of 350 ms, and when no capture
    call yielded markdown the result's answerMarkdown is its answerText. *)
Theorem capture_failure_is_not_fatal (w : World) (options : BrowserRunOptions) (st : St)
    (timeout : Z) (o : Outcome Answer) (answer : Answer) :
  let run := runBrowserMode w options st in
  trace st = [] ->
  In (WaitForAssistantResponse timeout o) (trace (snd run)) ->
  settled o = Resolved answer ->
  exists result,
    fst run = Ok result /\
    answerText result = answerText_ answer /\
    (forallb captureFailed (trace (snd run)) = true ->
     answerMarkdown result = answerText result) /\
    1 <= CookieSyncSpec.countIf isCapture (trace (snd run)) <= 3 /\
    forallb paced (trace (snd run)) = true.
Proof.
  intros run Hst Hin Hs. subst run.
  destruct (option_map Js.trim (prompt options)) as [promptText|] eqn:Hp.
  2:{ exfalso. unfold runBrowserMode in Hin. rewrite Hp in Hin.
      simpl in Hin. rewrite Hst in Hin. exact Hin. }
  destruct (string_dec promptText EmptyString) as [->|Hne].
  { exfalso. unfold runBrowserMode in Hin. rewrite Hp in Hin.
    simpl in Hin. rewrite Hst in Hin. exact Hin. }
  destruct (run_cases w options promptText st Hp Hne)
    as [(e & evs0 & _ & Ht & Hs0)|(dir & chrome & hooks & startedAt & st1 & evs0 & Hent & Hrun)].
  { exfalso. rewrite Ht, Hst in Hin. simpl in Hin.
    pose proof (weaken_forallb _ _ _ setupEvent_beforeWait Hs0) as Hb.
    now apply (beforeWait_facts evs0 Hb) in Hin. }
  destruct Hent as (Ht1 & Hs0 & _).
  pose proof (weaken_forallb _ _ _ setupEvent_beforeWait Hs0) as Hb0.
  destruct (beforeWait_facts evs0 Hb0) as (Hno0 & Hf0 & Hc0 & Hp0).
  set (config := resolveBrowserConfig w (config options)) in *.
  set (atts := default [] (attachments options)) in *.
  destruct (tryBlock_answers w options config promptText atts chrome dir startedAt st1)
    as (evsB & HtB & Hholds).
  destruct (statement_cases w options config promptText atts chrome dir hooks startedAt st1)
    as [(result & Hbody & Hwhole)|(error & Hbody & Hwhole)]; cbv zeta in Hwhole.
  - set (st2 := snd (tryBlock w options config promptText atts chrome dir startedAt st1)) in *.
    destruct (teardown_emits w config chrome dir hooks startedAt st2) as (evsT & HtT & HpT & _).
    pose proof (weaken_forallb _ _ _ teardownEvent_beforeWait HpT) as HbT.
    destruct (beforeWait_facts evsT HbT) as (HnoT & HfT & HcT & HppT).
    rewrite Hrun, Hwhole in *. cbn [fst snd] in *.
    rewrite HtT, HtB, Ht1, Hst in *. simpl in Hin |- *.
    rewrite !in_app_iff in Hin. destruct Hin as [[Hin|Hin]|Hin];
      [now apply Hno0 in Hin| |now apply HnoT in Hin].
    destruct (Hholds timeout o answer Hin Hs) as (result' & Hr & Htext & Hmd & Hc & Hpaced).
    assert (result' = result) as -> by congruence.
    exists result. split; [reflexivity|]. split; [exact Htext|].
    rewrite !forallb_app, !CookieSyncSpec.countIf_app, Hc0, HcT, Hp0, HppT, Hpaced.
    repeat split; try lia.
    rewrite !andb_true_iff. intros [[_ H] _]. auto.
  - exfalso.
    set (st2 := snd (tryBlock w options config promptText atts chrome dir startedAt st1)) in *.
    destruct (onFailure_run w config error st2) as (evsH & HtH & HpH & _).
    set (st3 := snd (onFailure w config error st2)) in *.
    destruct (teardown_emits w config chrome dir hooks startedAt st3) as (evsT & HtT & HpT & _).
    pose proof (weaken_forallb _ _ _ teardownEvent_beforeWait HpT) as HbT.
    destruct (beforeWait_facts evsT HbT) as (HnoT & _).
    rewrite Hrun, Hwhole in Hin. cbn [fst snd] in Hin.
    rewrite HtT, HtH, HtB, Ht1, Hst in Hin. simpl in Hin.
    rewrite !in_app_iff in Hin. destruct Hin as [[[Hin|Hin]|Hin]|Hin].
    + now apply Hno0 in Hin.
    + destruct (Hholds timeout o answer Hin Hs) as (result' & Hr & _). congruence.
    + apply (proj1 (forallb_forall _ _) HpH) in Hin. discriminate.
    + now apply HnoT in Hin.
Qed.

(** The copy button never yields markdown: three attempts, two delays of
    350 ms, and the run returns the plain text in both fields. *)
Lemma capture_failure_is_not_fatal_witness :
  let run := runBrowserMode Samples.noCopyButton Samples.helloOptions processStart in
  (trace processStart = [] /\
   In (WaitForAssistantResponse 900000 (Samples.quiet Samples.hiAnswer)) (trace (snd run)) /\
   settled (Samples.quiet Samples.hiAnswer) = Resolved Samples.hiAnswer /\
   forallb captureFailed (trace (snd run)) = true /\
   CookieSyncSpec.countIf isCapture (trace (snd run)) = 3) /\
  exists result,
    fst run = Ok result /\
    answerText result = answerText_ Samples.hiAnswer /\
    (forallb captureFailed (trace (snd run)) = true ->
     answerMarkdown result = answerText result) /\
    1 <= CookieSyncSpec.countIf isCapture (trace (snd run)) <= 3 /\
    forallb paced (trace (snd run)) = true.
Proof.
  assert (Hin : In (WaitForAssistantResponse 900000 (Samples.quiet Samples.hiAnswer))
                  (trace (snd (runBrowserMode Samples.noCopyButton Samples.helloOptions
                                 processStart)))).
  { vm_compute. repeat (first [left; reflexivity | right]). }
  split.
  - split; [reflexivity|]. split; [exact Hin|]. split; [reflexivity|].
    split; vm_compute; reflexivity.
  - exact (capture_failure_is_not_fatal Samples.noCopyButton Samples.helloOptions
             processStart 900000 (Samples.quiet Samples.hiAnswer) Samples.hiAnswer
             eq_refl Hin eq_refl).
Defined.

(** *** The order of the page steps *)

(** The page steps of the ordering guarantee. An upload carries the
    attachment it sends, and waiting for the uploads to complete is a step of
    its own. *)
Inductive Step : Type :=
  | Navigate | BlockCheck | ComposerReady | ModelSelect
  | Upload (attachment : BrowserAttachment) | UploadWait
  | Submit | ResponseWait | Capture.

Definition stepOf (e : Event) : option Step :=
  match e with
  | NavigateToChatGPT _ _ => Some Navigate
  | EnsureNotBlocked _ _ => Some BlockCheck
  | EnsurePromptReady _ _ => Some ComposerReady
  | EvaluateModelSelection _ _ => Some ModelSelect
  | UploadAttachmentFile attachment _ => Some (Upload attachment)
  | WaitForAttachmentCompletion _ _ => Some UploadWait
  | SubmitPrompt _ _ => Some Submit
  | WaitForAssistantResponse _ _ => Some ResponseWait
  | CaptureAssistantMarkdown _ _ => Some Capture
  | _ => None
  end.

Fixpoint steps (evs : list Event) : list Step :=
  match evs with
  | [] => []
  | e :: rest =>
      match stepOf e with
      | Some s => s :: steps rest
      | None => steps rest
      end
  end.

Definition offstage (e : Event) : bool :=
  match stepOf e with None => true | Some _ => false end.

Definition uploadSteps (attachments : list BrowserAttachment) : list Step :=
  match attachments with
  | [] => []
  | _ => map Upload attachments ++ [UploadWait]
  end.

(** The steps of a run that uploads [attachments] and calls the capture
    [captures] times. *)
Definition pageSteps (attachments : list BrowserAttachment) (captures : nat) : list Step :=
  [Navigate; BlockCheck; ComposerReady] ++ uploadSteps attachments
    ++ [Submit; ResponseWait] ++ repeat Capture captures.

Lemma steps_app evs1 evs2 : steps (evs1 ++ evs2) = steps evs1 ++ steps evs2.
Proof.
  induction evs1 as [|e evs1 IH]; simpl; [reflexivity|].
  destruct (stepOf e); simpl; now rewrite IH.
Qed.

Lemma steps_offstage evs : forallb offstage evs = true -> steps evs = [].
Proof.
  induction evs as [|e evs IH]; simpl; [reflexivity|].
  unfold offstage at 1. destruct (stepOf e); simpl; [discriminate|exact IH].
Qed.

Lemma steps_afterWait evs :
  forallb afterWait evs = true ->
  steps evs = repeat Capture (CookieSyncSpec.countIf isCapture evs).
Proof.
  induction evs as [|e evs IH]; simpl; [reflexivity|].
  intros H. apply andb_true_iff in H as [He Hrest]. rewrite (IH Hrest).
  destruct e; simpl in *; try reflexivity; discriminate.
Qed.

(** [m] goes through the steps [L], all of them when it returns and an
    initial part of them when it fails. *)
Definition plays {A} (m : M A) (L : list Step) : Prop :=
  forall st, exists evs,
    trace (snd (m st)) = trace st ++ evs /\
    match fst (m st) with
    | Ok _ => steps evs = L
    | _ => prefix (steps evs) L
    end.

(** The same for code that ends with the capture calls of [withRetries]. *)
Definition ends {A} (m : M A) (L : list Step) : Prop :=
  forall st, exists evs captures,
    trace (snd (m st)) = trace st ++ evs /\
    1 <= captures <= 3 /\
    match fst (m st) with
    | Ok _ => steps evs = L ++ repeat Capture captures
    | _ => prefix (steps evs) (L ++ repeat Capture captures)
    end.

Lemma plays_eq {A} (m : M A) L L' : plays m L -> L = L' -> plays m L'.
Proof. now intros H <-. Qed.

Lemma ends_eq {A} (m : M A) L L' : ends m L -> L = L' -> ends m L'.
Proof. now intros H <-. Qed.

Lemma plays_quiet {A} (m : M A) : emits offstage m -> plays m [].
Proof.
  intros H st. destruct (H st) as (evs & Ht & Hp & _). exists evs. split; [exact Ht|].
  rewrite (steps_offstage evs Hp). destruct (fst (m st)); [reflexivity| |]; now exists [].
Qed.

Lemma plays_throw {A} (e : Thrown) L : plays (throw e : M A) L.
Proof. intros st. exists []. simpl. rewrite app_nil_r. split; [reflexivity|]. now exists L. Qed.

Lemma plays_perform {T} (answer : nat -> Outcome T) (ev : Outcome T -> Event) s :
  (forall o, stepOf (ev o) = Some s) -> plays (perform answer ev) [s].
Proof.
  intros Hs st.
  destruct (perform_run answer ev st) as (_ & _ & _ & _ & _ & Htr).
  set (o := answer (length (trace st))) in *.
  assert (Hev : exists pre, trace (snd (perform answer ev st)) = trace st ++ pre ++ [ev o]
                            /\ steps pre = []).
  { destruct Htr as [(_ & _ & Ht & _)|(_ & Ht & _)].
    - exists [MarkConnectionLost]. auto.
    - exists []. auto. }
  destruct Hev as (pre & Ht & Hpre). exists (pre ++ [ev o]). split; [exact Ht|].
  rewrite steps_app, Hpre. cbn [steps app]. rewrite Hs.
  destruct (fst (perform answer ev st)); [reflexivity| |]; now exists [].
Qed.

Lemma plays_bind {A B} (m : M A) (k : A -> M B) L1 L2 :
  plays m L1 -> (forall a, plays (k a) L2) -> plays (bind m k) (L1 ++ L2).
Proof.
  intros Hm Hk st. destruct (Hm st) as (evs1 & Ht1 & Hs1).
  unfold bind. destruct (m st) as [[a|e|] st1]; cbn [fst snd] in *.
  - destruct (Hk a st1) as (evs2 & Ht2 & Hs2). exists (evs1 ++ evs2).
    split; [rewrite Ht2, Ht1; now rewrite app_assoc|].
    rewrite steps_app, Hs1.
    destruct (fst (k a st1)); [now rewrite Hs2| |];
      destruct Hs2 as [rest ->]; exists rest; now rewrite app_assoc.
  - exists evs1. split; [exact Ht1|].
    destruct Hs1 as [rest ->]. exists (rest ++ L2). now rewrite app_assoc.
  - exists evs1. split; [exact Ht1|].
    destruct Hs1 as [rest ->]. exists (rest ++ L2). now rewrite app_assoc.
Qed.

Lemma ends_bind {A B} (m : M A) (k : A -> M B) L1 L2 :
  plays m L1 -> (forall a, ends (k a) L2) -> ends (bind m k) (L1 ++ L2).
Proof.
  intros Hm Hk st. destruct (Hm st) as (evs1 & Ht1 & Hs1).
  unfold bind. destruct (m st) as [[a|e|] st1]; cbn [fst snd] in *.
  - destruct (Hk a st1) as (evs2 & captures & Ht2 & Hc & Hs2). exists (evs1 ++ evs2), captures.
    split; [rewrite Ht2, Ht1; now rewrite app_assoc|]. split; [exact Hc|].
    rewrite steps_app, Hs1, <- app_assoc.
    destruct (fst (k a st1)); [now rewrite Hs2| |];
      destruct Hs2 as [rest ->]; exists rest; now rewrite app_assoc.
  - exists evs1, 1. split; [exact Ht1|]. split; [lia|].
    destruct Hs1 as [rest ->]. exists (rest ++ L2 ++ repeat Capture 1).
    now rewrite <- !app_assoc.
  - exists evs1, 1. split; [exact Ht1|]. split; [lia|].
    destruct Hs1 as [rest ->]. exists (rest ++ L2 ++ repeat Capture 1).
    now rewrite <- !app_assoc.
Qed.

Lemma plays_forEach {A} (l : list A) (f : A -> M unit) (s : A -> Step) :
  (forall x, plays (f x) [s x]) -> plays (forEach l f) (map s l).
Proof.
  intros Hf. induction l as [|x rest IH]; simpl.
  - apply plays_quiet, emits_ret.
  - apply (plays_bind (f x) (fun _ => forEach rest f) [s x]); [apply Hf|intros _; exact IH].
Qed.

Lemma syncEvent_offstage e : CookieSyncSpec.syncEvent e = true -> offstage e = true.
Proof. destruct e; simpl; auto; discriminate. Qed.

Ltac offstage_block :=
  solve [ unfold startThinkingStatusMonitor;
          repeat first
            [ eapply emits_weaken;
              [apply syncEvent_offstage|apply CookieSyncSpec.syncCookies_emits]
            | emits_step ] ].

Ltac plays_step :=
  first [ apply plays_quiet; offstage_block
        | apply plays_perform; intros ?; reflexivity ].

(** The uploads of the try block. *)
Lemma uploads_play w (config : ResolvedBrowserConfig) (connected : Client)
    (attachments : list BrowserAttachment) :
  plays
    (match attachments with
     | [] => ret tt
     | _ =>
         if negb (hasDOM connected) then
           throw (Err "Chrome DOM domain unavailable while uploading attachments.")
         else
           bind (forEach attachments
                   (fun attachment =>
                      bind (log (LogUploading (displayPath attachment)))
                        (fun _ =>
                           perform (uploadAttachmentFile w attachment)
                             (UploadAttachmentFile attachment))))
             (fun _ =>
                bind (perform (waitForAttachmentCompletion w (Z.max (inputTimeoutMs config) 30000))
                        (WaitForAttachmentCompletion (Z.max (inputTimeoutMs config) 30000)))
                  (fun _ => log LogAllUploaded))
     end)
    (uploadSteps attachments).
Proof.
  destruct attachments as [|attachment rest].
  - apply plays_quiet, emits_ret.
  - destruct (negb (hasDOM connected)); [apply plays_throw|].
    unfold uploadSteps.
    apply plays_bind.
    + apply plays_forEach. intros x.
      apply (plays_bind _ _ [] [Upload x]); [plays_step|intros _; plays_step].
    + intros _. apply (plays_bind _ _ [UploadWait] []); [plays_step|intros _; plays_step].
Qed.

Lemma wait_ends w options chrome dir startedAt timeout :
  ends
    (bind (perform (waitForAssistantResponse w timeout) (WaitForAssistantResponse timeout))
       (finish w options chrome dir startedAt))
    [ResponseWait].
Proof.
  intros st.
  destruct (plays_perform (waitForAssistantResponse w timeout) (WaitForAssistantResponse timeout)
              ResponseWait (fun _ => eq_refl) st) as (evs1 & Ht1 & Hs1).
  unfold bind.
  destruct (perform (waitForAssistantResponse w timeout) (WaitForAssistantResponse timeout) st)
    as [[answer|e|] st1]; cbn [fst snd] in *.
  - destruct (finish_run w options chrome dir startedAt answer st1)
      as (evs2 & result & Hres & Ht2 & Ha2 & _ & _ & Hc).
    exists (evs1 ++ evs2), (CookieSyncSpec.countIf isCapture evs2).
    split; [rewrite Ht2, Ht1; now rewrite app_assoc|]. split; [exact Hc|].
    rewrite Hres, steps_app, Hs1, (steps_afterWait evs2 Ha2). reflexivity.
  - exists evs1, 1. split; [exact Ht1|]. split; [lia|].
    destruct Hs1 as [rest ->]. exists (rest ++ repeat Capture 1). now rewrite <- app_assoc.
  - exists evs1, 1. split; [exact Ht1|]. split; [lia|].
    destruct Hs1 as [rest ->]. exists (rest ++ repeat Capture 1). now rewrite <- app_assoc.
Qed.

Lemma tryBlock_ends w options config promptText attachments chrome dir startedAt :
  ends (tryBlock w options config promptText attachments chrome dir startedAt)
    ([Navigate; BlockCheck; ComposerReady] ++ uploadSteps attachments ++ [Submit; ResponseWait]).
Proof.
  unfold tryBlock. eapply ends_eq.
  - repeat first
      [ exact (wait_ends w options chrome dir startedAt (timeoutMs config))
      | eapply ends_bind;
        [ first [ plays_step | apply uploads_play ] | intros ? ] ].
  - reflexivity.
Qed.

Lemma pageSteps_no_model attachments captures :
  ~ In ModelSelect (pageSteps attachments captures).
Proof.
  unfold pageSteps, uploadSteps. rewrite !in_app_iff. intros [H|[H|[H|H]]].
  - simpl in H. intuition discriminate.
  - destruct attachments; [exact H|]. rewrite in_app_iff in H. destruct H as [H|H].
    + apply in_map_iff in H as (x & Hx & _). discriminate.
    + simpl in H. intuition discriminate.
  - simpl in H. intuition discriminate.
  - apply repeat_spec in H. discriminate.
Qed.

Lemma teardownEvent_offstage e : teardownEvent e = true -> offstage e = true.
Proof. destruct e; simpl; auto; discriminate. Qed.

Lemma setupEvent_offstage e : setupEvent e = true -> offstage e = true.
Proof. destruct e; simpl; auto; discriminate. Qed.

Lemma quietEvent_offstage e : quietEvent e = true -> offstage e = true.
Proof. destruct e; simpl; auto; discriminate. Qed.

(** The steps of a whole run, with the outcome of the run. *)
Lemma run_plays w options st :
  let run := runBrowserMode w options st in
  exists evs captures,
    trace (snd run) = trace st ++ evs /\
    1 <= captures <= 3 /\
    match fst run with
    | Ok _ => steps evs = pageSteps (default [] (attachments options)) captures
    | _ => prefix (steps evs) (pageSteps (default [] (attachments options)) captures)
    end.
Proof.
  cbv zeta.
  assert (Hblank : forall run : Res BrowserRunResult * St,
             run = (Throw (Err promptRequired), st) ->
             exists evs captures,
               trace (snd run) = trace st ++ evs /\ 1 <= captures <= 3 /\
               match fst run with
               | Ok _ => steps evs = pageSteps (default [] (attachments options)) captures
               | _ => prefix (steps evs) (pageSteps (default [] (attachments options)) captures)
               end).
  { intros run ->. exists [], 1. simpl. rewrite app_nil_r.
    split; [reflexivity|]. split; [lia|]. eexists. reflexivity. }
  destruct (option_map Js.trim (prompt options)) as [promptText|] eqn:Hp.
  2:{ apply Hblank. unfold runBrowserMode. rewrite Hp. reflexivity. }
  destruct (string_dec promptText EmptyString) as [->|Hne].
  { apply Hblank. unfold runBrowserMode. rewrite Hp. reflexivity. }
  clear Hblank.
  destruct (run_cases w options promptText st Hp Hne)
    as [(e & evs0 & Hr & Ht & Hs0)|(dir & chrome & hooks & startedAt & st1 & evs0 & Hent & Hrun)].
  { exists evs0, 1. split; [exact Ht|]. split; [lia|]. rewrite Hr.
    rewrite (steps_offstage evs0 (weaken_forallb _ _ _ setupEvent_offstage Hs0)).
    eexists. reflexivity. }
  destruct Hent as (Ht1 & Hs0 & _).
  pose proof (steps_offstage evs0 (weaken_forallb _ _ _ setupEvent_offstage Hs0)) as Hq0.
  set (config := resolveBrowserConfig w (config options)) in *.
  set (files := default [] (attachments options)) in *.
  destruct (tryBlock_ends w options config promptText files chrome dir startedAt st1)
    as (evsB & captures & HtB & Hc & HsB).
  assert (Hplan : ([Navigate; BlockCheck; ComposerReady] ++ uploadSteps files
                     ++ [Submit; ResponseWait]) ++ repeat Capture captures
                  = pageSteps files captures).
  { unfold pageSteps. now rewrite <- !app_assoc. }
  rewrite Hplan in HsB.
  destruct (statement_cases w options config promptText files chrome dir hooks startedAt st1)
    as [(result & Hbody & Hwhole)|(error & Hbody & Hwhole)]; cbv zeta in Hwhole.
  - set (st2 := snd (tryBlock w options config promptText files chrome dir startedAt st1)) in *.
    destruct (teardown_emits w config chrome dir hooks startedAt st2) as (evsT & HtT & HpT & _).
    pose proof (steps_offstage evsT (weaken_forallb _ _ _ teardownEvent_offstage HpT)) as HqT.
    rewrite Hbody in HsB. rewrite Hrun, Hwhole. cbn [fst snd].
    exists (evs0 ++ evsB ++ evsT), captures.
    split; [rewrite HtT, HtB, Ht1; now rewrite <- !app_assoc|]. split; [exact Hc|].
    rewrite !steps_app, Hq0, HqT, HsB. simpl. now rewrite app_nil_r.
  - set (st2 := snd (tryBlock w options config promptText files chrome dir startedAt st1)) in *.
    destruct (onFailure_run w config error st2) as (evsH & HtH & HpH & Hthrow & _).
    pose proof (steps_offstage evsH (weaken_forallb _ _ _ quietEvent_offstage HpH)) as HqH.
    set (st3 := snd (onFailure w config error st2)) in *.
    destruct (teardown_emits w config chrome dir hooks startedAt st3) as (evsT & HtT & HpT & _).
    pose proof (steps_offstage evsT (weaken_forallb _ _ _ teardownEvent_offstage HpT)) as HqT.
    rewrite Hbody in HsB. rewrite Hrun, Hwhole. cbn [fst snd]. rewrite Hthrow.
    exists (evs0 ++ evsB ++ evsH ++ evsT), captures.
    split; [rewrite HtT, HtH, HtB, Ht1; now rewrite <- !app_assoc|]. split; [exact Hc|].
    rewrite !steps_app, Hq0, HqH, HqT. simpl. now rewrite app_nil_r.
Qed.

(** C1 (amended): the page steps of every run are, in this order, navigate,
    block check, composer ready, the upload of each attachment in the order
    of the list followed by the one wait for their completion (neither when
    there is no attachment), prompt submission, response wait and the
    capture calls. A run that returns went through all of them; a run that
    fails went through an initial part of them. No run contains a
    model-selection step, whatever model the configuration asks for. The
    capture is called through [withRetries], whose code is not in
    [src/browser/index.ts]: the bounds on [captures] are those of
    [Engine.withRetries] with the two retries the call site asks for. *)
Theorem page_steps_in_order (w : World) (options : BrowserRunOptions) (st : St) :
  let run := runBrowserMode w options st in
  let files := default [] (attachments options) in
  exists evs captures,
    trace (snd run) = trace st ++ evs /\
    1 <= captures <= 3 /\
    match fst run with
    | Ok _ => steps evs = pageSteps files captures
    | _ => prefix (steps evs) (pageSteps files captures)
    end /\
    ~ In ModelSelect (steps evs).
Proof.
  cbv zeta. destruct (run_plays w options st) as (evs & captures & Ht & Hc & Hs).
  exists evs, captures. split; [exact Ht|]. split; [exact Hc|]. split; [exact Hs|].
  assert (Hpre : prefix (steps evs) (pageSteps (default [] (attachments options)) captures)).
  { destruct (fst (runBrowserMode w options st)); [|exact Hs|exact Hs].
    exists []. now rewrite app_nil_r. }
  destruct Hpre as [rest Hrest]. intros Hin.
  apply (pageSteps_no_model (default [] (attachments options)) captures).
  rewrite Hrest, in_app_iff. now left.
Qed.

(** C1 (as stated, refuted). The configuration asks for the model
    "5.1 Instant" and the run has one attachment: the run returns, its page
    steps go from composer readiness straight to the upload, and the model
    picker is never evaluated. *)
Lemma model_selection_is_skipped :
  let run := runBrowserMode Samples.calm Samples.modelOptions processStart in
  desiredModel (resolveBrowserConfig Samples.calm (config Samples.modelOptions))
  = Some "5.1 Instant"%string /\
  (exists result, fst run = Ok result) /\
  steps (trace (snd run))
  = [Navigate; BlockCheck; ComposerReady;
     Upload {| attachmentPath := "/repo/notes.md"; displayPath := "notes.md" |}; UploadWait;
     Submit; ResponseWait; Capture] /\
  existsb (fun e => match e with EvaluateModelSelection _ _ => true | _ => false end)
    (trace (snd run)) = false.
Proof.
  cbv zeta. split; [vm_compute; reflexivity|].
  split; [eexists; vm_compute; reflexivity|].
  split; vm_compute; reflexivity.
Qed.

End EngineSpec.

(** ** The response observer *)

Module ObserverSpec.
Import PageActions.
Local Open Scope list_scope.
Local Open Scope Z_scope.

(** An assistant turn whose text is not blank. *)
Definition answered (turn : Turn) : bool :=
  isAssistantTurn turn && Js.truthy (Js.trim (innerText turn)).

Definition extractionOf (turn : Turn) : Extraction :=
  {| text := innerText turn; html := innerHTML turn;
     messageId := dataMessageId turn; turnId := turnTestid turn |}.

Definition unanswered (l : list Turn) : Prop :=
  forallb (fun turn => negb (answered turn)) l = true.

Lemma extractFromReversed_found reversed :
  match extractFromReversed reversed with
  | Some e =>
      exists later turn earlier,
        reversed = later ++ turn :: earlier /\ unanswered later /\
        answered turn = true /\ e = extractionOf turn
  | None => unanswered reversed
  end.
Proof.
  unfold unanswered. induction reversed as [|turn earlier IH]; simpl; [reflexivity|].
  unfold answered at 1 3.
  destruct (isAssistantTurn turn) eqn:Ea; simpl.
  - destruct (Js.truthy (Js.trim (innerText turn))) eqn:Et; simpl.
    + exists [], turn, earlier. unfold answered. rewrite Ea, Et. repeat split.
    + destruct (extractFromReversed earlier) as [e|]; [|exact IH].
      destruct IH as (later & t & before & -> & Hl & Ht & ->).
      exists (turn :: later), t, before. simpl. unfold answered at 1. rewrite Ea, Et.
      repeat split; auto.
  - destruct (extractFromReversed earlier) as [e|]; [|exact IH].
    destruct IH as (later & t & before & -> & Hl & Ht & ->).
    exists (turn :: later), t, before. simpl. unfold answered at 1. rewrite Ea.
    repeat split; auto.
Qed.

Lemma unanswered_rev l : unanswered (rev l) -> unanswered l.
Proof.
  unfold unanswered. rewrite !forallb_forall. intros H x Hx. apply H. now apply in_rev in Hx.
Qed.

(** X1. [extractFromTurns] returns the text, markup and identifiers of the
    last assistant turn whose text is not blank: blank assistant turns and
    turns of other authors after it are skipped. It returns nothing exactly
    when the page has no such turn. *)
Theorem extractFromTurns_last (p : PageState) :
  match extractFromTurns p with
  | Some e =>
      exists before turn after,
        turns p = before ++ turn :: after /\
        answered turn = true /\ unanswered after /\
        e = extractionOf turn /\ Js.trim (text e) <> EmptyString
  | None => unanswered (turns p)
  end.
Proof.
  unfold extractFromTurns.
  pose proof (extractFromReversed_found (rev (turns p))) as H.
  destruct (extractFromReversed (rev (turns p))) as [e|].
  - destruct H as (later & turn & earlier & Hrev & Hl & Ht & ->).
    exists (rev earlier), turn, (rev later).
    assert (Hturns : turns p = rev earlier ++ turn :: rev later).
    { rewrite <- (rev_involutive (turns p)), Hrev, rev_app_distr. simpl.
      now rewrite <- app_assoc. }
    repeat split; auto.
    + apply unanswered_rev. now rewrite rev_involutive.
    + simpl. unfold answered in Ht. apply andb_true_iff in Ht as [_ Ht].
      destruct (Js.trim (innerText turn)); [discriminate|discriminate].
  - apply unanswered_rev. exact H.
Qed.



(** A callback of the observer that leaves the promise pending: no answer
    is in the page and the deadline has not passed. *)
Definition passes (clock : Clock) (page : Page) (deadline : Z) (w : Wakeup) : bool :=
  match w with
  | Mutation t =>
      match extractFromTurns (page t) with
      | Some _ => false
      | None => later clock t <=? deadline
      end
  | TimerFired _ => false
  end.


Lemma passes_facts clock page deadline handled :
  forallb (passes clock page deadline) handled = true ->
  (forall t, ~ In (TimerFired t) handled) /\
  (forall t, In (Mutation t) handled -> extractFromTurns (page t) = None).
Proof.
  intros H. rewrite forallb_forall in H. split.
  - intros t Hin. specialize (H _ Hin). discriminate.
  - intros t Hin. specialize (H _ Hin). simpl in H.
    now destruct (extractFromTurns (page t)).
Qed.





End ObserverSpec.

(** ** The model matcher, for every target model *)

Module MatcherSpec.
Import PageActions.
Local Open Scope list_scope.

Lemma isSpace_lowerChar c : Js.isSpace (Js.lowerChar c) = Js.isSpace c.
Proof. destruct c as [[] [] [] [] [] [] [] []]; reflexivity. Qed.

Lemma trimStart_toLowerCase s :
  Js.trimStart (Js.toLowerCase s) = Js.toLowerCase (Js.trimStart s).
Proof.
  induction s as [|c s IH]; simpl; [reflexivity|].
  rewrite isSpace_lowerChar. destruct (Js.isSpace c); [exact IH|reflexivity].
Qed.

Lemma trimEnd_toLowerCase s :
  Js.trimEnd (Js.toLowerCase s) = Js.toLowerCase (Js.trimEnd s).
Proof.
  induction s as [|c s IH]; simpl; [reflexivity|].
  rewrite IH, isSpace_lowerChar.
  destruct (Js.trimEnd s); simpl; [destruct (Js.isSpace c)|]; reflexivity.
Qed.

Lemma trim_toLowerCase s : Js.trim (Js.toLowerCase s) = Js.toLowerCase (Js.trim s).
Proof. unfold Js.trim. now rewrite trimStart_toLowerCase, trimEnd_toLowerCase. Qed.

(** The string is empty or starts with a character that is not a space. *)
Definition headKept (s : string) : bool :=
  match s with
  | EmptyString => true
  | String c _ => negb (Js.isSpace c)
  end.

Lemma trimStart_headKept s : headKept (Js.trimStart s) = true.
Proof.
  induction s as [|c s IH]; simpl; [reflexivity|].
  destruct (Js.isSpace c) eqn:E; [exact IH|]. simpl. now rewrite E.
Qed.

Lemma trimStart_fixed s : headKept s = true -> Js.trimStart s = s.
Proof. destruct s as [|c s]; simpl; [reflexivity|]. now destruct (Js.isSpace c). Qed.

Lemma trimEnd_headKept s : headKept s = true -> headKept (Js.trimEnd s) = true.
Proof.
  destruct s as [|c s]; simpl; [reflexivity|]. intros Hc.
  destruct (Js.trimEnd s); simpl; [|exact Hc].
  destruct (Js.isSpace c) eqn:E; [discriminate|]. simpl. now rewrite E.
Qed.

Lemma trimEnd_idem s : Js.trimEnd (Js.trimEnd s) = Js.trimEnd s.
Proof.
  induction s as [|c s IH]; simpl; [reflexivity|].
  destruct (Js.trimEnd s) as [|d rest] eqn:E.
  - destruct (Js.isSpace c) eqn:Ec; simpl; [reflexivity|]. now rewrite Ec.
  - remember (String d rest) as kept eqn:Ek. simpl. rewrite IH.
    subst kept. reflexivity.
Qed.

Lemma trim_idem s : Js.trim (Js.trim s) = Js.trim s.
Proof.
  unfold Js.trim.
  rewrite (trimStart_fixed (Js.trimEnd (Js.trimStart s))).
  - apply trimEnd_idem.
  - apply trimEnd_headKept, trimStart_headKept.
Qed.

Lemma toLowerCase_app a b :
  Js.toLowerCase (a ++ b)%string = (Js.toLowerCase a ++ Js.toLowerCase b)%string.
Proof. induction a as [|c a IH]; simpl; [reflexivity|]. now rewrite IH. Qed.

Lemma toLowerCase_cons c s :
  Js.toLowerCase (String c s) = String c s -> Js.lowerChar c = c /\ Js.toLowerCase s = s.
Proof. simpl. intros [= Hc Hs]. auto. Qed.

Lemma replaceRunsFrom_lower p r inRun s :
  Js.toLowerCase r = r -> Js.toLowerCase s = s ->
  Js.toLowerCase (Js.replaceRunsFrom p r inRun s) = Js.replaceRunsFrom p r inRun s.
Proof.
  intros Hr. revert inRun. induction s as [|c s IH]; intros inRun Hs; simpl; [reflexivity|].
  apply toLowerCase_cons in Hs as [Hc Hs].
  destruct (p c).
  - destruct inRun; [auto|]. rewrite toLowerCase_app, Hr. f_equal. auto.
  - simpl. rewrite Hc. f_equal. auto.
Qed.

Lemma splitRunsFrom_lower p s : forall cur inRun,
  Js.toLowerCase cur = cur -> Js.toLowerCase s = s ->
  Forall (fun piece => Js.toLowerCase piece = piece) (Js.splitRunsFrom p cur inRun s).
Proof.
  induction s as [|c s IH]; intros cur inRun Hcur Hs; simpl.
  - constructor; [exact Hcur|constructor].
  - apply toLowerCase_cons in Hs as [Hc Hs].
    destruct (p c).
    + destruct inRun; [now apply IH|]. constructor; [exact Hcur|]. now apply IH.
    + apply IH; [|exact Hs]. rewrite toLowerCase_app, Hcur. simpl. now rewrite Hc.
Qed.

(** A token: not empty, without surrounding white space, in lower case. *)
Definition token (t : string) : Prop :=
  t <> EmptyString /\ Js.trim t = t /\ Js.toLowerCase t = t.

Definition tokenSet (set : list string) : Prop := NoDup set /\ Forall token set.

Lemma NoDup_snoc (x : string) set : NoDup set -> ~ In x set -> NoDup (set ++ [x]).
Proof.
  intros Hset Hx. apply NoDup_app. split; [exact Hset|]. split; [|apply NoDup_singleton].
  intros y Hy Hin. apply list_elem_of_singleton in Hin. subst y.
  apply Hx. now apply list_elem_of_In.
Qed.

Lemma setAdd_tokenSet x set : token x -> tokenSet set -> tokenSet (Js.setAdd x set).
Proof.
  intros Hx [Hnd Hall]. unfold Js.setAdd.
  destruct (existsb (String.eqb x) set) eqn:E; [now split|].
  split.
  - apply NoDup_snoc; [exact Hnd|]. intros Hin.
    assert (existsb (String.eqb x) set = true); [|congruence].
    apply existsb_exists. exists x. split; [exact Hin|apply String.eqb_refl].
  - apply Forall_app. split; [exact Hall|]. constructor; [exact Hx|constructor].
Qed.

Lemma push_tokenSet v set :
  Js.toLowerCase v = v -> tokenSet set -> tokenSet (push v set).
Proof.
  intros Hv Hset. unfold push.
  destruct (Js.truthy (Js.trim v)) eqn:E; [|exact Hset].
  apply setAdd_tokenSet; [|exact Hset].
  repeat split.
  - intros H. rewrite H in E. discriminate.
  - apply trim_idem.
  - now rewrite <- trim_toLowerCase, Hv.
Qed.

Lemma push_In x v set : In x set -> In x (push v set).
Proof.
  unfold push, Js.setAdd. intros H.
  destruct (Js.truthy (Js.trim v)); [|exact H].
  destruct (existsb _ set); [exact H|]. apply in_app_iff. now left.
Qed.

Lemma push_added v set : Js.trim v <> EmptyString -> In (Js.trim v) (push v set).
Proof.
  unfold push, Js.setAdd. intros H.
  destruct (Js.trim v) as [|c rest] eqn:E; [congruence|]. simpl Js.truthy. cbv iota.
  destruct (existsb (String.eqb (String c rest)) set) eqn:Ex.
  - apply existsb_exists in Ex as (y & Hy & Heq). apply String.eqb_eq in Heq. now subst.
  - apply in_app_iff. right. now left.
Qed.

Lemma pushes_tokenSet pieces : forall set,
  Forall (fun piece => Js.toLowerCase piece = piece) pieces ->
  tokenSet set -> tokenSet (fold_left (fun set piece => push piece set) pieces set).
Proof.
  induction pieces as [|piece pieces IH]; intros set Hp Hset; simpl; [exact Hset|].
  inversion Hp; subst. apply IH; [assumption|]. now apply push_tokenSet.
Qed.

Lemma pushes_In x pieces : forall set,
  In x set -> In x (fold_left (fun set piece => push piece set) pieces set).
Proof.
  induction pieces as [|piece pieces IH]; intros set H; simpl; [exact H|].
  apply IH. now apply push_In.
Qed.

Lemma filter_tokens set :
  Forall token set -> filter (fun t => Is_true (Js.truthy t)) set = set.
Proof.
  induction 1 as [|t set Ht Hset IH]; [reflexivity|].
  rewrite filter_cons. destruct (decide (Is_true (Js.truthy t))) as [_|Hn].
  - now rewrite IH.
  - exfalso. apply Hn. destruct Ht as [Ht _]. destruct t; [congruence|exact I].
Qed.

Lemma filtered_lower pieces :
  Forall (fun piece => Js.toLowerCase piece = piece) pieces ->
  Forall (fun piece => Js.toLowerCase piece = piece)
    (filter (fun t => Is_true (Js.truthy t)) (map Js.trim pieces)).
Proof.
  induction 1 as [|piece pieces Hp Hrest IH]; simpl; [constructor|].
  rewrite filter_cons. destruct (decide _); [|exact IH].
  constructor; [|exact IH]. now rewrite <- trim_toLowerCase, Hp.
Qed.

Lemma trim_prefixed c word rest :
  Js.isSpace c = false -> Js.trim (String c word ++ rest)%string <> EmptyString.
Proof.
  intros Hc. unfold Js.trim. simpl. rewrite Hc. simpl.
  destruct (Js.trimEnd (word ++ rest)%string); [now rewrite Hc|discriminate].
Qed.

Lemma base_lower targetModel :
  Js.toLowerCase (Js.toLowerCase (Js.trim targetModel)) = Js.toLowerCase (Js.trim targetModel).
Proof. apply PageActionsSpec.toLowerCase_idem. Qed.

Ltac lower_case :=
  repeat first
    [ apply base_lower
    | progress unfold Js.replaceRuns
    | apply replaceRunsFrom_lower; [reflexivity|]
    | rewrite toLowerCase_app; apply (f_equal2 append); [reflexivity|] ].

Lemma trim_base targetModel :
  Js.trim (Js.toLowerCase (Js.trim targetModel)) = Js.toLowerCase (Js.trim targetModel).
Proof. now rewrite trim_toLowerCase, trim_idem. Qed.

Lemma nil_tokenSet : tokenSet [].
Proof. split; constructor. Qed.

(** The label tokens: the set built by the pushes, which the final
    [filter(Boolean)] leaves as it is. *)
Lemma labels_built targetModel :
  let base := Js.toLowerCase (Js.trim targetModel) in
  tokenSet (labelTokens (buildModelMatchersLiteral targetModel)) /\
  In (Js.trim ("chatgpt " ++ base)%string) (labelTokens (buildModelMatchersLiteral targetModel)) /\
  (base <> EmptyString -> In base (labelTokens (buildModelMatchersLiteral targetModel))).
Proof.
  intros base. unfold buildModelMatchersLiteral. cbv zeta. cbn [labelTokens]. fold base.
  match goal with
  | |- context [match ?L with [] => _ | _ :: _ => _ end] => set (labels := L)
  end.
  assert (Hset : tokenSet labels).
  { subst labels. apply pushes_tokenSet.
    - apply filtered_lower, splitRunsFrom_lower; [reflexivity|apply base_lower].
    - repeat (apply push_tokenSet; [subst base; lower_case|]). apply nil_tokenSet. }
  assert (Hchat : In (Js.trim ("chatgpt " ++ base)%string) labels).
  { subst labels. apply pushes_In. do 3 apply push_In. apply push_added.
    now apply trim_prefixed. }
  assert (Hbase : base <> EmptyString -> In base labels).
  { intros Hne. subst labels. apply pushes_In. do 7 apply push_In.
    pose proof (push_added base []) as Hadded. subst base.
    rewrite trim_base in Hadded. now apply Hadded. }
  destruct labels as [|first rest] eqn:El; [destruct Hchat|].
  rewrite (filter_tokens _ (proj2 Hset)). auto.
Qed.

Lemma ids_built targetModel :
  let base := Js.toLowerCase (Js.trim targetModel) in
  tokenSet (testIdTokens (buildModelMatchersLiteral targetModel)) /\
  In (Js.trim ("model-switcher-" ++ Js.replaceRuns Js.isSpace "-" base)%string)
    (testIdTokens (buildModelMatchersLiteral targetModel)).
Proof.
  intros base. unfold buildModelMatchersLiteral. cbv zeta. cbn [testIdTokens]. fold base.
  match goal with
  | |- context [match ?L with [] => _ | _ :: _ => _ end] => set (ids := L)
  end.
  assert (Hset : tokenSet ids).
  { subst ids. repeat (apply push_tokenSet; [subst base; lower_case|]). apply nil_tokenSet. }
  assert (Hswitch : In (Js.trim ("model-switcher-" ++ Js.replaceRuns Js.isSpace "-" base)%string)
                      ids).
  { subst ids. apply push_In. apply push_added. now apply trim_prefixed. }
  destruct ids as [|first rest] eqn:El; [destruct Hswitch|].
  rewrite (filter_tokens _ (proj2 Hset)). auto.
Qed.

(** X3. For every target model the matcher has at least one label token
    and at least one test-id token (the fallback additions for empty sets are
    never needed), no token occurs twice in its set, and every token is
    non-empty, free of surrounding white space and in lower case. *)
Theorem matchers_wellformed (targetModel : string) :
  let m := buildModelMatchersLiteral targetModel in
  labelTokens m <> [] /\ testIdTokens m <> [] /\
  NoDup (labelTokens m) /\ NoDup (testIdTokens m) /\
  Forall token (labelTokens m) /\ Forall token (testIdTokens m).
Proof.
  cbv zeta.
  destruct (labels_built targetModel) as ([Hnd Hall] & Hin & _).
  destruct (ids_built targetModel) as ([Hnd' Hall'] & Hin').
  repeat split; auto.
  - intros H. rewrite H in Hin. destruct Hin.
  - intros H. rewrite H in Hin'. destruct Hin'.
Qed.

Lemma startsWith_refl s : Js.startsWith s s = true.
Proof. induction s as [|c s IH]; simpl; [reflexivity|]. now rewrite Ascii.eqb_refl. Qed.

Lemma includes_refl s : Js.includes s s = true.
Proof. destruct s; simpl; [reflexivity|]. now rewrite Ascii.eqb_refl, startsWith_refl. Qed.

(** X4. A menu entry whose text is the target model, up to letter case and
    to white space around the target, is matched, whatever its test id,
    provided the text contains a letter or a digit. *)
Theorem own_label_matches (targetModel label : string) (testid : option string) :
  Js.toLowerCase label = Js.toLowerCase (Js.trim targetModel) ->
  normalizeText label <> EmptyString ->
  optionMatches (buildModelMatchersLiteral targetModel)
    {| dataTestid := testid; textContent := label |} = true.
Proof.
  intros Hlabel Hword.
  set (base := Js.toLowerCase (Js.trim targetModel)).
  assert (Hnorm : normalizeText base = normalizeText label).
  { subst base. now rewrite <- Hlabel, PageActionsSpec.normalizeText_toLowerCase. }
  assert (Hbase : base <> EmptyString).
  { intros H. rewrite H in Hnorm. now rewrite <- Hnorm in Hword. }
  destruct (labels_built targetModel) as (_ & _ & Hin). specialize (Hin Hbase).
  unfold optionMatches. apply orb_true_iff. right.
  unfold matchesText. cbn [textContent]. apply existsb_exists.
  exists base. split; [exact Hin|]. rewrite Hnorm.
  destruct (normalizeText label) eqn:E; [congruence|]. simpl Js.truthy. cbv iota.
  apply includes_refl.
Qed.

Lemma own_label_matches_witness :
  optionMatches (buildModelMatchersLiteral "  GPT-5 Pro ")
    {| dataTestid := None; textContent := "gpt-5 PRO" |} = true.
Proof.
  apply (own_label_matches "  GPT-5 Pro " "gpt-5 PRO" None).
  - reflexivity.
  - vm_compute. discriminate.
Defined.

Lemma findInMenu_find m buttons : findInMenu m buttons = List.find (optionMatches m) buttons.
Proof. induction buttons as [|o rest IH]; simpl; [reflexivity|]. now rewrite IH. Qed.

(** X5. The nested loops of [findOption] return the first matching entry in
    document order over all menus: an entry of a later menu is returned only
    if no entry of an earlier menu matches, and nothing is returned exactly
    when no entry of any menu matches. *)
Theorem findOption_first (m : ModelMatchers) (menus : list (list OptionNode)) :
  findOption m menus = List.find (optionMatches m) (concat menus) /\
  (findOption m menus = None <->
   forall menu o, In menu menus -> In o menu -> optionMatches m o = false).
Proof.
  assert (Hfind : findOption m menus = List.find (optionMatches m) (concat menus)).
  { induction menus as [|menu rest IH]; simpl; [reflexivity|].
    rewrite findInMenu_find, IH. clear IH.
    induction menu as [|o menu IH]; simpl; [reflexivity|].
    destruct (optionMatches m o); [reflexivity|exact IH]. }
  split; [exact Hfind|]. rewrite Hfind. split.
  - intros Hnone menu o Hmenu Ho.
    apply (List.find_none _ _ Hnone). apply in_concat. eauto.
  - intros Hall. destruct (List.find (optionMatches m) (concat menus)) as [o|] eqn:E;
      [|reflexivity].
    apply List.find_some in E as [Hin Hm]. apply in_concat in Hin as (menu & Hmenu & Ho).
    rewrite (Hall menu o Hmenu Ho) in Hm. discriminate.
Qed.

(** X6. A blank target model (empty or only white space) gives the label
    tokens "chatgpt" and "gpt" and the test-id token "model-switcher-": every
    entry whose label contains "gpt" and every entry of the model switcher
    matches. *)
Theorem blank_target_matchers (targetModel : string) :
  EngineSpec.onlyWhitespace targetModel = true ->
  buildModelMatchersLiteral targetModel
  = {| labelTokens := ["chatgpt"; "gpt"]; testIdTokens := ["model-switcher-"] |} /\
  (forall label testid,
      Js.includes "gpt" (normalizeText label) = true ->
      optionMatches (buildModelMatchersLiteral targetModel)
        {| dataTestid := testid; textContent := label |} = true) /\
  (forall label testid,
      Js.includes "model-switcher-" (Js.toLowerCase testid) = true ->
      optionMatches (buildModelMatchersLiteral targetModel)
        {| dataTestid := Some testid; textContent := label |} = true).
Proof.
  intros Hblank.
  assert (Hbuilt : buildModelMatchersLiteral targetModel
                   = {| labelTokens := ["chatgpt"; "gpt"];
                        testIdTokens := ["model-switcher-"] |}).
  { unfold buildModelMatchersLiteral. rewrite (EngineSpec.trim_onlyWhitespace _ Hblank).
    vm_compute. reflexivity. }
  rewrite Hbuilt. split; [reflexivity|]. split.
  - intros label testid Hgpt. unfold optionMatches, matchesText. cbn [labelTokens textContent].
    apply orb_true_iff. right. cbn [existsb].
    change (normalizeText "gpt") with "gpt"%string.
    change (Js.truthy "gpt") with true. cbv iota. rewrite Hgpt. apply orb_true_r.
  - intros label testid Hid. unfold optionMatches, matchesTestId.
    cbn -[Js.includes Js.toLowerCase Js.truthy matchesText]. rewrite Hid.
    destruct (Js.toLowerCase testid) eqn:E; [discriminate Hid|]. reflexivity.
Qed.

Lemma blank_target_matchers_witness :
  optionMatches (buildModelMatchersLiteral "   ")
    {| dataTestid := None; textContent := "GPT-4o mini" |} = true.
Proof.
  destruct (blank_target_matchers "   " eq_refl) as (_ & Hlabel & _).
  apply Hlabel. vm_compute. reflexivity.
Defined.

End MatcherSpec.

(** ** The model matcher: what it is insensitive to *)

Module NormalizeSpec.
Import PageActions Samples.
Local Open Scope list_scope.

(** [[^a-z0-9]]: what [normalizeText] takes for a separator. *)
Definition isSeparator (c : ascii) : bool := negb (Js.isLowerOrDigit c).

(** The words of a text: [text.toLowerCase().split(/[^a-z0-9]+/)] without
    the empty pieces. *)
Definition words (text : string) : list string :=
  List.filter Js.truthy (Js.splitRuns isSeparator (Js.toLowerCase text)).

(** [pieces.filter(Boolean).join(' ')] *)
Definition joined (pieces : list string) : string :=
  String.concat " " (List.filter Js.truthy pieces).

Definition spaceless (s : string) : Prop :=
  forall c, In c (list_ascii_of_string s) -> Js.isSpace c = false.

Lemma word_not_space c : Js.isLowerOrDigit c = true -> Js.isSpace c = false.
Proof. destruct c as [[] [] [] [] [] [] [] []]; simpl; intros H; try reflexivity; discriminate. Qed.

Lemma append_nil (b : string) : ("" ++ b)%string = b.
Proof. reflexivity. Qed.

Lemma append_cons c (a b : string) : (String c a ++ b)%string = String c (a ++ b).
Proof. reflexivity. Qed.

Lemma trimEnd_app a b :
  Js.trimEnd (a ++ b)%string
  = match Js.trimEnd b with
    | EmptyString => Js.trimEnd a
    | r => (a ++ r)%string
    end.
Proof.
  induction a as [|x a IH].
  - rewrite append_nil. now destruct (Js.trimEnd b).
  - rewrite append_cons. cbn [Js.trimEnd]. rewrite IH.
    destruct (Js.trimEnd b) as [|y r]; [reflexivity|].
    rewrite append_cons. destruct a; reflexivity.
Qed.

Lemma trimEnd_spaceless s : spaceless s -> Js.trimEnd s = s.
Proof.
  induction s as [|c s IH]; intros Hs; [reflexivity|]. simpl.
  rewrite IH by (intros d Hd; apply Hs; simpl; auto).
  destruct s; [|reflexivity]. rewrite (Hs c); [reflexivity|]. simpl. auto.
Qed.

Lemma spaceless_snoc s c :
  spaceless s -> Js.isLowerOrDigit c = true -> spaceless (s ++ String c "")%string.
Proof.
  intros Hs Hc d Hd. induction s as [|x s IH].
  - rewrite append_nil in Hd. destruct Hd as [<-|[]]. now apply word_not_space.
  - rewrite append_cons in Hd. simpl in Hd.
    destruct Hd as [<-|Hd]; [apply Hs; simpl; auto|].
    apply IH; [|exact Hd]. intros e He. apply Hs. simpl. auto.
Qed.

Lemma app_snoc (a : string) c b : ((a ++ String c "") ++ b = a ++ String c b)%string.
Proof. induction a as [|x a IH]; [reflexivity|]. rewrite !append_cons. now rewrite IH. Qed.

Lemma joined_cons (cur : string) pieces :
  cur <> EmptyString ->
  joined (cur :: pieces)
  = match joined pieces with
    | EmptyString => cur
    | r => (cur ++ " " ++ r)%string
    end.
Proof.
  intros Hcur. unfold joined. destruct cur as [|c cur]; [congruence|]. cbn [List.filter Js.truthy].
  induction pieces as [|p pieces IH]; [reflexivity|].
  destruct p as [|d p]; cbn [List.filter Js.truthy]; [exact IH|].
  cbn [String.concat]. destruct (List.filter Js.truthy pieces) as [|q rest]; reflexivity.
Qed.

(** The separators of a lower-cased text replaced by single spaces, and the
    spaces at its end removed: the words of the text joined by single
    spaces. *)
Lemma separated_joined (t : string) :
  Js.trimEnd (Js.replaceRunsFrom isSeparator " " true t)
  = joined (Js.splitRunsFrom isSeparator "" true t) /\
  forall cur, cur <> EmptyString -> spaceless cur ->
    Js.trimEnd (cur ++ Js.replaceRunsFrom isSeparator " " false t)
    = joined (Js.splitRunsFrom isSeparator cur false t).
Proof.
  induction t as [|c t [IH1 IH2]].
  - split; [reflexivity|]. intros cur Hcur Hs. cbn [Js.replaceRunsFrom Js.splitRunsFrom].
    rewrite trimEnd_app. cbn [Js.trimEnd]. rewrite (trimEnd_spaceless cur Hs).
    rewrite joined_cons by exact Hcur. reflexivity.
  - cbn [Js.replaceRunsFrom Js.splitRunsFrom].
    destruct (isSeparator c) eqn:Ec.
    + split; [exact IH1|]. intros cur Hcur Hs.
      rewrite joined_cons by exact Hcur. rewrite <- IH1.
      change (" " ++ Js.replaceRunsFrom isSeparator " " true t)%string
        with (String " " (Js.replaceRunsFrom isSeparator " " true t)).
      rewrite trimEnd_app. cbn [Js.trimEnd].
      destruct (Js.trimEnd (Js.replaceRunsFrom isSeparator " " true t)) as [|d r].
      * cbn [Js.isSpace]. apply trimEnd_spaceless, Hs.
      * reflexivity.
    + assert (Hc : Js.isLowerOrDigit c = true).
      { unfold isSeparator in Ec. now destruct (Js.isLowerOrDigit c). }
      split.
      * specialize (IH2 (String c "") ltac:(discriminate)).
        rewrite append_cons, !append_nil in IH2. apply IH2.
        intros d [<-|[]]. now apply word_not_space.
      * intros cur Hcur Hs. rewrite <- app_snoc. apply IH2.
        -- destruct cur; discriminate.
        -- now apply spaceless_snoc.
Qed.

Lemma space_separator c : Js.isSpace c = true -> isSeparator c = true.
Proof.
  unfold isSeparator. destruct (Js.isLowerOrDigit c) eqn:E; [|reflexivity].
  rewrite (word_not_space c E). discriminate.
Qed.

(** The second replacement of [normalizeText] finds single spaces only. *)
Lemma spaces_kept (t : string) (inRun : bool) :
  Js.replaceRunsFrom Js.isSpace " " inRun (Js.replaceRunsFrom isSeparator " " inRun t)
  = Js.replaceRunsFrom isSeparator " " inRun t.
Proof.
  revert inRun. induction t as [|c t IH]; intros inRun; [reflexivity|].
  cbn [Js.replaceRunsFrom]. destruct (isSeparator c) eqn:Ec.
  - destruct inRun; [apply IH|].
    rewrite append_cons, append_nil. cbn [Js.replaceRunsFrom].
    change (Js.isSpace " ") with true. cbv iota.
    rewrite append_cons, append_nil. now rewrite IH.
  - cbn [Js.replaceRunsFrom].
    assert (Hc : Js.isSpace c = false).
    { apply word_not_space. unfold isSeparator in Ec. now destruct (Js.isLowerOrDigit c). }
    rewrite Hc. now rewrite IH.
Qed.

Lemma trimStart_separated (t : string) :
  Js.trimStart (Js.replaceRunsFrom isSeparator " " true t)
  = Js.replaceRunsFrom isSeparator " " true t /\
  Js.trimStart (Js.replaceRunsFrom isSeparator " " false t)
  = Js.replaceRunsFrom isSeparator " " true t.
Proof.
  induction t as [|c t [IH1 IH2]]; [split; reflexivity|].
  cbn [Js.replaceRunsFrom]. destruct (isSeparator c) eqn:Ec.
  - split; [exact IH1|]. rewrite append_cons, append_nil. cbn [Js.trimStart].
    change (Js.isSpace " ") with true. cbv iota. exact IH1.
  - assert (Hc : Js.isSpace c = false).
    { apply word_not_space. unfold isSeparator in Ec. now destruct (Js.isLowerOrDigit c). }
    cbn [Js.trimStart]. rewrite Hc. split; reflexivity.
Qed.

(** A leading separator gives an empty first piece, which the filter
    removes. *)
Lemma pieces_from_run (t : string) :
  List.filter Js.truthy (Js.splitRunsFrom isSeparator "" true t)
  = List.filter Js.truthy (Js.splitRunsFrom isSeparator "" false t).
Proof. destruct t as [|c t]; [reflexivity|]. cbn [Js.splitRunsFrom]. now destruct (isSeparator c). Qed.

(** [normalizeText] gives the words of the text, joined by single spaces. *)
Lemma normalizeText_words (label : string) :
  normalizeText label = String.concat " " (words label).
Proof.
  unfold normalizeText, words. destruct label as [|c label]; [reflexivity|].
  cbn [Js.truthy]. cbv iota. unfold Js.replaceRuns, Js.splitRuns.
  set (t := Js.toLowerCase (String c label)).
  change (fun c0 : ascii => negb (Js.isLowerOrDigit c0)) with isSeparator.
  rewrite spaces_kept. unfold Js.trim.
  rewrite (proj2 (trimStart_separated t)), (proj1 (separated_joined t)).
  unfold joined. now rewrite pieces_from_run.
Qed.

(** *** The words of a trimmed text *)

Lemma pieces_trimStart (t : string) :
  List.filter Js.truthy (Js.splitRunsFrom isSeparator "" true (Js.trimStart t))
  = List.filter Js.truthy (Js.splitRunsFrom isSeparator "" true t).
Proof.
  induction t as [|c t IH]; [reflexivity|]. cbn [Js.trimStart].
  destruct (Js.isSpace c) eqn:Ec; [|reflexivity].
  cbn [Js.splitRunsFrom]. now rewrite (space_separator c Ec).
Qed.

Lemma pieces_trimEnd (t : string) : forall cur inRun,
  List.filter Js.truthy (Js.splitRunsFrom isSeparator cur inRun (Js.trimEnd t))
  = List.filter Js.truthy (Js.splitRunsFrom isSeparator cur inRun t).
Proof.
  induction t as [|c t IH]; intros cur inRun; [reflexivity|].
  cbn [Js.trimEnd]. destruct (Js.trimEnd t) as [|d r] eqn:Et.
  - destruct (Js.isSpace c) eqn:Ec.
    + cbn [Js.splitRunsFrom]. rewrite (space_separator c Ec).
      destruct inRun.
      * now rewrite <- IH.
      * cbn [List.filter]. now rewrite <- IH.
    + cbn [Js.splitRunsFrom]. destruct (isSeparator c), inRun;
        cbn [List.filter]; now rewrite <- IH.
  - cbn [Js.splitRunsFrom]. destruct (isSeparator c), inRun;
      cbn [List.filter]; rewrite <- IH; reflexivity.
Qed.

Lemma words_trim (text : string) : words (Js.trim text) = words text.
Proof.
  unfold words, Js.splitRuns.
  rewrite <- MatcherSpec.trim_toLowerCase. unfold Js.trim.
  rewrite pieces_trimEnd, <- pieces_from_run, pieces_trimStart. apply pieces_from_run.
Qed.

Lemma words_toLowerCase (text : string) : words (Js.toLowerCase text) = words text.
Proof. unfold words. now rewrite PageActionsSpec.toLowerCase_idem. Qed.

(** *** Inclusion *)

Lemma startsWith_app (x rest : string) : Js.startsWith x (x ++ rest)%string = true.
Proof.
  induction x as [|c x IH]; [reflexivity|]. rewrite append_cons. cbn [Js.startsWith].
  now rewrite Ascii.eqb_refl.
Qed.

Lemma includes_app (before x after : string) :
  Js.includes x (before ++ x ++ after)%string = true.
Proof.
  induction before as [|c before IH].
  - rewrite append_nil. destruct (x ++ after)%string eqn:E; cbn [Js.includes].
    + destruct x; [reflexivity|discriminate].
    + rewrite <- E, startsWith_app. reflexivity.
  - rewrite append_cons. cbn [Js.includes]. rewrite IH. apply orb_true_r.
Qed.

Lemma append_assoc (a b c : string) : ((a ++ b) ++ c = a ++ b ++ c)%string.
Proof. induction a as [|x a IH]; [reflexivity|]. rewrite !append_cons. now rewrite IH. Qed.

Lemma append_empty (a : string) : (a ++ "")%string = a.
Proof. induction a as [|x a IH]; [reflexivity|]. rewrite append_cons. now rewrite IH. Qed.

(** Joining a list that contains [middle]: the joined [middle] is a part of
    the result. *)
Lemma concat_middle (before middle after : list string) :
  middle <> [] ->
  exists left right,
    String.concat " " (before ++ middle ++ after)
    = (left ++ String.concat " " middle ++ right)%string.
Proof.
  intros Hm.
  assert (Htail : exists right,
             String.concat " " (middle ++ after)
             = (String.concat " " middle ++ right)%string).
  { clear before. induction middle as [|w middle IH]; [congruence|].
    destruct middle as [|v middle].
    - destruct after as [|a after].
      + exists "". cbn. now rewrite append_empty.
      + exists (" " ++ String.concat " " (a :: after))%string. reflexivity.
    - destruct IH as (right & IH); [discriminate|].
      exists right. change ((w :: v :: middle) ++ after) with (w :: (v :: middle) ++ after).
      change (String.concat " " (w :: (v :: middle) ++ after))
        with (w ++ " " ++ String.concat " " ((v :: middle) ++ after))%string.
      rewrite IH.
      change (String.concat " " (w :: v :: middle))
        with (w ++ " " ++ String.concat " " (v :: middle))%string.
      now rewrite !append_assoc. }
  destruct Htail as (right & Htail).
  induction before as [|b before (left & right' & IH)].
  - exists "", right. now rewrite append_nil.
  - destruct (before ++ middle ++ after) as [|x rest] eqn:E.
    { destruct before, middle; try discriminate; congruence. }
    exists (b ++ " " ++ left)%string, right'.
    change ((b :: before) ++ middle ++ after) with (b :: (before ++ middle ++ after)).
    rewrite E. change (String.concat " " (b :: x :: rest))
      with (b ++ " " ++ String.concat " " (x :: rest))%string.
    rewrite IH. now rewrite !append_assoc.
Qed.

Lemma words_truthy (text : string) : Forall (fun w => w <> EmptyString) (words text).
Proof.
  unfold words. apply List.Forall_forall. intros w Hw. apply filter_In in Hw as [_ Hw].
  now destruct w.
Qed.

Lemma concat_truthy (pieces : list string) :
  pieces <> [] -> Forall (fun w => w <> EmptyString) pieces ->
  String.concat " " pieces <> EmptyString.
Proof.
  intros Hne Hall. destruct pieces as [|w pieces]; [congruence|].
  apply Forall_cons_1 in Hall as [Hw _]. destruct w as [|c w]; [congruence|].
  destruct pieces; discriminate.
Qed.

(** A label that contains, in sequence, the words of a label token is
    accepted. *)
Lemma token_accepts (m : ModelMatchers) (token label : string) (testid : option string)
    (before after : list string) :
  In token (labelTokens m) ->
  words token <> [] ->
  words label = before ++ words token ++ after ->
  optionMatches m {| dataTestid := testid; textContent := label |} = true.
Proof.
  intros Hin Hne Hlabel. unfold optionMatches. apply orb_true_iff. right.
  unfold matchesText. cbn [textContent]. apply existsb_exists.
  exists token. split; [exact Hin|]. rewrite !normalizeText_words, Hlabel.
  pose proof (concat_truthy (words token) Hne (words_truthy token)) as Hn.
  destruct (String.concat " " (words token)) as [|c n] eqn:E; [congruence|].
  cbn [Js.truthy]. cbv iota. rewrite <- E.
  destruct (concat_middle before (words token) after Hne) as (left & right & ->).
  apply includes_app.
Qed.

Lemma buildModelMatchersLiteral_base (target target' : string) :
  Js.toLowerCase (Js.trim target) = Js.toLowerCase (Js.trim target') ->
  buildModelMatchersLiteral target = buildModelMatchersLiteral target'.
Proof. intros H. unfold buildModelMatchersLiteral. now rewrite H. Qed.

(** C8 (as stated, refuted). Matching is not insensitive to punctuation nor
    to white space. For the target "5.1 Instant" the test id
    "chatgpt-5.1-instant" is accepted, and the test ids that differ from it
    only by the underscore or the space that stands for the hyphen are not:
    test ids are searched for the tokens as they are. For the target "GPT-4"
    the label "GPT-4" is accepted and "GPT4" is not; for the target "o3mini"
    the label "o3mini" is accepted and "o3 mini" is not. *)
Lemma matching_depends_on_separators :
  optionMatches instantMatchers (withTestid "chatgpt-5.1-instant") = true /\
  optionMatches instantMatchers (withTestid "chatgpt_5.1_instant") = false /\
  optionMatches instantMatchers (withTestid "chatgpt 5.1 instant") = false /\
  optionMatches (buildModelMatchersLiteral "GPT-4") (labelled "GPT-4") = true /\
  optionMatches (buildModelMatchersLiteral "GPT-4") (labelled "GPT4") = false /\
  optionMatches (buildModelMatchersLiteral "o3mini") (labelled "o3mini") = true /\
  optionMatches (buildModelMatchersLiteral "o3mini") (labelled "o3 mini") = false.
Proof. repeat split; vm_compute; reflexivity. Qed.

(** C8 (amended). The matcher built for "5.1 Instant" accepts the labels
    "ChatGPT 5.1 Instant" and "5.1Instant" and the test id
    "chatgpt-5.1-instant", and [findOption] returns such an entry from a
    menu. For every matcher and every entry: the case of the target, of the
    label and of the test id never changes the verdict, nor does white space
    around the target; [normalizeText] reduces a label to its words (the
    runs of letters and digits of the lower-cased label) joined by single
    spaces, so two labels with the same words get the same verdict, whatever
    white space or punctuation separates or surrounds the words; and a label
    that contains, in sequence, the words of the target is accepted. *)
Theorem model_matching_insensitive :
  matchesText instantMatchers (labelled "ChatGPT 5.1 Instant") = true /\
  matchesText instantMatchers (labelled "5.1Instant") = true /\
  matchesTestId instantMatchers (withTestid "chatgpt-5.1-instant") = true /\
  findOption instantMatchers
    [[labelled "GPT-4o"]; [labelled "Auto"; withTestid "chatgpt-5.1-instant"]]
    = Some (withTestid "chatgpt-5.1-instant") /\
  (forall target,
      buildModelMatchersLiteral (Js.toLowerCase target) = buildModelMatchersLiteral target /\
      buildModelMatchersLiteral (Js.trim target) = buildModelMatchersLiteral target) /\
  (forall m testid label,
      optionMatches m {| dataTestid := testid; textContent := Js.toLowerCase label |}
      = optionMatches m {| dataTestid := testid; textContent := label |}) /\
  (forall m testid label,
      optionMatches m {| dataTestid := Some (Js.toLowerCase testid); textContent := label |}
      = optionMatches m {| dataTestid := Some testid; textContent := label |}) /\
  (forall label, normalizeText label = String.concat " " (words label)) /\
  (forall m testid label label',
      words label = words label' ->
      optionMatches m {| dataTestid := testid; textContent := label |}
      = optionMatches m {| dataTestid := testid; textContent := label' |}) /\
  (forall target testid label before after,
      words target <> [] ->
      words label = before ++ words target ++ after ->
      optionMatches (buildModelMatchersLiteral target)
        {| dataTestid := testid; textContent := label |} = true).
Proof.
  split; [vm_compute; reflexivity|]. split; [vm_compute; reflexivity|].
  split; [vm_compute; reflexivity|]. split; [vm_compute; reflexivity|].
  split; [|split; [|split; [|split; [|split]]]].
  - intros target. split; apply buildModelMatchersLiteral_base.
    + now rewrite <- MatcherSpec.trim_toLowerCase, PageActionsSpec.toLowerCase_idem,
        MatcherSpec.trim_toLowerCase.
    + now rewrite MatcherSpec.trim_idem.
  - intros m testid label. unfold optionMatches, matchesText, matchesTestId; simpl.
    now rewrite PageActionsSpec.normalizeText_toLowerCase.
  - intros m testid label. unfold optionMatches, matchesText, matchesTestId; simpl.
    now rewrite PageActionsSpec.toLowerCase_idem.
  - exact normalizeText_words.
  - intros m testid label label' Hwords.
    unfold optionMatches, matchesText, matchesTestId. cbn [dataTestid textContent].
    now rewrite !(normalizeText_words label), !(normalizeText_words label'), Hwords.
  - intros target testid label before after Hne Hlabel.
    set (base := Js.toLowerCase (Js.trim target)).
    assert (Hwords : words base = words target).
    { subst base. now rewrite words_toLowerCase, words_trim. }
    assert (Hbase : base <> EmptyString).
    { intros H. rewrite H in Hwords. apply Hne. now rewrite <- Hwords. }
    destruct (MatcherSpec.labels_built target) as (_ & _ & Hin).
    apply (token_accepts _ base label testid before after (Hin Hbase)); now rewrite Hwords.
Qed.
Lemma model_matching_insensitive_witness :
  optionMatches (buildModelMatchersLiteral " O3-Mini ")
    {| dataTestid := None; textContent := "ChatGPT o3 mini (beta)" |} = true.
Proof.
  destruct model_matching_insensitive as (_ & _ & _ & _ & _ & _ & _ & _ & _ & Haccepts).
  apply (Haccepts " O3-Mini " None "ChatGPT o3 mini (beta)" ["chatgpt"] ["beta"]).
  - vm_compute. discriminate.
  - vm_compute. reflexivity.
Defined.

End NormalizeSpec.

(** ** Merging and addressing the cookies *)

Module CookieMergeSpec.
Import Effects EffectLemmas CookieSync.
Local Open Scope list_scope.

(** The key under which [readChromeCookies] merges a cookie. *)
Definition cookieKey (cookie : Cookies.Cookie) : string :=
  (default "" (Cookies.domain cookie) ++ ":" ++ default "" (Cookies.name cookie))%string.

(** The cookie has a non-empty name and a domain. *)
Definition named (cookie : Cookies.Cookie) : bool :=
  match Cookies.name cookie, Cookies.domain cookie with
  | Some (String _ _), Some _ => true
  | _, _ => false
  end.

Lemma normalizeCookie_named cookie host kept :
  Cookies.normalizeCookie cookie host = Some kept ->
  named kept = true /\ mergeKey kept host = cookieKey kept /\
  Cookies.domain kept = Some (default host (Cookies.domain cookie)) /\
  Cookies.name kept = Cookies.name cookie /\ Cookies.url kept = None.
Proof.
  unfold Cookies.normalizeCookie.
  destruct (Cookies.name cookie) as [[|c n]|] eqn:En; try discriminate.
  intros Hkept. apply (inj Some) in Hkept. subst kept. unfold named, mergeKey, cookieKey.
  cbn [Cookies.name Cookies.domain Cookies.url].
  assert (Hd : match Cookies.domain cookie with
               | Some d => if Js.startsWith "." d then d else d
               | None => host
               end = default host (Cookies.domain cookie)).
  { destruct (Cookies.domain cookie) as [d|]; [destruct (Js.startsWith "." d)|]; reflexivity. }
  rewrite Hd. repeat split.
Qed.

Definition hasKey (key : string) (merged : list (string * Cookies.Cookie)) : bool :=
  existsb (fun entry => String.eqb (fst entry) key) merged.

Lemma hasKey_false key merged :
  hasKey key merged = false <-> forall entry, In entry merged -> fst entry <> key.
Proof.
  unfold hasKey. split.
  - intros H entry Hin Heq.
    assert (existsb (fun e => String.eqb (fst e) key) merged = true); [|congruence].
    apply existsb_exists. exists entry. split; [exact Hin|]. now apply String.eqb_eq.
  - intros H. apply not_true_is_false. intros Hex.
    apply existsb_exists in Hex as (entry & Hin & Heq). apply String.eqb_eq in Heq.
    exact (H entry Hin Heq).
Qed.

(** What one pass over the raw cookies of a URL adds to the merged map. *)
Lemma merge_adds host raw : forall merged,
  exists added,
    fold_left (mergeCookie host) raw merged = merged ++ added /\
    (forall entry, In entry added -> hasKey (fst entry) merged = false) /\
    (forall entry, In entry added ->
       exists cookie, In cookie raw /\
         Cookies.normalizeCookie cookie host = Some (snd entry) /\
         fst entry = mergeKey (snd entry) host).
Proof.
  induction raw as [|cookie raw IH]; intros merged; simpl.
  - exists []. rewrite app_nil_r. repeat split; intros entry [].
  - unfold mergeCookie at 2.
    destruct (Cookies.normalizeCookie cookie host) as [kept|] eqn:En.
    + fold (hasKey (mergeKey kept host) merged).
      destruct (hasKey (mergeKey kept host) merged) eqn:Ek.
      * destruct (IH merged) as (added & Hfold & Hnew & Hfrom).
        exists added. repeat split; auto.
        intros entry Hin. destruct (Hfrom entry Hin) as (c & Hc & H). eauto.
      * destruct (IH (merged ++ [(mergeKey kept host, kept)])) as (added & Hfold & Hnew & Hfrom).
        exists ((mergeKey kept host, kept) :: added).
        split; [rewrite Hfold; now rewrite <- app_assoc|]. split.
        -- intros entry [<-|Hin]; [exact Ek|].
           specialize (Hnew entry Hin). unfold hasKey in *.
           rewrite existsb_app in Hnew. now apply orb_false_iff in Hnew as [Hnew _].
        -- intros entry [<-|Hin]; [exists cookie; auto|].
           destruct (Hfrom entry Hin) as (c & Hc & H). eauto.
    + destruct (IH merged) as (added & Hfold & Hnew & Hfrom).
      exists added. repeat split; auto.
      intros entry Hin. destruct (Hfrom entry Hin) as (c & Hc & H). eauto.
Qed.

Lemma merge_skips host raw key : forall merged,
  hasKey key merged = true ->
  exists added,
    fold_left (mergeCookie host) raw merged = merged ++ added /\
    forall entry, In entry added -> fst entry <> key.
Proof.
  intros merged Hkey. destruct (merge_adds host raw merged) as (added & Hfold & Hnew & _).
  exists added. split; [exact Hfold|]. intros entry Hin Heq.
  specialize (Hnew entry Hin). rewrite Heq in Hnew. congruence.
Qed.

(** X7. Merging the raw cookies of a URL leaves the cookies merged so far
    where they are. The first raw cookie that normalizes to a key not yet
    merged is entered under that key, and no other entry has that key:
    later cookies with the same domain and name are dropped. *)
Theorem first_cookie_wins (host : string) (merged : list (string * Cookies.Cookie))
    (pre post : list Cookies.Cookie) (cookie kept : Cookies.Cookie) :
  Cookies.normalizeCookie cookie host = Some kept ->
  hasKey (mergeKey kept host) merged = false ->
  (forall earlier other,
      In earlier pre -> Cookies.normalizeCookie earlier host = Some other ->
      mergeKey other host <> mergeKey kept host) ->
  exists before after,
    fold_left (mergeCookie host) (pre ++ cookie :: post) merged
    = merged ++ before ++ (mergeKey kept host, kept) :: after /\
    hasKey (mergeKey kept host) (before ++ after) = false.
Proof.
  intros Hkept Hfresh Hpre. set (key := mergeKey kept host) in *.
  rewrite fold_left_app. simpl.
  destruct (merge_adds host pre merged) as (before & Hfold & _ & Hfrom). rewrite Hfold.
  assert (Hbefore : hasKey key before = false).
  { apply hasKey_false. intros entry Hin Heq.
    destruct (Hfrom entry Hin) as (earlier & Hin' & Hn & Hk).
    apply (Hpre earlier (snd entry) Hin' Hn). now rewrite <- Hk. }
  assert (Hstep : mergeCookie host (merged ++ before) cookie
                  = (merged ++ before) ++ [(key, kept)]).
  { unfold mergeCookie. rewrite Hkept. fold key. fold (hasKey key (merged ++ before)).
    unfold hasKey in *. now rewrite existsb_app, Hfresh, Hbefore. }
  rewrite Hstep.
  destruct (merge_skips host post key ((merged ++ before) ++ [(key, kept)]))
    as (after & Hfold' & Hafter).
  { unfold hasKey. rewrite existsb_app. simpl. rewrite String.eqb_refl. apply orb_true_r. }
  exists before, after. split.
  - rewrite Hfold'. now rewrite <- !app_assoc.
  - unfold hasKey in *. rewrite existsb_app, Hbefore. simpl.
    apply (proj2 (hasKey_false key after)). exact Hafter.
Qed.

Lemma first_cookie_wins_witness :
  exists before after,
    fold_left (mergeCookie "chatgpt.com")
      ([Samples.plainCookie] ++ Samples.sessionCookie :: [Samples.sessionCookieOnce]) []
    = [] ++ before ++ (".chatgpt.com:session"%string, Samples.sessionCookieOnce) :: after /\
    hasKey ".chatgpt.com:session" (before ++ after) = false.
Proof.
  apply (first_cookie_wins "chatgpt.com" [] [Samples.plainCookie] [Samples.sessionCookieOnce]
           Samples.sessionCookie Samples.sessionCookieOnce).
  - reflexivity.
  - reflexivity.
  - intros earlier other [<-|[]] [= <-]. vm_compute. discriminate.
Defined.

(** The merged map: keys are pairwise distinct and every entry sits under
    the key of its cookie, which has a name and a domain. *)
Definition keyed (merged : list (string * Cookies.Cookie)) : Prop :=
  NoDup (map fst merged) /\
  Forall (fun entry => fst entry = cookieKey (snd entry) /\ named (snd entry) = true) merged.

Lemma mergeCookie_keyed host merged cookie :
  keyed merged -> keyed (mergeCookie host merged cookie).
Proof.
  intros [Hnd Hall]. unfold mergeCookie.
  destruct (Cookies.normalizeCookie cookie host) as [kept|] eqn:En; [|now split].
  fold (hasKey (mergeKey kept host) merged).
  destruct (hasKey (mergeKey kept host) merged) eqn:Ek; [now split|].
  apply normalizeCookie_named in En as (Hnamed & Hkey & _).
  split.
  - rewrite map_app. simpl. apply NoDup_app. split; [exact Hnd|].
    split; [|apply NoDup_singleton].
    intros key Hin Hkept. apply list_elem_of_singleton in Hkept. subst key.
    apply list_elem_of_In, in_map_iff in Hin as (entry & Heq & Hin).
    exact (proj1 (hasKey_false _ _) Ek entry Hin Heq).
  - apply Forall_app. split; [exact Hall|]. constructor; [|constructor]. simpl. auto.
Qed.

Lemma merge_keyed host raw : forall merged,
  keyed merged -> keyed (fold_left (mergeCookie host) raw merged).
Proof.
  induction raw as [|cookie raw IH]; intros merged H; simpl; [exact H|].
  apply IH. now apply mergeCookie_keyed.
Qed.

Lemma keyed_values merged :
  keyed merged ->
  NoDup (map cookieKey (map snd merged)) /\ forallb named (map snd merged) = true.
Proof.
  intros [Hnd Hall]. split.
  - replace (map cookieKey (map snd merged)) with (map fst merged); [exact Hnd|].
    rewrite map_map. apply map_ext_in. intros entry Hin.
    rewrite Forall_forall in Hall. apply list_elem_of_In in Hin. now destruct (Hall entry Hin).
  - apply forallb_forall. intros cookie Hin. apply in_map_iff in Hin as (entry & <- & Hin).
    rewrite Forall_forall in Hall. apply list_elem_of_In in Hin. now destruct (Hall entry Hin).
Qed.

(** A loop whose steps keep a property of the accumulator returns an
    accumulator with that property. *)
Lemma foldM_returns {A B} (I : B -> Prop) (f : B -> A -> M B) (l : list A) :
  (forall acc x st acc', I acc -> fst (f acc x st) = Ok acc' -> I acc') ->
  forall acc st r, I acc -> fst (foldM f l acc st) = Ok r -> I r.
Proof.
  intros Hf. induction l as [|x l IH]; intros acc st r Hacc; simpl.
  - now intros [= <-].
  - unfold bind. destruct (f acc x st) as [[acc'|e|] st1] eqn:Ef; try discriminate.
    apply IH. apply (Hf acc x st acc' Hacc). now rewrite Ef.
Qed.

Lemma readChromeCookies_keyed w url profile st cookies :
  fst (readChromeCookies w url profile st) = Ok cookies ->
  NoDup (map cookieKey cookies) /\ forallb named cookies = true.
Proof.
  unfold readChromeCookies, bind.
  destruct (loadChromeCookiesModule w loadFuel st) as [[chromeModule|e|] st1]; try discriminate.
  match goal with
  | |- context [foldM ?f ?l ?acc st1] =>
      pose proof (foldM_returns keyed f l) as Hloop;
      destruct (foldM f l acc st1) as [[merged|e|] st2] eqn:Efold; try discriminate
  end.
  intros [= <-]. apply keyed_values. eapply Hloop; [| |now rewrite Efold].
  - intros acc candidateUrl st' acc' Hacc. unfold bind.
    destruct (perform _ _ st') as [[[rawCookies|]|e|] st'']; try discriminate.
    + destruct (urlHostname w candidateUrl) as [host|]; [|discriminate].
      intros [= <-]. now apply merge_keyed.
    + now intros [= <-].
  - split; constructor.
Qed.

(** The events of reading the cookie store: no cookie is set. *)
Definition readEvent (e : Event) : bool :=
  match e with
  | ImportCookiesModule _ | SpawnRebuild _ _ _ | GetCookiesPromised _ _ _
  | Logged _ | MarkConnectionLost => true
  | _ => false
  end.

Lemma loadChromeCookiesModule_reads w fuel : emits readEvent (loadChromeCookiesModule w fuel).
Proof.
  induction fuel as [|fuel IH]; simpl.
  - intros st. now apply emitsAt_nil.
  - unfold attemptSqliteRebuild. repeat first [exact IH | emits_step].
Qed.

Lemma readChromeCookies_reads w url profile : emits readEvent (readChromeCookies w url profile).
Proof.
  unfold readChromeCookies. repeat first [apply loadChromeCookiesModule_reads | emits_step].
Qed.

Lemma readEvent_sets_nothing evs :
  forallb readEvent evs = true -> CookieSyncSpec.setCookieCalls evs = [].
Proof.
  induction evs as [|e evs IH]; simpl; [reflexivity|].
  intros H. apply andb_true_iff in H as [He Hrest].
  destruct e; simpl in *; auto; discriminate.
Qed.

Lemma withUrl_domain url cookie :
  Cookies.domain (withUrl url cookie) = Cookies.domain cookie.
Proof.
  unfold withUrl. destruct (Cookies.domain cookie) as [[|c d]|] eqn:Ed; try reflexivity.
  destruct (String.eqb (String c d) "localhost"); [reflexivity|].
  destruct (negb (Js.startsWith "." (String c d))); [reflexivity|exact Ed].
Qed.

Lemma withUrl_key url cookie : cookieKey (withUrl url cookie) = cookieKey cookie.
Proof. unfold cookieKey. now rewrite withUrl_domain, CookieSyncSpec.withUrl_name. Qed.

Lemma withUrl_named url cookie : named (withUrl url cookie) = named cookie.
Proof. unfold named. now rewrite withUrl_domain, CookieSyncSpec.withUrl_name. Qed.

(** X8. One call of [syncCookies] never hands two cookies with the same
    domain and name to [Network.setCookie], and every cookie it hands over
    has a non-empty name and a domain. *)
Theorem syncCookies_sets_distinct (w : World) (url : string) (profile : option string)
    (allowErrors : bool) (st : St) :
  let calls :=
    CookieSyncSpec.setCookieCalls
      (CookieSyncSpec.newEvents st (snd (syncCookies w url profile allowErrors st))) in
  NoDup (map cookieKey calls) /\ forallb named calls = true.
Proof.
  cbv zeta.
  destruct (readChromeCookies_reads w url profile st) as (evs1 & Ht1 & Hp1 & _).
  pose proof (readChromeCookies_keyed w url profile st) as Hkeyed.
  pose proof (readEvent_sets_nothing evs1 Hp1) as Hnone.
  unfold syncCookies, tryCatch, bind.
  destruct (readChromeCookies w url profile st) as [[cookies|error|] st1]; cbn [fst snd] in *.
  - destruct (Hkeyed cookies eq_refl) as [Hnd Hnamed].
    destruct cookies as [|cookie rest].
    { cbn [ret snd]. rewrite (CookieSyncSpec.newEvents_app st st1 evs1 Ht1), Hnone.
      split; [constructor|reflexivity]. }
    destruct (CookieSyncSpec.applyCookies_run w url (cookie :: rest) 0%Z st1)
      as (evs2 & Ht2 & Hcalls & Hres & _).
    destruct (foldM (applyCookie w url) (cookie :: rest) 0%Z st1) as [r st2].
    cbn [fst snd] in *. subst r. cbn [snd].
    rewrite (CookieSyncSpec.newEvents_app st st2 (evs1 ++ evs2))
      by (rewrite Ht2, Ht1; now rewrite app_assoc).
    rewrite CookieSyncSpec.setCookieCalls_app, Hnone, Hcalls.
    cbn [app]. split.
    + rewrite map_map. erewrite map_ext; [exact Hnd|]. intros c. apply withUrl_key.
    + rewrite forallb_forall in *. intros c Hin. apply in_map_iff in Hin as (c' & <- & Hin).
      rewrite withUrl_named. auto.
  - destruct allowErrors; simpl.
    + rewrite (CookieSyncSpec.newEvents_app st _
                 (evs1 ++ [Logged (LogCookieSyncOverride (messageOf error))]))
        by (simpl; rewrite Ht1; now rewrite app_assoc).
      rewrite CookieSyncSpec.setCookieCalls_app, Hnone. split; [constructor|reflexivity].
    + rewrite (CookieSyncSpec.newEvents_app st _ evs1 Ht1), Hnone.
      split; [constructor|reflexivity].
  - rewrite (CookieSyncSpec.newEvents_app st _ evs1 Ht1), Hnone. split; [constructor|reflexivity].
Qed.

(** X9. The cookie handed to [Network.setCookie] is the normalized cookie
    with an address: its domain is the raw cookie's domain, or the host of
    the URL it was read for when the raw cookie has none; it carries the
    synchronized URL when that domain is empty or "localhost", the URL
    "https://<domain>" when the domain does not start with a dot, and no URL
    when it does. *)
Theorem applied_cookie_address (url host : string) (cookie kept : Cookies.Cookie) :
  Cookies.normalizeCookie cookie host = Some kept ->
  let domain := default host (Cookies.domain cookie) in
  let applied := withUrl url kept in
  Cookies.domain applied = Some domain /\
  Cookies.name applied = Cookies.name cookie /\
  Cookies.url applied
  = (if String.eqb domain "" || String.eqb domain "localhost" then Some url
     else if Js.startsWith "." domain then None
     else Some ("https://" ++ domain)%string).
Proof.
  intros Hkept. apply normalizeCookie_named in Hkept as (_ & _ & Hd & Hn & Hu).
  cbv zeta. set (domain := default host (Cookies.domain cookie)) in *.
  unfold withUrl. rewrite Hd.
  destruct domain as [|c d]; [repeat split; assumption|].
  assert (Hempty : String.eqb (String c d) "" = false) by reflexivity.
  rewrite Hempty. cbn [orb].
  destruct (String.eqb (String c d) "localhost") eqn:El; [repeat split; assumption|].
  destruct (Js.startsWith "." (String c d)) eqn:Es; cbn [negb];
    repeat split; assumption.
Qed.

Lemma applied_cookie_address_witness :
  Cookies.url (withUrl "https://chatgpt.com/" Samples.sessionCookieOnce) = None /\
  Cookies.domain (withUrl "https://chatgpt.com/" Samples.sessionCookieOnce)
  = Some ".chatgpt.com"%string.
Proof.
  destruct (applied_cookie_address "https://chatgpt.com/" "chatgpt.com" Samples.sessionCookie
              Samples.sessionCookieOnce eq_refl) as (Hd & _ & Hu).
  split; [exact Hu|exact Hd].
Defined.

End CookieMergeSpec.

(** ** From the command-line flags to the resolved configuration *)

Module BrowserConfigSpec.
Import BrowserConfig.

(** The flag was given and is true. *)
Definition given (flag : option bool) : bool :=
  match flag with
  | Some true => true
  | _ => false
  end.

(** X10. The configuration a run resolves from command-line flags: the
    desired model is never set, whatever [--model] says; the Chrome profile
    is the given one or "Default", never absent; a boolean flag switches its
    option only when it is given as true (cookie sync is on unless
    [browserNoCookieSync] is true); the URL is the given one or the ChatGPT
    URL; a timeout is parsed from its text, and an absent or empty text
    gives the default of 900000 ms (30000 ms for the input timeout). *)
Theorem flags_resolved (w : Effects.World) (parseDuration : string -> Z -> Z)
    (options : BrowserFlagOptions) :
  let config :=
    Engine.resolveBrowserConfig w (Some (buildBrowserConfig parseDuration options)) in
  Engine.desiredModel config = None /\
  Engine.chromeProfile config = Some (default "Default" (browserChromeProfile options)) /\
  Engine.chromePath config = browserChromePath options /\
  Engine.url config = default (Effects.CHATGPT_URL w) (browserUrl options) /\
  Engine.cookieSync config = negb (given (browserNoCookieSync options)) /\
  Engine.headless config = given (browserHeadless options) /\
  Engine.keepBrowser config = given (browserKeepBrowser options) /\
  Engine.hideWindow config = given (browserHideWindow options) /\
  Engine.debug config = given (verbose options) /\
  Engine.allowCookieErrors config = given (browserAllowCookieErrors options) /\
  Engine.timeoutMs config
  = match browserTimeout options with
    | None | Some EmptyString => 900000%Z
    | Some text => parseDuration text 900000%Z
    end /\
  Engine.inputTimeoutMs config
  = match browserInputTimeout options with
    | None | Some EmptyString => 30000%Z
    | Some text => parseDuration text 30000%Z
    end.
Proof.
  cbv zeta. unfold Engine.resolveBrowserConfig, buildBrowserConfig, whenSet, parsed, given.
  cbn [Engine.desiredModel Engine.chromeProfile Engine.chromePath Engine.url
       Engine.cookieSync Engine.headless Engine.keepBrowser Engine.hideWindow
       Engine.debug Engine.allowCookieErrors Engine.timeoutMs Engine.inputTimeoutMs
       Automation.desiredModel Automation.chromeProfile Automation.chromePath Automation.url
       Automation.cookieSync Automation.headless Automation.keepBrowser Automation.hideWindow
       Automation.debug Automation.allowCookieErrors Automation.timeoutMs
       Automation.inputTimeoutMs].
  repeat split.
  - destruct (browserNoCookieSync options) as [[|]|]; reflexivity.
  - destruct (browserHeadless options) as [[|]|]; reflexivity.
  - destruct (browserKeepBrowser options) as [[|]|]; reflexivity.
  - destruct (browserHideWindow options) as [[|]|]; reflexivity.
  - destruct (verbose options) as [[|]|]; reflexivity.
  - destruct (browserAllowCookieErrors options) as [[|]|]; reflexivity.
  - destruct (browserTimeout options) as [[|c t]|]; reflexivity.
  - destruct (browserInputTimeout options) as [[|c t]|]; reflexivity.
Qed.

End BrowserConfigSpec.

(** ** Loading the cookie module *)

Module CookieLoadSpec.
Import Effects EffectLemmas CookieSync.
Local Open Scope list_scope.

(** The events of one awaited call. *)
Lemma perform_events {T} (answer : nat -> Outcome T) (ev : Outcome T -> Event) st :
  exists pre,
    trace (snd (perform answer ev st)) = trace st ++ pre ++ [ev (answer (length (trace st)))] /\
    (pre = [] \/ pre = [MarkConnectionLost]).
Proof.
  destruct (perform_run answer ev st) as (_ & _ & _ & _ & _ & [H|H]).
  - destruct H as (_ & _ & Ht & _). exists [MarkConnectionLost]. auto.
  - destruct H as (_ & Ht & _). exists []. auto.
Qed.

(** X11. When the import of the cookie module fails with an error that is
    not a sqlite binding error (its message matches none of the three
    patterns, or the thrown value is not an Error at all), no rebuild is
    attempted: the module variable that allows one attempt per process is
    left as it was, the manual-rebuild hint is logged, and the load throws
    the ChromeCookieSyncError "Unable to load chrome-cookies-secure. Cookie
    copy is required."; [syncCookies] throws it too, or returns 0 under the
    override. *)
Theorem unrelated_load_failure (w : World) (url : string) (profile : option string)
    (st : St) (error : Thrown) :
  settled (importCookiesModule w (length (trace st))) = Rejected error ->
  isSqliteBindingError error = false ->
  let load := loadChromeCookiesModule w loadFuel st in
  fst load = Throw (CookieSyncErr unableToLoad) /\
  attemptedSqliteRebuild (snd load) = attemptedSqliteRebuild st /\
  (exists pre,
      CookieSyncSpec.newEvents st (snd load)
      = pre ++ [ImportCookiesModule (importCookiesModule w (length (trace st)));
                Logged (WarnLoadFailed error); Logged WarnRebuildManually] /\
      (pre = [] \/ pre = [MarkConnectionLost])) /\
  fst (syncCookies w url profile false st) = Throw (CookieSyncErr unableToLoad) /\
  fst (syncCookies w url profile true st) = Ok 0%Z /\
  (forall text, isSqliteBindingError (NonError text) = false).
Proof.
  intros Himport Hother. cbv zeta.
  assert (Hload : exists st',
             loadChromeCookiesModule w loadFuel st = (Throw (CookieSyncErr unableToLoad), st') /\
             attemptedSqliteRebuild st' = attemptedSqliteRebuild st /\
             exists pre,
               trace st' = trace st ++ pre
                 ++ [ImportCookiesModule (importCookiesModule w (length (trace st)));
                     Logged (WarnLoadFailed error); Logged WarnRebuildManually] /\
               (pre = [] \/ pre = [MarkConnectionLost])).
  { unfold loadFuel. rewrite CookieSyncSpec.loadChromeCookiesModule_unfold.
    destruct (perform_run (importCookiesModule w) ImportCookiesModule st)
      as (Hr & _ & Hatt & _ & _ & _).
    destruct (perform_events (importCookiesModule w) ImportCookiesModule st)
      as (pre & Ht & Hpre).
    destruct (perform (importCookiesModule w) ImportCookiesModule st) as [r st1].
    cbn [fst snd] in *. rewrite Himport in Hr. simpl in Hr. subst r.
    cbv zeta. rewrite Hother. eexists. split; [reflexivity|].
    split; [exact Hatt|]. exists pre. split; [|exact Hpre].
    simpl. rewrite Ht. now rewrite <- !app_assoc. }
  destruct Hload as (st' & Hload & Hatt & pre & Ht & Hpre).
  rewrite Hload. cbn [fst snd].
  split; [reflexivity|]. split; [exact Hatt|]. split.
  { exists pre. split; [|exact Hpre]. now apply CookieSyncSpec.newEvents_app. }
  unfold syncCookies, readChromeCookies, tryCatch, bind. rewrite Hload.
  repeat split.
Qed.

Lemma unrelated_load_failure_witness :
  fst (syncCookies (Samples.world Samples.noEnv (fun _ => Samples.rejects "Cannot find module")
                      (fun _ => Samples.quiet Samples.hiAnswer)
                      (fun _ => Samples.quiet None))
         "https://chatgpt.com/" None false processStart)
  = Throw (CookieSyncErr unableToLoad).
Proof.
  apply (unrelated_load_failure
           (Samples.world Samples.noEnv (fun _ => Samples.rejects "Cannot find module")
              (fun _ => Samples.quiet Samples.hiAnswer) (fun _ => Samples.quiet None))
           "https://chatgpt.com/" None processStart (Err "Cannot find module")).
  - reflexivity.
  - vm_compute. reflexivity.
Defined.

(** X12. When the import of the cookie module succeeds, the module is used
    if it or its default export has [getCookiesPromised]; otherwise a
    warning is logged, the load throws the ChromeCookieSyncError
    "chrome-cookies-secure did not expose getCookiesPromised", and no cookie
    is read. In both cases no rebuild is attempted. *)
Theorem imported_module_checked (w : World) (url : string) (profile : option string)
    (st : St) (imported : Imported) :
  settled (importCookiesModule w (length (trace st))) = Resolved imported ->
  let load := loadChromeCookiesModule w loadFuel st in
  attemptedSqliteRebuild (snd load) = attemptedSqliteRebuild st /\
  CookieSyncSpec.countIf CookieSyncSpec.spawnEvent (CookieSyncSpec.newEvents st (snd load)) = 0 /\
  if hasGetCookiesPromised imported || defaultHasGetCookiesPromised imported
  then fst load = Ok SecureModule
  else
    fst load
    = Throw (CookieSyncErr "chrome-cookies-secure did not expose getCookiesPromised") /\
    In (Logged WarnNoGetter) (CookieSyncSpec.newEvents st (snd load)) /\
    fst (readChromeCookies w url profile st) = Throw (CookieSyncErr
          "chrome-cookies-secure did not expose getCookiesPromised") /\
    trace (snd (readChromeCookies w url profile st)) = trace (snd load).
Proof.
  intros Himport. cbv zeta.
  pose proof (CookieSyncSpec.loadChromeCookiesModule_unfold w 1 st) as Hunfold.
  fold loadFuel in Hunfold.
  destruct (perform_run (importCookiesModule w) ImportCookiesModule st)
    as (Hr & _ & Hatt & _ & _ & _).
  destruct (perform_events (importCookiesModule w) ImportCookiesModule st)
    as (pre & Ht & Hpre).
  destruct (perform (importCookiesModule w) ImportCookiesModule st) as [r st1].
  cbn [fst snd] in *. rewrite Himport in Hr. simpl in Hr. subst r.
  unfold resolveChromeCookieModule in Hunfold.
  assert (Hquiet : CookieSyncSpec.countIf CookieSyncSpec.spawnEvent
                     (pre ++ [ImportCookiesModule (importCookiesModule w (length (trace st)))])
                   = 0).
  { destruct Hpre as [-> | ->]; reflexivity. }
  destruct (hasGetCookiesPromised imported); [|destruct (defaultHasGetCookiesPromised imported)];
    cbn [orb]; rewrite Hunfold; cbn [fst snd].
  - rewrite (CookieSyncSpec.newEvents_app st st1 _ Ht). auto.
  - rewrite (CookieSyncSpec.newEvents_app st st1 _ Ht). auto.
  - assert (Hnew : CookieSyncSpec.newEvents st (addEvent (Logged WarnNoGetter) st1)
                   = (pre ++ [ImportCookiesModule (importCookiesModule w (length (trace st)))])
                       ++ [Logged WarnNoGetter]).
    { apply CookieSyncSpec.newEvents_app. simpl. rewrite Ht. now rewrite <- !app_assoc. }
    rewrite Hnew. split; [exact Hatt|]. split.
    { rewrite CookieSyncSpec.countIf_app, Hquiet. reflexivity. }
    split; [reflexivity|]. split; [apply in_app_iff; right; now left|].
    unfold readChromeCookies, bind. rewrite Hunfold. split; reflexivity.
Qed.

Lemma imported_module_checked_witness :
  fst (loadChromeCookiesModule Samples.calm loadFuel processStart) = Ok SecureModule.
Proof.
  destruct (imported_module_checked Samples.calm "https://chatgpt.com/" None processStart
              Samples.goodModule eq_refl) as (_ & _ & H).
  exact H.
Defined.

End CookieLoadSpec.

(** ** Launching Chrome and cleaning up *)

Module LifecycleSpec.
Import Effects EffectLemmas Engine.
Local Open Scope list_scope.

(** The cleanup actions of the [finally] block. *)
Inductive Cleanup : Type :=
  | Closed
  | Unhooked
  | Killed
  | Removed (userDataDir : string).

Definition cleanupOf (e : Event) : option Cleanup :=
  match e with
  | ClientClose _ => Some Closed
  | RemoveTerminationHooks => Some Unhooked
  | ChromeKill _ => Some Killed
  | RmUserDataDir dir _ => Some (Removed dir)
  | _ => None
  end.

Fixpoint cleanup (evs : list Event) : list Cleanup :=
  match evs with
  | [] => []
  | e :: rest =>
      match cleanupOf e with
      | Some action => action :: cleanup rest
      | None => cleanup rest
      end
  end.

(** The directories removed, in order. *)
Fixpoint removals (evs : list Event) : list string :=
  match evs with
  | [] => []
  | RmUserDataDir dir _ :: rest => dir :: removals rest
  | _ :: rest => removals rest
  end.

Definition isUnhook (e : Event) : bool :=
  match e with RemoveTerminationHooks => true | _ => false end.

Lemma cleanup_app evs1 evs2 : cleanup (evs1 ++ evs2) = cleanup evs1 ++ cleanup evs2.
Proof.
  induction evs1 as [|e evs1 IH]; simpl; [reflexivity|].
  destruct (cleanupOf e); simpl; now rewrite IH.
Qed.

Lemma removals_app evs1 evs2 : removals (evs1 ++ evs2) = removals evs1 ++ removals evs2.
Proof.
  induction evs1 as [|e evs1 IH]; simpl; [reflexivity|].
  destruct e; simpl; now rewrite ?IH.
Qed.

Definition noCleanup (e : Event) : bool :=
  match cleanupOf e with None => true | Some _ => false end.

Lemma noCleanup_facts evs :
  forallb noCleanup evs = true ->
  cleanup evs = [] /\ removals evs = [] /\ CookieSyncSpec.countIf isUnhook evs = 0.
Proof.
  induction evs as [|e evs IH]; simpl; [auto|].
  intros H. apply andb_true_iff in H as [He Hrest]. destruct (IH Hrest) as (H1 & H2 & H3).
  destruct e; simpl in *; auto; discriminate.
Qed.

(** [resolved o]: the awaited call did not reject. *)
Definition resolved {T} (o : Outcome T) : bool :=
  match settled o with Resolved _ => true | Rejected _ => false end.

(** The start of a run with a prompt: the profile directory is made, Chrome
    is launched and the termination hooks are registered, each at most
    once, and the first failure of the first two ends the run. *)
Lemma run_setup w options promptText st :
  option_map Js.trim (prompt options) = Some promptText ->
  promptText <> EmptyString ->
  let config := resolveBrowserConfig w (config options) in
  let logs := if tracing w config then [Logged (LogConfig (String.length promptText))]
              else [] in
  exists made,
    match settled made with
    | Rejected e =>
        fst (runBrowserMode w options st) = Throw e /\
        trace (snd (runBrowserMode w options st)) = trace st ++ logs ++ [Mkdtemp made]
    | Resolved dir =>
        exists launched,
          let setup := [Mkdtemp made; Logged (LogCreatedProfile dir); LaunchChrome dir launched] in
          match settled launched with
          | Rejected e =>
              fst (runBrowserMode w options st) = Throw e /\
              trace (snd (runBrowserMode w options st)) = trace st ++ logs ++ setup
          | Resolved chrome =>
              exists hooked st1 startedAt,
                trace st1
                = trace st ++ logs ++ setup
                    ++ [RegisterTerminationHooks (keepBrowser config) hooked] /\
                client st1 = None /\
                connectionClosedUnexpectedly st1 = false /\
                runBrowserMode w options st
                = tryFinally
                    (tryCatch
                       (tryBlock w options config promptText
                          (default [] (attachments options)) chrome dir startedAt)
                       (onFailure w config))
                    (teardown w config chrome dir (resolved hooked) startedAt) st1
          end
    end.
Proof.
  intros Hp Hne config logs.
  remember (runBrowserMode w options st) as run eqn:Erun.
  unfold runBrowserMode in Erun. rewrite Hp in Erun.
  destruct promptText as [|c text]; [congruence|].
  cbv zeta in Erun. fold config in Erun.
  unfold bind at 1, modify at 1 in Erun. cbv beta iota in Erun.
  unfold bind at 1 in Erun.
  assert (Hlog : exists st0,
             when (tracing w config) (log (LogConfig (String.length (String c text))))
               (declareLocals st) = (Ok tt, st0) /\
             trace st0 = trace st ++ logs /\
             client st0 = None /\ connectionClosedUnexpectedly st0 = false).
  { subst logs. destruct (tracing w config); simpl.
    - eexists. split; [reflexivity|]. simpl. repeat split.
    - exists (declareLocals st). simpl. rewrite app_nil_r. repeat split. }
  destruct Hlog as (st0 & Hwhen & Ht0 & Hc0 & Hf0).
  rewrite Hwhen in Erun. unfold bind at 1 in Erun.
  assert (Hperform : forall T (answer : nat -> Outcome T) ev st',
             client st' = None ->
             perform answer ev st'
             = (resOf (settled (answer (length (trace st')))),
                addEvent (ev (answer (length (trace st')))) st')).
  { intros T answer ev st' Hc. unfold perform. rewrite Hc. reflexivity. }
  rewrite (Hperform _ _ _ _ Hc0) in Erun.
  exists (mkdtemp w (length (trace st0))).
  destruct (settled (mkdtemp w (length (trace st0)))) as [dir|e] eqn:Emk; cbn [resOf] in Erun.
  2:{ subst run. simpl. rewrite Ht0, <- app_assoc. split; reflexivity. }
  unfold bind at 1, log at 1, emit at 1, modify at 1 in Erun. cbv beta iota in Erun.
  unfold bind at 1 in Erun. rewrite Hperform in Erun by (simpl; exact Hc0).
  match type of Erun with
  | context [launchChrome w dir ?n] => exists (launchChrome w dir n);
      destruct (settled (launchChrome w dir n)) as [chrome|e] eqn:El
  end; cbn [resOf] in Erun.
  2:{ subst run. simpl. rewrite Ht0, <- !app_assoc. split; reflexivity. }
  unfold bind at 1, tryCatch at 1, bind at 1 in Erun.
  rewrite Hperform in Erun by (simpl; exact Hc0).
  match type of Erun with
  | context [registerTerminationHooks w ?k ?n] => exists (registerTerminationHooks w k n);
      unfold resolved;
      destruct (settled (registerTerminationHooks w k n)) as [u|e] eqn:Er
  end; cbn [resOf] in Erun; unfold ret at 1 in Erun; cbv beta iota in Erun;
    unfold bind at 1, now at 1 in Erun; cbv beta iota in Erun.
  - eexists _, _. split; [|split; [|split; [|exact Erun]]].
    + simpl. rewrite Ht0, <- !app_assoc. reflexivity.
    + exact Hc0.
    + exact Hf0.
  - eexists _, _. split; [|split; [|split; [|exact Erun]]].
    + simpl. rewrite Ht0, <- !app_assoc. reflexivity.
    + exact Hc0.
    + exact Hf0.
Qed.

(** What the [finally] block does. The profile directory is removed exactly
    when the browser is not kept and the hooks are removed exactly when they
    were registered, whatever happened before; when the connection was not
    lost before the block nor during it, the client (if any) is closed
    first, then the hooks are removed, then Chrome is killed and the
    directory removed. *)
Lemma teardown_run w config chrome dir hooks startedAt st :
  exists evs,
    trace (snd (teardown w config chrome dir hooks startedAt st)) = trace st ++ evs /\
    removals evs = (if keepBrowser config then [] else [dir]) /\
    CookieSyncSpec.countIf isUnhook evs = (if hooks then 1 else 0) /\
    (connectionClosedUnexpectedly st = false -> existsb isMark evs = false ->
     cleanup evs
     = (match client st with Some _ => [Closed] | None => [] end)
         ++ (if hooks then [Unhooked] else [])
         ++ (if keepBrowser config then [] else [Killed; Removed dir])).
Proof.
  unfold teardown, bind, tryCatch, get, when, emit, log, modify, now, ret, perform.
  cbv beta iota zeta.
  destruct (keepBrowser config), hooks, (connectionClosedUnexpectedly st) eqn:Ef,
    (client st) eqn:Ec; cbn -[app length]; rewrite ?Ef, ?Ec; cbn -[app length];
    repeat (match goal with
            | |- context [fired ?o] => destruct (fired o) eqn:?
            | |- context [settled ?o] => destruct (settled o) eqn:?
            end; cbn -[app length]; rewrite ?Ef, ?Ec; cbn -[app length]);
    eexists; (split; [rewrite <- ?app_assoc; try reflexivity; now rewrite app_nil_r|]);
    cbn; repeat split; intros; try reflexivity; try discriminate; try congruence.
Qed.

(** The trace of the try/catch/finally statement, block by block. *)
Lemma statement_run w options config promptText attachments chrome dir hooks startedAt st1 :
  let body := tryBlock w options config promptText attachments chrome dir startedAt st1 in
  let whole :=
    tryFinally
      (tryCatch (tryBlock w options config promptText attachments chrome dir startedAt)
         (onFailure w config))
      (teardown w config chrome dir hooks startedAt) st1 in
  exists evsB evsH st3,
    trace (snd body) = trace st1 ++ evsB /\
    forallb EngineSpec.bodyEvent evsB = true /\
    trace st3 = trace (snd body) ++ evsH /\
    forallb EngineSpec.quietEvent evsH = true /\
    snd whole = snd (teardown w config chrome dir hooks startedAt st3) /\
    match fst body with
    | Ok result => fst whole = Ok result /\ st3 = snd body
    | Throw error =>
        st3 = snd (onFailure w config error (snd body)) /\
        fst whole = fst (onFailure w config error (snd body))
    | OutOfFuel => False
    end.
Proof.
  cbv zeta.
  destruct (EngineSpec.tryBlock_emits w options config promptText attachments chrome dir
              startedAt st1) as (evsB & HtB & HpB & _).
  destruct (EngineSpec.statement_cases w options config promptText attachments chrome dir hooks
              startedAt st1) as [(result & Hbody & Hwhole)|(error & Hbody & Hwhole)];
    cbv zeta in Hwhole; rewrite Hwhole, Hbody; cbn [fst snd].
  - exists evsB, [], (snd (tryBlock w options config promptText attachments chrome dir
                            startedAt st1)).
    rewrite app_nil_r. repeat split; auto.
  - destruct (EngineSpec.onFailure_run w config error
                (snd (tryBlock w options config promptText attachments chrome dir
                        startedAt st1))) as (evsH & HtH & HpH & _).
    exists evsB, evsH. eexists. repeat split; eauto.
Qed.

Lemma bodyEvent_noCleanup e : EngineSpec.bodyEvent e = true -> noCleanup e = true.
Proof. destruct e; simpl; auto; discriminate. Qed.

Lemma quietEvent_noCleanup e : EngineSpec.quietEvent e = true -> noCleanup e = true.
Proof. destruct e; simpl; auto; discriminate. Qed.

(** The termination hooks were registered. *)
Definition hooksRegistered (evs : list Event) : bool :=
  existsb (fun e => match e with
                    | RegisterTerminationHooks _ o => resolved o
                    | _ => false
                    end) evs.

Definition isLaunch (e : Event) : bool :=
  match e with LaunchChrome _ _ => true | _ => false end.

Definition isRegistration (e : Event) : bool :=
  match e with RegisterTerminationHooks _ _ => true | _ => false end.

(** Events that are neither a launch nor a registration of the hooks. *)
Definition afterSetup (e : Event) : bool := negb (isLaunch e) && negb (isRegistration e).

Lemma afterSetup_facts evs :
  forallb afterSetup evs = true ->
  hooksRegistered evs = false /\ forall dir o, ~ In (LaunchChrome dir o) evs.
Proof.
  induction evs as [|e evs IH]; simpl; [auto|].
  intros H. apply andb_true_iff in H as [He Hrest]. destruct (IH Hrest) as (H1 & H2).
  split.
  - unfold hooksRegistered in *. simpl. rewrite H1. destruct e; simpl in *; auto; discriminate.
  - intros dir o [Heq|Hin]; [subst e; discriminate|]. exact (H2 dir o Hin).
Qed.

Lemma bodyEvent_afterSetup e : EngineSpec.bodyEvent e = true -> afterSetup e = true.
Proof. destruct e; simpl; auto; discriminate. Qed.

Lemma quietEvent_afterSetup e : EngineSpec.quietEvent e = true -> afterSetup e = true.
Proof. destruct e; simpl; auto; discriminate. Qed.

Lemma teardownEvent_afterSetup e : EngineSpec.teardownEvent e = true -> afterSetup e = true.
Proof. destruct e; simpl; auto; discriminate. Qed.

Lemma hooksRegistered_app evs1 evs2 :
  hooksRegistered (evs1 ++ evs2) = hooksRegistered evs1 || hooksRegistered evs2.
Proof. apply existsb_app. Qed.

(** A run in which Chrome was launched: its trace and its parts. *)
Inductive Launched (w : World) (options : BrowserRunOptions) (st : St)
    (dir : string) (chrome : Chrome) : Prop :=
| launched_run (logs : list Event) (made : Outcome string) (launch : Outcome Chrome)
    (hooked : Outcome unit) (evsB evsH evsT : list Event) (st1 st3 : St) (startedAt : Z)
    (promptText : string)
    (Hmade : settled made = Resolved dir)
    (Hlaunch : settled launch = Resolved chrome)
    (Hlogs : forallb noCleanup logs = true /\ forallb afterSetup logs = true /\
             existsb isMark logs = false /\ forallb EngineSpec.setupEvent logs = true)
    (Htrace :
       trace (snd (runBrowserMode w options st))
       = trace st ++ logs
           ++ [Mkdtemp made; Logged (LogCreatedProfile dir); LaunchChrome dir launch;
               RegisterTerminationHooks
                 (keepBrowser (resolveBrowserConfig w (config options))) hooked]
           ++ evsB ++ evsH ++ evsT)
    (Hentered : trace st1
                = trace st ++ logs
                    ++ [Mkdtemp made; Logged (LogCreatedProfile dir); LaunchChrome dir launch;
                        RegisterTerminationHooks
                          (keepBrowser (resolveBrowserConfig w (config options))) hooked] /\
                client st1 = None /\ connectionClosedUnexpectedly st1 = false)
    (Hbody : trace (snd (tryBlock w options (resolveBrowserConfig w (config options))
                           promptText (default [] (attachments options)) chrome dir
                           startedAt st1)) = trace st1 ++ evsB /\
             forallb EngineSpec.bodyEvent evsB = true)
    (Hhandler : trace st3
                = trace (snd (tryBlock w options (resolveBrowserConfig w (config options))
                                promptText (default [] (attachments options)) chrome dir
                                startedAt st1)) ++ evsH /\
                forallb EngineSpec.quietEvent evsH = true)
    (Hresult :
       match fst (tryBlock w options (resolveBrowserConfig w (config options))
                    promptText (default [] (attachments options)) chrome dir startedAt st1) with
       | Ok result =>
           fst (runBrowserMode w options st) = Ok result /\
           st3 = snd (tryBlock w options (resolveBrowserConfig w (config options))
                        promptText (default [] (attachments options)) chrome dir startedAt st1)
       | Throw error =>
           st3 = snd (onFailure w (resolveBrowserConfig w (config options)) error
                        (snd (tryBlock w options (resolveBrowserConfig w (config options))
                                promptText (default [] (attachments options)) chrome dir
                                startedAt st1))) /\
           fst (runBrowserMode w options st)
           = fst (onFailure w (resolveBrowserConfig w (config options)) error
                    (snd (tryBlock w options (resolveBrowserConfig w (config options))
                            promptText (default [] (attachments options)) chrome dir
                            startedAt st1)))
       | OutOfFuel => False
       end)
    (Hteardown :
       trace (snd (teardown w (resolveBrowserConfig w (config options)) chrome dir
                     (resolved hooked) startedAt st3))
       = trace st3 ++ evsT /\
       forallb EngineSpec.teardownEvent evsT = true).

(** A launch event in the trace of a run. *)
Lemma launch_cases w options st dir launched :
  trace st = [] ->
  In (LaunchChrome dir launched) (trace (snd (runBrowserMode w options st))) ->
  match settled launched with
  | Rejected e =>
      fst (runBrowserMode w options st) = Throw e /\
      cleanup (trace (snd (runBrowserMode w options st))) = [] /\
      exists made, In (Mkdtemp made) (trace (snd (runBrowserMode w options st))) /\
                   settled made = Resolved dir
  | Resolved chrome => Launched w options st dir chrome
  end.
Proof.
  intros Hfresh Hin.
  destruct (option_map Js.trim (prompt options)) as [promptText|] eqn:Hp.
  2:{ exfalso. unfold runBrowserMode in Hin. rewrite Hp in Hin. simpl in Hin.
      now rewrite Hfresh in Hin. }
  destruct (string_dec promptText EmptyString) as [->|Hne].
  { exfalso. unfold runBrowserMode in Hin. rewrite Hp in Hin. simpl in Hin.
    now rewrite Hfresh in Hin. }
  destruct (run_setup w options promptText st Hp Hne) as (made & Hsetup).
  cbv zeta in Hsetup.
  set (config := resolveBrowserConfig w (Engine.config options)) in *.
  set (logs := if tracing w config then [Logged (LogConfig (String.length promptText))]
               else []) in *.
  assert (Hlogs : forallb noCleanup logs = true /\ forallb afterSetup logs = true /\
                  existsb isMark logs = false /\ forallb EngineSpec.setupEvent logs = true).
  { subst logs. destruct (tracing w config); repeat split. }
  assert (Hnolaunch : ~ In (LaunchChrome dir launched) logs).
  { subst logs. destruct (tracing w config); simpl; intuition discriminate. }
  destruct (settled made) as [dir'|e] eqn:Emade.
  2:{ exfalso. destruct Hsetup as [_ Ht]. rewrite Ht, Hfresh in Hin. cbn [app] in Hin.
      apply in_app_iff in Hin as [Hin|[Hin|[]]]; [auto|discriminate]. }
  destruct Hsetup as (launched' & Hsetup).
  destruct (settled launched') as [chrome|e] eqn:Elaunched.
  - destruct Hsetup as (hooked & st1 & startedAt & Ht1 & Hc1 & Hf1 & Hrun).
    destruct (statement_run w options config promptText (default [] (attachments options))
                chrome dir' (resolved hooked) startedAt st1)
      as (evsB & evsH & st3 & HtB & HpB & HtH & HpH & Hwhole & Hres).
    cbv zeta in Hwhole, Hres. rewrite <- Hrun in Hwhole, Hres.
    destruct (EngineSpec.teardown_emits w config chrome dir' (resolved hooked) startedAt st3)
      as (evsT & HtT & HpT & _).
    assert (Htrace : trace (snd (runBrowserMode w options st))
                     = trace st ++ logs
                         ++ [Mkdtemp made; Logged (LogCreatedProfile dir');
                             LaunchChrome dir' launched';
                             RegisterTerminationHooks (keepBrowser config) hooked]
                         ++ evsB ++ evsH ++ evsT).
    { rewrite Hwhole, HtT, HtH, HtB, Ht1. now rewrite <- !app_assoc. }
    assert (Hsame : dir' = dir /\ launched' = launched).
    { rewrite Htrace, Hfresh in Hin. cbn [app] in Hin.
      apply in_app_iff in Hin as [Hin|Hin]; [contradiction|].
      cbn [app In] in Hin. destruct Hin as [Hin|[Hin|[Hin|[Hin|Hin]]]]; try discriminate.
      { now injection Hin. }
      exfalso. rewrite !in_app_iff in Hin. destruct Hin as [Hin|[Hin|Hin]].
      - apply (proj2 (afterSetup_facts evsB
                        (EngineSpec.weaken_forallb _ _ _ bodyEvent_afterSetup HpB)) _ _ Hin).
      - apply (proj2 (afterSetup_facts evsH
                        (EngineSpec.weaken_forallb _ _ _ quietEvent_afterSetup HpH)) _ _ Hin).
      - apply (proj2 (afterSetup_facts evsT
                        (EngineSpec.weaken_forallb _ _ _ teardownEvent_afterSetup HpT)) _ _ Hin). }
    destruct Hsame as [-> ->]. rewrite Elaunched.
    exact (launched_run w options st dir chrome logs made launched hooked evsB evsH evsT st1 st3
             startedAt promptText Emade Elaunched Hlogs Htrace
             (conj Ht1 (conj Hc1 Hf1)) (conj HtB HpB) (conj HtH HpH) Hres (conj HtT HpT)).
  - destruct Hsetup as [Hr Ht].
    assert (Hsame : dir' = dir /\ launched' = launched).
    { rewrite Ht, Hfresh in Hin. cbn [app] in Hin.
      apply in_app_iff in Hin as [Hin|Hin]; [contradiction|].
      cbn [In] in Hin. destruct Hin as [Hin|[Hin|[Hin|[]]]]; try discriminate.
      now injection Hin. }
    destruct Hsame as [-> ->]. rewrite Elaunched.
    split; [exact Hr|]. split.
    + rewrite Ht, Hfresh. simpl. rewrite cleanup_app.
      rewrite (proj1 (noCleanup_facts logs (proj1 Hlogs))). reflexivity.
    + exists made. split; [|exact Emade]. rewrite Ht. apply in_app_iff. right.
      apply in_app_iff. right. now left.
Qed.

(** The environment [w] with another answer to [launchChrome]. *)
Definition withLaunch (w : World) (launch : string -> nat -> Outcome Chrome) : World :=
  {| env := env w; platform := platform w; HAS_PNPM_WORKSPACE := HAS_PNPM_WORKSPACE w;
     CHATGPT_URL := CHATGPT_URL w; COOKIE_URLS := COOKIE_URLS w;
     urlHostname := urlHostname w; stripQuery := stripQuery w;
     estimateTokenCount := estimateTokenCount w; dateNow := dateNow w;
     mkdtemp := mkdtemp w; launchChrome := launch;
     registerTerminationHooks := registerTerminationHooks w;
     connectToChrome := connectToChrome w; hideChromeWindow := hideChromeWindow w;
     enableDomains := enableDomains w; clearBrowserCookies := clearBrowserCookies w;
     importCookiesModule := importCookiesModule w; spawnRebuild := spawnRebuild w;
     getCookiesPromised := getCookiesPromised w; setCookie := setCookie w;
     navigateToChatGPT := navigateToChatGPT w; ensureNotBlocked := ensureNotBlocked w;
     ensurePromptReady := ensurePromptReady w;
     evaluateModelSelection := evaluateModelSelection w;
     uploadAttachmentFile := uploadAttachmentFile w;
     waitForAttachmentCompletion := waitForAttachmentCompletion w;
     submitPrompt := submitPrompt w; waitForAssistantResponse := waitForAssistantResponse w;
     captureAssistantMarkdown := captureAssistantMarkdown w; delay := delay w;
     clientClose := clientClose w; chromeKill := chromeKill w;
     rmUserDataDir := rmUserDataDir w |}.

(** Chrome cannot be started. *)
Definition noChrome : World :=
  withLaunch Samples.calm (fun _ _ => Samples.rejects "Failed to launch Chrome").

(** X13. When launching Chrome fails, the run throws the launch error as it
    is and cleans nothing up: the temporary profile directory, which was
    created just before, is not removed. *)
Theorem failed_launch_leaves_profile (w : World) (options : BrowserRunOptions) (st : St)
    (dir : string) (launch : Outcome Chrome) (error : Thrown) :
  trace st = [] ->
  In (LaunchChrome dir launch) (trace (snd (runBrowserMode w options st))) ->
  settled launch = Rejected error ->
  fst (runBrowserMode w options st) = Throw error /\
  cleanup (trace (snd (runBrowserMode w options st))) = [] /\
  exists made,
    In (Mkdtemp made) (trace (snd (runBrowserMode w options st))) /\
    settled made = Resolved dir.
Proof.
  intros Hfresh Hin Hrejected.
  pose proof (launch_cases w options st dir launch Hfresh Hin) as H.
  now rewrite Hrejected in H.
Qed.

Lemma failed_launch_leaves_profile_witness :
  fst (runBrowserMode noChrome Samples.helloOptions processStart)
  = Throw (Err "Failed to launch Chrome") /\
  cleanup (trace (snd (runBrowserMode noChrome Samples.helloOptions processStart))) = [].
Proof.
  destruct (failed_launch_leaves_profile noChrome Samples.helloOptions processStart
              "/tmp/oracle-browser-x1" (Samples.rejects "Failed to launch Chrome")
              (Err "Failed to launch Chrome") eq_refl) as (Hr & Hc & _).
  - vm_compute. right. right. left. reflexivity.
  - reflexivity.
  - split; [exact Hr|exact Hc].
Defined.

Lemma hooksRegistered_setup logs made dir launch keep hooked rest :
  forallb afterSetup logs = true -> forallb afterSetup rest = true ->
  hooksRegistered
    (logs ++ [Mkdtemp made; Logged (LogCreatedProfile dir); LaunchChrome dir launch;
              RegisterTerminationHooks keep hooked] ++ rest)
  = resolved hooked.
Proof.
  intros Hlogs Hrest. rewrite !hooksRegistered_app.
  rewrite (proj1 (afterSetup_facts logs Hlogs)), (proj1 (afterSetup_facts rest Hrest)).
  unfold hooksRegistered. simpl. now rewrite !orb_false_r.
Qed.

Lemma forallb_app3 (P : Event -> bool) l1 l2 l3 :
  forallb P l1 = true -> forallb P l2 = true -> forallb P l3 = true ->
  forallb P (l1 ++ l2 ++ l3) = true.
Proof. intros H1 H2 H3. now rewrite !forallb_app, H1, H2, H3. Qed.

(** X14. Once Chrome has been launched, however the run ends (with a
    result, with an error, or with the connection lost), [rm] is called on
    the profile directory exactly once unless the browser is kept, in which
    case it is never called; and the termination hooks are removed exactly
    once if they had been registered, and never touched if registering them
    failed. *)
Theorem profile_removed_once (w : World) (options : BrowserRunOptions) (st : St)
    (dir : string) (launch : Outcome Chrome) (chrome : Chrome) :
  trace st = [] ->
  In (LaunchChrome dir launch) (trace (snd (runBrowserMode w options st))) ->
  settled launch = Resolved chrome ->
  let events := trace (snd (runBrowserMode w options st)) in
  removals events
  = (if keepBrowser (resolveBrowserConfig w (config options)) then [] else [dir]) /\
  CookieSyncSpec.countIf isUnhook events = (if hooksRegistered events then 1 else 0).
Proof.
  intros Hfresh Hin Hresolved. cbv zeta.
  pose proof (launch_cases w options st dir launch Hfresh Hin) as H.
  rewrite Hresolved in H.
  destruct H as [logs made launch' hooked evsB evsH evsT st1 st3 startedAt promptText
                   Hmade Hlaunch (Hl1 & Hl2 & Hl3 & Hl4) Htrace Hentered (HtB & HpB) (HtH & HpH)
                   Hres (HtT & HpT)].
  destruct (teardown_run w (resolveBrowserConfig w (config options)) chrome dir
              (resolved hooked) startedAt st3) as (evsT' & HtT' & Hrm & Hunhook & _).
  assert (evsT' = evsT) as -> by (rewrite HtT in HtT'; now apply app_inv_head in HtT').
  pose proof (EngineSpec.weaken_forallb _ _ _ bodyEvent_noCleanup HpB) as HnB.
  pose proof (EngineSpec.weaken_forallb _ _ _ quietEvent_noCleanup HpH) as HnH.
  destruct (noCleanup_facts logs Hl1) as (_ & Hr0 & Hu0).
  destruct (noCleanup_facts evsB HnB) as (_ & HrB & HuB).
  destruct (noCleanup_facts evsH HnH) as (_ & HrH & HuH).
  rewrite Htrace, Hfresh, app_nil_l. split.
  - rewrite removals_app, Hr0. cbn [removals app].
    rewrite !removals_app, HrB, HrH, Hrm. reflexivity.
  - rewrite hooksRegistered_setup; [|exact Hl2|].
    2:{ apply forallb_app3.
        - exact (EngineSpec.weaken_forallb _ _ _ bodyEvent_afterSetup HpB).
        - exact (EngineSpec.weaken_forallb _ _ _ quietEvent_afterSetup HpH).
        - exact (EngineSpec.weaken_forallb _ _ _ teardownEvent_afterSetup HpT). }
    rewrite CookieSyncSpec.countIf_app, Hu0. cbn [CookieSyncSpec.countIf isUnhook].
    rewrite !CookieSyncSpec.countIf_app, HuB, HuH, Hunhook. simpl. lia.
Qed.

Lemma profile_removed_once_witness :
  removals (trace (snd (runBrowserMode Samples.closedWhileWaiting Samples.helloOptions
                          processStart)))
  = ["/tmp/oracle-browser-x1"%string].
Proof.
  destruct (profile_removed_once Samples.closedWhileWaiting Samples.helloOptions processStart
              "/tmp/oracle-browser-x1"
              (Samples.quiet {| pid := 4242; port := 9222 |})
              {| pid := 4242; port := 9222 |} eq_refl) as (Hr & _).
  - vm_compute. right. right. left. reflexivity.
  - reflexivity.
  - exact Hr.
Defined.

(** *** Code that leaves the connection alone

    Running [m] keeps the client, and keeps the connection-lost flag unless
    a disconnect event is recorded. *)
Definition placidAt {A} (m : M A) (st : St) : Prop :=
  exists evs,
    trace (snd (m st)) = trace st ++ evs /\
    client (snd (m st)) = client st /\
    (existsb isMark evs = false ->
     connectionClosedUnexpectedly (snd (m st)) = connectionClosedUnexpectedly st).

Definition placid {A} (m : M A) : Prop := forall st, placidAt m st.

Lemma placidAt_nil {A} (m : M A) st :
  trace (snd (m st)) = trace st -> client (snd (m st)) = client st ->
  connectionClosedUnexpectedly (snd (m st)) = connectionClosedUnexpectedly st ->
  placidAt m st.
Proof. intros Ht Hc Hf. exists []. rewrite app_nil_r. auto. Qed.

Lemma placid_ret {A} (a : A) : placid (ret a).
Proof. intros st. now apply placidAt_nil. Qed.

Lemma placid_throw {A} e : placid (@throw A e).
Proof. intros st. now apply placidAt_nil. Qed.

Lemma placid_get : placid get.
Proof. intros st. now apply placidAt_nil. Qed.

Lemma placid_now w : placid (now w).
Proof. intros st. now apply placidAt_nil. Qed.

Lemma placid_emit e : placid (emit e).
Proof. intros st. exists [e]. repeat split. Qed.

Lemma placid_log l : placid (log l).
Proof. apply placid_emit. Qed.

(** State updates that touch neither the trace, the flag nor the client. *)
Definition inert (f : St -> St) : Prop :=
  forall st, trace (f st) = trace st /\ client (f st) = client st /\
             connectionClosedUnexpectedly (f st) = connectionClosedUnexpectedly st.

Lemma placid_modify f : inert f -> placid (modify f).
Proof. intros Hf st. destruct (Hf st) as (Ht & Hc & Hl). now apply placidAt_nil. Qed.

Lemma inert_setAttempted b : inert (setAttempted b).
Proof. now intros st. Qed.
Lemma inert_setMonitor m : inert (setMonitor m).
Proof. now intros st. Qed.
Lemma inert_setRunStatus s : inert (setRunStatus s).
Proof. now intros st. Qed.

Lemma placidAt_bind {A B} (m : M A) (k : A -> M B) st :
  placidAt m st -> (forall a, placid (k a)) -> placidAt (bind m k) st.
Proof.
  intros (evs1 & Ht1 & Hc1 & Hf1) Hk. unfold placidAt, bind.
  destruct (m st) as [[a|e|] st1]; cbn [fst snd] in *; try (exists evs1; now auto).
  destruct (Hk a st1) as (evs2 & Ht2 & Hc2 & Hf2).
  exists (evs1 ++ evs2). rewrite Ht2, Ht1, app_assoc. split; [reflexivity|].
  split; [congruence|]. rewrite existsb_app. intros H. apply orb_false_iff in H as [H1 H2].
  rewrite Hf2, Hf1; auto.
Qed.

Lemma placid_bind {A B} (m : M A) (k : A -> M B) :
  placid m -> (forall a, placid (k a)) -> placid (bind m k).
Proof. intros Hm Hk st. apply placidAt_bind; auto. Qed.

Lemma placid_tryCatch {A} (m : M A) (h : Thrown -> M A) :
  placid m -> (forall e, placid (h e)) -> placid (tryCatch m h).
Proof.
  intros Hm Hh st. destruct (Hm st) as (evs1 & Ht1 & Hc1 & Hf1). unfold placidAt, tryCatch.
  destruct (m st) as [[a|e|] st1]; cbn [fst snd] in *; try (exists evs1; now auto).
  destruct (Hh e st1) as (evs2 & Ht2 & Hc2 & Hf2).
  exists (evs1 ++ evs2). rewrite Ht2, Ht1, app_assoc. split; [reflexivity|].
  split; [congruence|]. rewrite existsb_app. intros H. apply orb_false_iff in H as [H1 H2].
  rewrite Hf2, Hf1; auto.
Qed.

Lemma placid_perform {T} (answer : nat -> Outcome T) (ev : Outcome T -> Event) :
  placid (perform answer ev).
Proof.
  intros st. destruct (perform_run answer ev st) as (_ & Hc & _ & _ & _ & [H|H]).
  - destruct H as (_ & _ & Ht & _). eexists. split; [exact Ht|]. split; [exact Hc|].
    discriminate.
  - destruct H as (_ & Ht & Hf). eexists. split; [exact Ht|]. auto.
Qed.

Lemma placid_when b m : placid m -> placid (when b m).
Proof. destruct b; simpl; [auto|intros _; apply placid_ret]. Qed.

Lemma placid_foldM {A B} (f : B -> A -> M B) (l : list A) :
  (forall acc x, placid (f acc x)) -> forall acc, placid (CookieSync.foldM f l acc).
Proof.
  intros Hf. induction l as [|x l IH]; intros acc; simpl.
  - apply placid_ret.
  - apply placid_bind; auto.
Qed.

Lemma placid_forEach {A} (l : list A) (f : A -> M unit) :
  (forall x, placid (f x)) -> placid (forEach l f).
Proof.
  intros Hf. induction l as [|x l IH]; simpl.
  - apply placid_ret.
  - apply placid_bind; auto.
Qed.

Lemma placid_withRetriesFrom {A} w (task : M A) delayMs onRetry :
  placid task -> (forall attempt error, placid (onRetry attempt error)) ->
  forall retries attempt, placid (withRetriesFrom w task retries delayMs onRetry attempt).
Proof.
  intros Ht Ho retries. induction retries as [|retries IH]; intros attempt; simpl.
  - apply placid_tryCatch; [exact Ht|]. intros e. apply placid_throw.
  - apply placid_tryCatch; [exact Ht|]. intros e.
    apply placid_bind; [apply Ho|]. intros _.
    apply placid_bind; [apply placid_perform|intros _; apply IH].
Qed.

Ltac placid_step :=
  match goal with
  | |- placid (bind _ _) => apply placid_bind; [|intros ?]
  | |- placid (tryCatch _ _) => apply placid_tryCatch; [|intros ?]
  | |- placid (ret _) => apply placid_ret
  | |- placid (throw _) => apply placid_throw
  | |- placid get => apply placid_get
  | |- placid (now _) => apply placid_now
  | |- placid (when _ _) => apply placid_when
  | |- placid (log _) => apply placid_log
  | |- placid (emit _) => apply placid_emit
  | |- placid (perform _ _) => apply placid_perform
  | |- placid (modify (setAttempted _)) => apply placid_modify, inert_setAttempted
  | |- placid (modify (setMonitor _)) => apply placid_modify, inert_setMonitor
  | |- placid (modify (setRunStatus _)) => apply placid_modify, inert_setRunStatus
  | |- placid (CookieSync.foldM _ _ _) => apply placid_foldM; intros ? ?
  | |- placid (forEach _ _) => apply placid_forEach; intros ?
  | |- placid (withRetriesFrom _ _ _ _ _ _) => apply placid_withRetriesFrom; [|intros ? ?]
  | |- placid (if ?b then _ else _) => destruct b
  | |- placid (match ?x with _ => _ end) => destruct x
  end.

Lemma loadChromeCookiesModule_placid w fuel : placid (CookieSync.loadChromeCookiesModule w fuel).
Proof.
  induction fuel as [|fuel IH]; simpl.
  - intros st. now apply placidAt_nil.
  - unfold CookieSync.attemptSqliteRebuild. repeat first [exact IH | placid_step].
Qed.

Lemma syncCookies_placid w url profile allowErrors :
  placid (CookieSync.syncCookies w url profile allowErrors).
Proof.
  unfold CookieSync.syncCookies, CookieSync.readChromeCookies, CookieSync.applyCookie.
  repeat first [apply loadChromeCookiesModule_placid | placid_step].
Qed.

(** The try block: it connects, stores the client, and goes on with code
    that leaves the connection alone. *)
Lemma connected_run {B} w chromePort (k : Client -> M B) :
  (forall connected, placid (k connected)) ->
  forall st, client st = None ->
    let m := bind (perform (connectToChrome w chromePort) (ConnectToChrome chromePort))
               (fun connected =>
                  bind (modify (setClient (Some connected))) (fun _ => k connected)) in
    exists evs,
      trace (snd (m st)) = trace st ++ evs /\
      (existsb isMark evs = false ->
       connectionClosedUnexpectedly (snd (m st)) = connectionClosedUnexpectedly st) /\
      (forall r, fst (m st) = Ok r -> client (snd (m st)) <> None).
Proof.
  intros Hk st Hclient. cbv zeta.
  match goal with |- context [?m st] => set (run := m st) end.
  assert (Hrun : run = match perform (connectToChrome w chromePort)
                               (ConnectToChrome chromePort) st with
                       | (Ok connected, st1) => k connected (setClient (Some connected) st1)
                       | (Throw e, st1) => (Throw e, st1)
                       | (OutOfFuel, st1) => (OutOfFuel, st1)
                       end).
  { subst run. unfold bind. destruct (perform _ _ st) as [[connected|e|] st1]; reflexivity. }
  clearbody run. subst run.
  destruct (perform_run (connectToChrome w chromePort) (ConnectToChrome chromePort) st)
    as (_ & _ & _ & _ & _ & [H|H]); [destruct H as (Hc & _); congruence|].
  destruct H as (_ & Ht & Hf).
  destruct (perform (connectToChrome w chromePort) (ConnectToChrome chromePort) st)
    as [[connected|e|] st1]; cbn [fst snd] in *.
  - destruct (Hk connected (setClient (Some connected) st1)) as (evs2 & Ht2 & Hc2 & Hf2).
    eexists. split; [rewrite Ht2; simpl; rewrite Ht, <- app_assoc; reflexivity|].
    split.
    + cbn [app existsb isMark orb]. intros Hm. rewrite (Hf2 Hm). exact Hf.
    + intros r _. rewrite Hc2. discriminate.
  - eexists. split; [exact Ht|]. split; [auto|discriminate].
  - eexists. split; [exact Ht|]. split; [auto|discriminate].
Qed.

Lemma tryBlock_connected w options config promptText attachments chrome dir startedAt st :
  client st = None ->
  exists evs,
    trace (snd (tryBlock w options config promptText attachments chrome dir startedAt st))
    = trace st ++ evs /\
    (existsb isMark evs = false ->
     connectionClosedUnexpectedly
       (snd (tryBlock w options config promptText attachments chrome dir startedAt st))
     = connectionClosedUnexpectedly st) /\
    (forall r,
        fst (tryBlock w options config promptText attachments chrome dir startedAt st) = Ok r ->
        client (snd (tryBlock w options config promptText attachments chrome dir startedAt st))
        <> None).
Proof.
  unfold tryBlock. apply connected_run. intros connected.
  unfold withRetries, startThinkingStatusMonitor, stopMonitor.
  repeat first [apply syncCookies_placid | placid_step].
Qed.

(** What a computation returns, when it returns. *)
Definition returns {A} (Q : A -> Prop) (m : M A) : Prop :=
  forall st a, fst (m st) = Ok a -> Q a.

Lemma returns_bind {A B} Q (m : M A) (k : A -> M B) :
  (forall a, returns Q (k a)) -> returns Q (bind m k).
Proof.
  intros Hk st b. unfold bind. destruct (m st) as [[a|e|] st1]; try discriminate. apply Hk.
Qed.

Lemma returns_ret {A} (Q : A -> Prop) a : Q a -> returns Q (ret a).
Proof. intros H st b [= <-]. exact H. Qed.

Lemma tryBlock_returns w options config promptText attachments chrome dir startedAt :
  returns (fun result => userDataDir result = dir /\ chromePid result = pid chrome /\
                         chromePort result = port chrome)
    (tryBlock w options config promptText attachments chrome dir startedAt).
Proof.
  unfold tryBlock. repeat (apply returns_bind; intros ?). apply returns_ret. repeat split.
Qed.

(** A run either fails before Chrome is launched, having recorded nothing
    but its setup, or launches Chrome. *)
Lemma run_outcomes w options st :
  trace st = [] ->
  (exists e, fst (runBrowserMode w options st) = Throw e /\
             forallb EngineSpec.setupEvent (trace (snd (runBrowserMode w options st))) = true)
  \/ (exists dir chrome, Launched w options st dir chrome).
Proof.
  intros Hfresh.
  destruct (option_map Js.trim (prompt options)) as [promptText|] eqn:Hp.
  2:{ left. unfold runBrowserMode. rewrite Hp. simpl. rewrite Hfresh. eauto. }
  destruct (string_dec promptText EmptyString) as [->|Hne].
  { left. unfold runBrowserMode. rewrite Hp. simpl. rewrite Hfresh. eauto. }
  destruct (run_setup w options promptText st Hp Hne) as (made & Hsetup).
  cbv zeta in Hsetup.
  assert (Hlogs : forallb EngineSpec.setupEvent
                    (if tracing w (resolveBrowserConfig w (config options))
                     then [Logged (LogConfig (String.length promptText))] else []) = true).
  { destruct (tracing w _); reflexivity. }
  destruct (settled made) as [dir|e] eqn:Emade.
  2:{ left. destruct Hsetup as [Hr Ht]. exists e. split; [exact Hr|].
      rewrite Ht, Hfresh, app_nil_l, forallb_app, Hlogs. reflexivity. }
  destruct Hsetup as (launch & Hsetup).
  destruct (settled launch) as [chrome|e] eqn:Elaunch.
  2:{ left. destruct Hsetup as [Hr Ht]. exists e. split; [exact Hr|].
      rewrite Ht, Hfresh, app_nil_l, forallb_app, Hlogs. reflexivity. }
  destruct Hsetup as (hooked & st1 & startedAt & Ht1 & _ & _ & Hrun).
  right. exists dir, chrome.
  assert (Hin : In (LaunchChrome dir launch) (trace (snd (runBrowserMode w options st)))).
  { destruct (statement_run w options (resolveBrowserConfig w (config options)) promptText
                (default [] (attachments options)) chrome dir (resolved hooked) startedAt st1)
      as (evsB & evsH & st3 & HtB & _ & HtH & _ & Hwhole & _).
    cbv zeta in Hwhole. rewrite <- Hrun in Hwhole.
    destruct (EngineSpec.teardown_emits w (resolveBrowserConfig w (config options)) chrome dir
                (resolved hooked) startedAt st3) as (evsT & HtT & _).
    rewrite Hwhole, HtT, HtH, HtB, Ht1, !in_app_iff. do 3 left. right. right.
    simpl. auto. }
  pose proof (launch_cases w options st dir launch Hfresh Hin) as H.
  now rewrite Elaunch in H.
Qed.

Lemma run_returned w options st result :
  trace st = [] ->
  fst (runBrowserMode w options st) = Ok result ->
  exists dir chrome, Launched w options st dir chrome.
Proof.
  intros Hfresh Hok.
  destruct (run_outcomes w options st Hfresh) as [(e & Hr & _)|H]; [congruence|exact H].
Qed.

Lemma marks_app3 l1 l2 l3 l4 l5 :
  existsb isMark (l1 ++ l2 ++ l3 ++ l4 ++ l5) = false ->
  existsb isMark l3 = false /\ existsb isMark l4 = false /\ existsb isMark l5 = false.
Proof.
  rewrite !existsb_app. intros H.
  repeat match goal with
         | H : _ || _ = false |- _ => apply orb_false_iff in H as [? ?]
         end.
  auto.
Qed.

(** X15. A run that returns its result without any disconnect event cleans
    up in this order: it closes the DevTools client, removes the termination
    hooks if they were registered, and, unless the browser is kept, kills
    Chrome and then removes the profile directory. That directory is the
    [userDataDir] of the result: without [keepBrowser] the result names a
    directory that [rm] was called on and the pid of a browser that
    [chrome.kill()] was called on. *)
Theorem orderly_teardown (w : World) (options : BrowserRunOptions) (st : St)
    (result : BrowserRunResult) :
  trace st = [] ->
  fst (runBrowserMode w options st) = Ok result ->
  existsb isMark (trace (snd (runBrowserMode w options st))) = false ->
  let events := trace (snd (runBrowserMode w options st)) in
  cleanup events
  = [Closed] ++ (if hooksRegistered events then [Unhooked] else [])
      ++ (if keepBrowser (resolveBrowserConfig w (config options)) then []
          else [Killed; Removed (userDataDir result)]).
Proof.
  intros Hfresh Hok Hquiet. cbv zeta.
  destruct (run_returned w options st result Hfresh Hok) as (dir & chrome & L).
  destruct L as [logs made launch hooked evsB evsH evsT st1 st3 startedAt promptText
                   Hmade Hlaunch (Hl1 & Hl2 & Hl3 & Hl4) Htrace (Ht1 & Hc1 & Hf1) (HtB & HpB)
                   (HtH & HpH) Hres (HtT & HpT)].
  set (config := resolveBrowserConfig w (Engine.config options)) in *.
  set (files := default [] (attachments options)) in *.
  pose proof (tryBlock_returns w options config promptText files chrome dir startedAt st1)
    as Hreturns.
  destruct (tryBlock_connected w options config promptText files chrome dir startedAt st1 Hc1)
    as (evsB' & HtB' & Hflag & Hclient).
  assert (evsB' = evsB) as -> by (rewrite HtB in HtB'; now apply app_inv_head in HtB').
  rewrite Htrace, Hfresh, app_nil_l in Hquiet.
  destruct (marks_app3 _ _ _ _ _ Hquiet) as (HmB & HmH & HmT).
  destruct (fst (tryBlock w options config promptText files chrome dir startedAt st1))
    as [result'|error|] eqn:Ebody; [| |contradiction].
  2:{ destruct Hres as [_ Hres].
      destruct (EngineSpec.onFailure_run w config error
                  (snd (tryBlock w options config promptText files chrome dir startedAt st1)))
        as (_ & _ & _ & Hthrow & _).
      rewrite Hres, Hthrow in Hok. discriminate. }
  destruct Hres as [Hres ->]. assert (result' = result) as -> by congruence.
  destruct (Hreturns result eq_refl) as (Hdir & _).
  specialize (Hclient result eq_refl). specialize (Hflag HmB). rewrite Hf1 in Hflag.
  destruct (teardown_run w config chrome dir (resolved hooked) startedAt
              (snd (tryBlock w options config promptText files chrome dir startedAt st1)))
    as (evsT' & HtT' & _ & _ & Hcleanup).
  assert (evsT' = evsT) as -> by (rewrite HtT in HtT'; now apply app_inv_head in HtT').
  specialize (Hcleanup Hflag HmT).
  destruct (client (snd (tryBlock w options config promptText files chrome dir startedAt st1)))
    as [connected|]; [|congruence].
  pose proof (EngineSpec.weaken_forallb _ _ _ bodyEvent_noCleanup HpB) as HnB.
  pose proof (EngineSpec.weaken_forallb _ _ _ quietEvent_noCleanup HpH) as HnH.
  rewrite Htrace, Hfresh, app_nil_l.
  rewrite hooksRegistered_setup; [|exact Hl2|].
  2:{ apply forallb_app3.
      - exact (EngineSpec.weaken_forallb _ _ _ bodyEvent_afterSetup HpB).
      - exact (EngineSpec.weaken_forallb _ _ _ quietEvent_afterSetup HpH).
      - exact (EngineSpec.weaken_forallb _ _ _ teardownEvent_afterSetup HpT). }
  rewrite cleanup_app, (proj1 (noCleanup_facts logs Hl1)). cbn [cleanup cleanupOf app].
  rewrite !cleanup_app, (proj1 (noCleanup_facts evsB HnB)), (proj1 (noCleanup_facts evsH HnH)).
  rewrite Hcleanup, Hdir. reflexivity.
Qed.

Lemma orderly_teardown_witness :
  cleanup (trace (snd (runBrowserMode Samples.calm Samples.helloOptions processStart)))
  = [Closed; Unhooked; Killed; Removed "/tmp/oracle-browser-x1"].
Proof.
  assert (Hrun : exists result,
             fst (runBrowserMode Samples.calm Samples.helloOptions processStart) = Ok result /\
             userDataDir result = "/tmp/oracle-browser-x1"%string).
  { eexists. split; vm_compute; reflexivity. }
  destruct Hrun as (result & Hok & Hdir).
  rewrite (orderly_teardown Samples.calm Samples.helloOptions processStart result eq_refl Hok).
  - rewrite Hdir. vm_compute. reflexivity.
  - vm_compute. reflexivity.
Defined.

Lemma messageOf_normalized error :
  messageOf (EngineSpec.normalizedError error) = messageOf error.
Proof. now destruct error. Qed.

(** The catch block entered without a lost connection and with an error
    that is not a websocket closure. *)
Lemma onFailure_plain w config error st :
  connectionClosedUnexpectedly st = false ->
  isWebSocketClosureError (EngineSpec.normalizedError error) = false ->
  exists evs,
    trace (snd (onFailure w config error st)) = trace st ++ evs /\
    In (Logged (LogFailedRun (messageOf error))) evs /\
    fst (onFailure w config error st) = Throw (EngineSpec.normalizedError error) /\
    connectionClosedUnexpectedly (snd (onFailure w config error st)) = false.
Proof.
  intros Hflag Hplain. rewrite <- messageOf_normalized.
  unfold onFailure. fold (EngineSpec.normalizedError error).
  set (normalized := EngineSpec.normalizedError error) in *.
  set (closure := isWebSocketClosureError normalized) in *.
  unfold stopMonitor, bind, get, modify, emit, log, when, throw, ret.
  cbv beta iota zeta.
  destruct (stopThinkingMonitor st) as [[|]|]; cbv beta iota; simpl;
    rewrite Hflag, Hplain; simpl;
    destruct (tracing w config); simpl;
    eexists; (split; [rewrite <- ?app_assoc; reflexivity|]);
    simpl; repeat split; auto 6.
Qed.

(** X16. When the [try] block of a run throws [error] (a rejected call, a
    failed cookie sync or the missing DOM domain), no disconnect event was
    handled during the block and the message of [error] matches no
    websocket-closure pattern, the catch block logs "Failed to complete
    ChatGPT run: <message>" and the run throws [error] itself, or
    [new Error(String(error))] if the thrown value is not an Error. *)
Theorem plain_failure_passes_through (w : World) (options : BrowserRunOptions) (st : St)
    (promptText : string) (bound : Bound) (st1 : St) (error : Thrown) :
  trace st = [] ->
  option_map Js.trim (prompt options) = Some promptText ->
  promptText <> EmptyString ->
  prologue w options promptText st = (Ok bound, st1) ->
  fst (tryBody w options promptText bound st1) = Throw error ->
  existsb isMark (trace (snd (tryBody w options promptText bound st1))) = false ->
  isWebSocketClosureError (EngineSpec.normalizedError error) = false ->
  fst (runBrowserMode w options st) = Throw (EngineSpec.normalizedError error) /\
  exists post,
    trace (snd (runBrowserMode w options st))
    = trace (snd (tryBody w options promptText bound st1)) ++ post /\
    In (Logged (LogFailedRun (messageOf error))) post.
Proof.
  intros Hfresh Hp Hne Hpro Hbody Hquiet Hplain.
  destruct (EngineSpec.thrown_run w options promptText st bound st1 error Hp Hne Hpro Hbody)
    as (evs0 & evsB & evsH & evsT & Hent & HtB & HpB & HfB & HtH & HpH & HtT & HpT & Hres & Hall).
  cbv zeta in *.
  destruct Hent as (Ht1 & Hs0 & Hc1 & Hf1 & _).
  unfold tryBody in *.
  set (config := resolveBrowserConfig w (Engine.config options)) in *.
  set (files := default [] (attachments options)) in *.
  destruct (tryBlock_connected w options config promptText files (boundChrome bound)
              (boundDir bound) (boundStart bound) st1 Hc1) as (evsB' & HtB' & Hflag & _).
  assert (evsB' = evsB) as -> by (rewrite HtB in HtB'; now apply app_inv_head in HtB').
  set (st2 := snd (tryBlock w options config promptText files (boundChrome bound)
                     (boundDir bound) (boundStart bound) st1)) in *.
  assert (Hf2 : connectionClosedUnexpectedly st2 = false).
  { rewrite Hflag; [exact Hf1|]. rewrite HtB, !existsb_app in Hquiet.
    now apply orb_false_iff in Hquiet as [_ Hquiet]. }
  destruct (onFailure_plain w config error st2 Hf2 Hplain) as (evsH' & HtH' & Hlog & Hthrow & _).
  rewrite HtH in HtH'. apply app_inv_head in HtH'. subst evsH'.
  split; [now rewrite Hres|].
  exists (evsH ++ evsT). split.
  - rewrite Hall, HtB, Ht1. now rewrite <- !app_assoc.
  - apply in_app_iff. now left.
Qed.

(** X17. When the [try] block of a run throws, the run itself rejects and
    what is recorded after the block contains no navigation, block check,
    composer wait, upload, submission, response wait or capture. A rejected
    call of the block that is not caught inside it (connecting, preparing
    the page, a page step up to the response wait) is the last event of the
    block, and its error is the one the block throws. *)
Theorem failed_step_ends_page_work (w : World) (options : BrowserRunOptions) (st : St)
    (promptText : string) (bound : Bound) (st1 : St) (error : Thrown) :
  option_map Js.trim (prompt options) = Some promptText ->
  promptText <> EmptyString ->
  prologue w options promptText st = (Ok bound, st1) ->
  fst (tryBody w options promptText bound st1) = Throw error ->
  (exists thrown, fst (runBrowserMode w options st) = Throw thrown) /\
  (exists post,
     trace (snd (runBrowserMode w options st))
     = trace (snd (tryBody w options promptText bound st1)) ++ post /\
     EngineSpec.steps post = []) /\
  (forall pre ev rest e,
     trace (snd (tryBody w options promptText bound st1)) = trace st1 ++ pre ++ ev :: rest ->
     EngineSpec.stepFailure ev = Some e ->
     rest = [] /\ e = error).
Proof.
  intros Hp Hne Hpro Hbody.
  destruct (EngineSpec.thrown_run w options promptText st bound st1 error Hp Hne Hpro Hbody)
    as (evs0 & evsB & evsH & evsT & Hent & HtB & HpB & HfB & HtH & HpH & HtT & HpT & Hres & Hall).
  cbv zeta in *.
  destruct Hent as (Ht1 & _).
  split; [|split].
  - destruct (EngineSpec.onFailure_run w (resolveBrowserConfig w (config options)) error
                (snd (tryBody w options promptText bound st1))) as (_ & _ & _ & Hthrow & _).
    rewrite Hres, Hthrow. eauto.
  - exists (evsH ++ evsT). split.
    + rewrite Hall, HtB, Ht1. now rewrite <- !app_assoc.
    + rewrite EngineSpec.steps_app, !EngineSpec.steps_offstage; [reflexivity| |].
      * eapply EngineSpec.weaken_forallb; [|exact HpT]. exact EngineSpec.teardownEvent_offstage.
      * eapply EngineSpec.weaken_forallb; [|exact HpH]. exact EngineSpec.quietEvent_offstage.
  - intros pre ev rest e Htrace Hev.
    assert (Hfailed : EngineSpec.failed ev = true).
    { unfold EngineSpec.failed, EngineSpec.noFailure. now rewrite Hev. }
    unfold tryBody in *.
    destruct (EngineSpec.tryBlock_stops w options (resolveBrowserConfig w (config options))
                promptText (default [] (attachments options)) (boundChrome bound)
                (boundDir bound) (boundStart bound) st1) as (evsB' & HtB' & _ & HgB).
    assert (evsB' = evsB) as -> by (rewrite HtB in HtB'; now apply app_inv_head in HtB').
    rewrite HtB in Htrace. apply app_inv_head in Htrace.
    rewrite Hbody in HgB. simpl in HgB.
    destruct HgB as [Hclean|(preB & evB & -> & HevB & HpreB)].
    { exfalso. eapply (EngineSpec.absent_unique EngineSpec.failed); [|exact Hfailed|exact Htrace].
      now apply EngineSpec.noFailure_failed. }
    destruct (EngineSpec.split_unique EngineSpec.failed preB evB [] pre ev rest) as (_ & -> & ->);
      auto.
    + now apply EngineSpec.noFailure_failed.
    + split; [reflexivity|congruence].
Qed.

(** The answer does not arrive before the deadline. *)
Definition timedOut : World :=
  Samples.world Samples.noEnv (fun _ => Samples.quiet Samples.goodModule)
    (fun _ => Samples.rejects "Assistant response timed out") (fun _ => Samples.quiet None).

Lemma plain_failure_passes_through_witness :
  fst (runBrowserMode timedOut Samples.helloOptions processStart)
  = Throw (Err "Assistant response timed out").
Proof.
  let r := eval vm_compute in (prologue timedOut Samples.helloOptions "Hello" processStart) in
  lazymatch r with
  | (Ok ?bound, ?st1) =>
      apply (plain_failure_passes_through timedOut Samples.helloOptions processStart "Hello"
               bound st1 (Err "Assistant response timed out"))
  end.
  - reflexivity.
  - reflexivity.
  - discriminate.
  - vm_compute. reflexivity.
  - vm_compute. reflexivity.
  - vm_compute. reflexivity.
  - vm_compute. reflexivity.
Defined.

Lemma failed_step_ends_page_work_witness :
  exists thrown,
    fst (runBrowserMode Samples.closedWhileWaiting Samples.helloOptions processStart)
    = Throw thrown.
Proof.
  let r := eval vm_compute in
             (prologue Samples.closedWhileWaiting Samples.helloOptions "Hello" processStart) in
  lazymatch r with
  | (Ok ?bound, ?st1) =>
      apply (failed_step_ends_page_work Samples.closedWhileWaiting Samples.helloOptions
               processStart "Hello" bound st1 (Err "WebSocket is closed"))
  end.
  - reflexivity.
  - discriminate.
  - vm_compute. reflexivity.
  - vm_compute. reflexivity.
Defined.

(** *** Switches of the run *)

(** Reading Chrome's cookie store, rebuilding its bindings, or writing a
    cookie to the automated browser. *)
Definition copiesCookies (e : Event) : bool :=
  match e with
  | ImportCookiesModule _ | SpawnRebuild _ _ _ | GetCookiesPromised _ _ _ | SetCookie _ _ => true
  | _ => false
  end.

Definition leavesCookies (e : Event) : bool := negb (copiesCookies e).

Lemma tryBlock_skips_sync w options config promptText attachments chrome dir startedAt :
  cookieSync config = false ->
  emits leavesCookies (tryBlock w options config promptText attachments chrome dir startedAt).
Proof.
  intros Hoff. unfold tryBlock, withRetries, stopMonitor, startThinkingStatusMonitor.
  rewrite Hoff.
  repeat first
    [ apply emits_withRetriesFrom; [| intros ? ? | reflexivity | intros ?; reflexivity]
    | emits_step ].
Qed.

Lemma onFailure_leavesCookies w config error : emits leavesCookies (onFailure w config error).
Proof. unfold onFailure, stopMonitor. repeat emits_step. Qed.

Lemma teardown_leavesCookies w config chrome dir hooks startedAt :
  emits leavesCookies (teardown w config chrome dir hooks startedAt).
Proof. unfold teardown. repeat emits_step. Qed.

(** X18. With cookie sync switched off, whatever the environment does and
    however the run ends, the run never imports chrome-cookies-secure, never
    starts a rebuild, never reads a cookie of the Chrome profile and never
    sets a cookie in the automated browser. *)
Theorem cookie_sync_off (w : World) (options : BrowserRunOptions) (st : St) :
  cookieSync (resolveBrowserConfig w (config options)) = false ->
  exists evs,
    trace (snd (runBrowserMode w options st)) = trace st ++ evs /\
    forallb leavesCookies evs = true.
Proof.
  intros Hoff. unfold runBrowserMode.
  destruct (option_map Js.trim (prompt options)) as [[|c text]|].
  1, 3: exists []; now rewrite app_nil_r.
  match goal with
  | |- context [bind (modify declareLocals) ?k] =>
      assert (Hrest : emits leavesCookies (k tt))
  end.
  { repeat first
      [ apply teardown_leavesCookies
      | apply tryBlock_skips_sync; exact Hoff
      | apply onFailure_leavesCookies
      | emits_step ]. }
  destruct (Hrest (declareLocals st)) as (evs & Ht & Hp & _).
  exists evs. split; [exact Ht|exact Hp].
Qed.

(** Options of a run without cookie sync. *)
Definition noSyncOptions : BrowserRunOptions :=
  {| prompt := Some "Hello"; attachments := None;
     config := Some {| Automation.chromeProfile := None; Automation.chromePath := None;
                       Automation.url := None; Automation.timeoutMs := None;
                       Automation.inputTimeoutMs := None;
                       Automation.cookieSync := Some false;
                       Automation.headless := None; Automation.keepBrowser := None;
                       Automation.hideWindow := None; Automation.desiredModel := None;
                       Automation.debug := None; Automation.allowCookieErrors := None |};
     heartbeatIntervalMs := None; verbose := None |}.

Lemma cookie_sync_off_witness :
  exists evs,
    trace (snd (runBrowserMode Samples.calm noSyncOptions processStart)) = [] ++ evs /\
    forallb leavesCookies evs = true.
Proof.
  apply (cookie_sync_off Samples.calm noSyncOptions processStart). reflexivity.
Defined.

(** [halts P m]: [m] never returns a value, and the events it adds satisfy
    [P]. *)
Definition halts {A} (P : Event -> bool) (m : M A) : Prop :=
  forall st, exists evs,
    trace (snd (m st)) = trace st ++ evs /\
    forallb P evs = true /\
    forall a, fst (m st) <> Ok a.

Lemma halts_throw {A} P e : halts P (@throw A e).
Proof. intros st. exists []. simpl. rewrite app_nil_r. repeat split. discriminate. Qed.

Lemma halts_bind_l {A B} P (m : M A) (k : A -> M B) : halts P m -> halts P (bind m k).
Proof.
  intros Hm st. destruct (Hm st) as (evs & Ht & Hp & Hr). exists evs. unfold bind.
  destruct (m st) as [[a|e|] st1]; cbn [fst snd] in *.
  - now destruct (Hr a).
  - repeat split; auto; discriminate.
  - repeat split; auto; discriminate.
Qed.

Lemma halts_bind_r {A B} P (m : M A) (k : A -> M B) :
  emits P m -> (forall a, halts P (k a)) -> halts P (bind m k).
Proof.
  intros Hm Hk st. destruct (Hm st) as (evs1 & Ht1 & Hp1 & _). unfold bind.
  destruct (m st) as [[a|e|] st1]; cbn [fst snd] in *.
  - destruct (Hk a st1) as (evs2 & Ht2 & Hp2 & Hr). exists (evs1 ++ evs2).
    rewrite Ht2, Ht1, app_assoc, forallb_app, Hp1, Hp2. auto.
  - exists evs1. repeat split; auto; discriminate.
  - exists evs1. repeat split; auto; discriminate.
Qed.

(** After an awaited call, the continuation need only halt on the values
    the call can resolve to. *)
Lemma halts_perform_bind {T B} P (answer : nat -> Outcome T) (ev : Outcome T -> Event)
    (k : T -> M B) :
  P MarkConnectionLost = true -> (forall o, P (ev o) = true) ->
  (forall n v, settled (answer n) = Resolved v -> halts P (k v)) ->
  halts P (bind (perform answer ev) k).
Proof.
  intros Hm Hev Hk st.
  assert (Hp : exists evs1,
             trace (snd (perform answer ev st)) = trace st ++ evs1 /\ forallb P evs1 = true).
  { destruct (perform_run answer ev st) as (_ & _ & _ & _ & _ & [H|H]).
    - destruct H as (_ & _ & Ht & _). eexists. split; [exact Ht|].
      cbn [forallb]. now rewrite Hm, Hev.
    - destruct H as (_ & Ht & _). eexists. split; [exact Ht|].
      cbn [forallb]. now rewrite Hev. }
  destruct Hp as (evs1 & Ht1 & Hp1).
  destruct (perform_run answer ev st) as (Hr & _). cbv zeta in Hr.
  unfold bind. destruct (perform answer ev st) as [r st1]. cbn [fst snd] in *.
  destruct (settled (answer (length (trace st)))) as [v|e] eqn:Ev; simpl in Hr; subst r.
  - destruct (Hk _ v Ev st1) as (evs2 & Ht2 & Hp2 & Hr). exists (evs1 ++ evs2).
    rewrite Ht2, Ht1, app_assoc, forallb_app, Hp1, Hp2. auto.
  - exists evs1. repeat split; auto; discriminate.
Qed.

(** Before anything is uploaded or sent. *)
Definition beforeUpload (e : Event) : bool :=
  match e with
  | UploadAttachmentFile _ _ | WaitForAttachmentCompletion _ _ | SubmitPrompt _ _
  | WaitForAssistantResponse _ _ | CaptureAssistantMarkdown _ _ => false
  | _ => true
  end.

Lemma syncEvent_beforeUpload e : CookieSyncSpec.syncEvent e = true -> beforeUpload e = true.
Proof. destruct e; simpl; auto; discriminate. Qed.

Lemma setupEvent_beforeUpload e : EngineSpec.setupEvent e = true -> beforeUpload e = true.
Proof. destruct e; simpl; auto; discriminate. Qed.

Lemma quietEvent_beforeUpload e : EngineSpec.quietEvent e = true -> beforeUpload e = true.
Proof. destruct e; simpl; auto; discriminate. Qed.

Lemma teardownEvent_beforeUpload e : EngineSpec.teardownEvent e = true -> beforeUpload e = true.
Proof. destruct e; simpl; auto; discriminate. Qed.

Lemma tryBlock_without_dom w options config promptText files chrome dir startedAt :
  (forall port n connected,
     settled (connectToChrome w port n) = Resolved connected -> hasDOM connected = false) ->
  files <> [] ->
  halts beforeUpload (tryBlock w options config promptText files chrome dir startedAt).
Proof.
  intros Hdom Hfiles. unfold tryBlock.
  apply halts_perform_bind; [reflexivity|intros ?; reflexivity|].
  intros n connected Hconnected. rewrite (Hdom _ _ _ Hconnected). cbn [negb andb].
  destruct files as [|file files]; [contradiction|].
  repeat first
    [ apply halts_bind_l, halts_throw
    | apply halts_bind_r;
      [solve [repeat first
                [ eapply emits_weaken;
                  [apply syncEvent_beforeUpload|apply CookieSyncSpec.syncCookies_emits]
                | emits_step ]]
      |intros ?] ].
Qed.

(** X19. When the connected Chrome offers no DOM domain and the run has
    attachments, the run fails: it returns no result, uploads no file and
    never submits the prompt or waits for an answer. *)
Theorem missing_dom_blocks_upload (w : World) (options : BrowserRunOptions) (st : St) :
  trace st = [] ->
  (forall port n connected,
     settled (connectToChrome w port n) = Resolved connected -> hasDOM connected = false) ->
  default [] (attachments options) <> [] ->
  (forall result, fst (runBrowserMode w options st) <> Ok result) /\
  forallb beforeUpload (trace (snd (runBrowserMode w options st))) = true.
Proof.
  intros Hfresh Hdom Hfiles.
  destruct (run_outcomes w options st Hfresh) as [(e & Hthrow & Hsetup)|(dir & chrome & L)].
  { split; [intros result; rewrite Hthrow; discriminate|].
    eapply EngineSpec.weaken_forallb; [|exact Hsetup]. exact setupEvent_beforeUpload. }
  destruct L as [logs made launch hooked evsB evsH evsT st1 st3 startedAt promptText
                   Hmade Hlaunch (Hl1 & Hl2 & Hl3 & Hl4) Hall (Ht1 & Hc1 & Hf1) (HtB & HpB)
                   (HtH & HpH) Hres (HtT & HpT)].
  set (config := resolveBrowserConfig w (Engine.config options)) in *.
  set (files := default [] (attachments options)) in *.
  destruct (tryBlock_without_dom w options config promptText files chrome dir startedAt
              Hdom Hfiles st1) as (evsB' & HtB' & HpB' & Hhalts).
  assert (evsB' = evsB) as -> by (rewrite HtB in HtB'; now apply app_inv_head in HtB').
  split.
  - intros result.
    destruct (fst (tryBlock w options config promptText files chrome dir startedAt st1))
      as [r|error|] eqn:Ebody; [now destruct (Hhalts r)| |contradiction].
    destruct Hres as [_ Hres].
    destruct (EngineSpec.onFailure_run w config error
                (snd (tryBlock w options config promptText files chrome dir startedAt st1)))
      as (_ & _ & _ & Hthrow & _).
    rewrite Hres, Hthrow. discriminate.
  - rewrite Hall, Hfresh, app_nil_l, !forallb_app, HpB'. cbn [forallb beforeUpload andb].
    rewrite (EngineSpec.weaken_forallb _ _ _ quietEvent_beforeUpload HpH).
    rewrite (EngineSpec.weaken_forallb _ _ _ teardownEvent_beforeUpload HpT).
    rewrite andb_true_r.
    exact (EngineSpec.weaken_forallb _ _ _ setupEvent_beforeUpload Hl4).
Qed.

(** The environment [w] with another answer to [connectToChrome]. *)
Definition withConnect (w : World) (connect : Z -> nat -> Outcome Client) : World :=
  {| env := env w; platform := platform w; HAS_PNPM_WORKSPACE := HAS_PNPM_WORKSPACE w;
     CHATGPT_URL := CHATGPT_URL w; COOKIE_URLS := COOKIE_URLS w;
     urlHostname := urlHostname w; stripQuery := stripQuery w;
     estimateTokenCount := estimateTokenCount w; dateNow := dateNow w;
     mkdtemp := mkdtemp w; launchChrome := launchChrome w;
     registerTerminationHooks := registerTerminationHooks w;
     connectToChrome := connect; hideChromeWindow := hideChromeWindow w;
     enableDomains := enableDomains w; clearBrowserCookies := clearBrowserCookies w;
     importCookiesModule := importCookiesModule w; spawnRebuild := spawnRebuild w;
     getCookiesPromised := getCookiesPromised w; setCookie := setCookie w;
     navigateToChatGPT := navigateToChatGPT w; ensureNotBlocked := ensureNotBlocked w;
     ensurePromptReady := ensurePromptReady w;
     evaluateModelSelection := evaluateModelSelection w;
     uploadAttachmentFile := uploadAttachmentFile w;
     waitForAttachmentCompletion := waitForAttachmentCompletion w;
     submitPrompt := submitPrompt w; waitForAssistantResponse := waitForAssistantResponse w;
     captureAssistantMarkdown := captureAssistantMarkdown w; delay := delay w;
     clientClose := clientClose w; chromeKill := chromeKill w;
     rmUserDataDir := rmUserDataDir w |}.

(** The connected client has no DOM domain. *)
Definition noDom : World :=
  withConnect Samples.calm
    (fun _ _ => Samples.quiet {| hasDOM := false; domHasEnable := false |}).

Definition fileOptions : BrowserRunOptions :=
  {| prompt := Some "Hello";
     attachments := Some [{| attachmentPath := "/tmp/notes.txt"; displayPath := "notes.txt" |}];
     config := None; heartbeatIntervalMs := None; verbose := None |}.

Lemma missing_dom_blocks_upload_witness :
  forallb beforeUpload (trace (snd (runBrowserMode noDom fileOptions processStart))) = true.
Proof.
  apply (missing_dom_blocks_upload noDom fileOptions processStart).
  - reflexivity.
  - intros port n connected H. simpl in H. now inversion H.
  - simpl. discriminate.
Defined.

End LifecycleSpec.

(** ** The Node side of the page actions *)

Module PageDriverSpec.

Import Effects PageDriver.
Local Open Scope list_scope.
Local Open Scope Z_scope.

(** The clock never runs backwards during a call, and a delay takes at least
    the time asked for. *)
Definition punctual (w : Browser) : Prop :=
  (forall c n t, 0 <= took w c n t) /\ (forall ms n t, ms <= took w (Delay ms) n t).

Fixpoint count (f : Entry -> bool) (evs : list Entry) : nat :=
  match evs with
  | [] => 0
  | e :: rest => (if f e then 1 else 0) + count f rest
  end.

Lemma count_app f evs1 evs2 : count f (evs1 ++ evs2) = (count f evs1 + count f evs2)%nat.
Proof. induction evs1 as [|e evs1 IH]; simpl; [reflexivity|]. rewrite IH. lia. Qed.

Lemma count_none f evs : forallb (fun e => negb (f e)) evs = true -> count f evs = 0%nat.
Proof.
  induction evs as [|e evs IH]; simpl; [reflexivity|].
  intros H. apply andb_true_iff in H as [He Hrest]. rewrite (IH Hrest).
  now destruct (f e).
Qed.

(** An evaluation, of any script. *)
Definition isPoll (e : Entry) : bool :=
  match e with
  | Called (RuntimeEvaluate _) _ => true
  | _ => false
  end.

(** An evaluation of the click script that answered ['clicked']: the page
    clicked the send button. *)
Definition clicked (e : Entry) : bool :=
  match e with
  | Called (RuntimeEvaluate ClickSend) (Resolved (Str s)) => String.eqb s "clicked"
  | _ => false
  end.

Definition clicks (evs : list Entry) : nat := count clicked evs.

(** The key events dispatched, by type. *)
Fixpoint keys (evs : list Entry) : list string :=
  match evs with
  | [] => []
  | Called (InputDispatchKeyEvent type) _ :: rest => type :: keys rest
  | _ :: rest => keys rest
  end.

(** The texts passed to [Input.insertText]. *)
Fixpoint inserted (evs : list Entry) : list string :=
  match evs with
  | [] => []
  | Called (InputInsertText text) _ :: rest => text :: inserted rest
  | _ :: rest => inserted rest
  end.

Lemma keys_app evs1 evs2 : keys (evs1 ++ evs2) = keys evs1 ++ keys evs2.
Proof.
  induction evs1 as [|e evs1 IH]; simpl; [reflexivity|].
  destruct e as [[]|]; simpl; now rewrite IH.
Qed.

Lemma inserted_app evs1 evs2 : inserted (evs1 ++ evs2) = inserted evs1 ++ inserted evs2.
Proof.
  induction evs1 as [|e evs1 IH]; simpl; [reflexivity|].
  destruct e as [[]|]; simpl; now rewrite IH.
Qed.

(** An entry of a polling loop on [script]. *)
Definition pollEntry (script : Script) (interval : Z) (e : Entry) : Prop :=
  (exists answer, e = Called (RuntimeEvaluate script) answer) \/
  e = Called (Delay interval) (Resolved Undefined).

(** No evaluation recorded in the entry ended a loop with this verdict. *)
Definition undecided {A} (verdict : Value -> option A) (e : Entry) : bool :=
  match e with
  | Called (RuntimeEvaluate _) (Resolved v) =>
      match verdict v with None => true | Some _ => false end
  | Called (RuntimeEvaluate _) (Rejected _) => false
  | _ => true
  end.

Lemma pollEntry_quiet script interval evs :
  Forall (pollEntry script interval) evs -> keys evs = [] /\ inserted evs = [].
Proof.
  induction 1 as [|e evs He _ IH]; [auto|].
  destruct IH as [IH1 IH2]. destruct He as [[answer ->]| ->]; simpl; auto.
Qed.

Lemma pollEntry_clicks script interval evs :
  script <> ClickSend -> Forall (pollEntry script interval) evs -> clicks evs = 0%nat.
Proof.
  intros Hs. induction 1 as [|e evs He _ IH]; [reflexivity|].
  unfold clicks in *. simpl. rewrite IH.
  destruct He as [[answer ->]| ->]; simpl; [|reflexivity].
  destruct script; try reflexivity. congruence.
Qed.

Lemma undecided_clicks evs :
  forallb (undecided sendVerdict) evs = true -> clicks evs = 0%nat.
Proof.
  unfold clicks. induction evs as [|e evs IH]; simpl; [reflexivity|].
  intros H. apply andb_true_iff in H as [He Hrest]. rewrite (IH Hrest).
  destruct e as [[| [] | | |] [v|]|]; simpl in *; auto.
  destruct v; simpl in *; auto. destruct (String.eqb s "clicked"); [discriminate|reflexivity].
Qed.

(** The state after an awaited call, and after a delay. *)
Definition afterCall (w : Browser) (c : Call) (st : Tab) : Tab :=
  {| clock := clock st + took w c (length (entries st)) (clock st);
     entries := entries st ++ [Called c (respond w c (length (entries st)) (clock st))] |}.

Definition afterDelay (w : Browser) (ms : Z) (st : Tab) : Tab :=
  {| clock := clock st + took w (Delay ms) (length (entries st)) (clock st);
     entries := entries st ++ [Called (Delay ms) (Resolved Undefined)] |}.

Lemma call_run w c st :
  call w c st
  = (match respond w c (length (entries st)) (clock st) with
     | Resolved v => Ok v
     | Rejected e => Throw e
     end, afterCall w c st).
Proof. reflexivity. Qed.

(** One round of the polling loop. *)
Lemma pollUntil_step {A} w fuel inTime script interval (verdict : Value -> option A) st :
  pollUntil w (S fuel) inTime script interval verdict st
  = if inTime (clock st) then
      match respond w (RuntimeEvaluate script) (length (entries st)) (clock st) with
      | Resolved v =>
          match verdict v with
          | Some a => (Ok (Some a), afterCall w (RuntimeEvaluate script) st)
          | None =>
              pollUntil w fuel inTime script interval verdict
                (afterDelay w interval (afterCall w (RuntimeEvaluate script) st))
          end
      | Rejected e => (Throw e, afterCall w (RuntimeEvaluate script) st)
      end
    else (Ok None, st).
Proof.
  cbn [pollUntil]. unfold andThen, dateNow. destruct (inTime (clock st)); [|reflexivity].
  rewrite call_run.
  destruct (respond w (RuntimeEvaluate script) (length (entries st)) (clock st)) as [v|e];
    [|reflexivity].
  destruct (verdict v); reflexivity.
Qed.

(** The polling loop, whatever the clock does: what it records and how it
    ends. *)
Lemma pollUntil_run {A} w fuel inTime script interval (verdict : Value -> option A) :
  forall st,
  let r := pollUntil w fuel inTime script interval verdict st in
  exists evs,
    entries (snd r) = entries st ++ evs /\
    Forall (pollEntry script interval) evs /\
    match fst r with
    | Ok (Some a) =>
        exists pre v,
          evs = pre ++ [Called (RuntimeEvaluate script) (Resolved v)] /\
          verdict v = Some a /\ forallb (undecided verdict) pre = true
    | Ok None => forallb (undecided verdict) evs = true /\ inTime (clock (snd r)) = false
    | Throw e =>
        exists pre,
          evs = pre ++ [Called (RuntimeEvaluate script) (Rejected e)] /\
          forallb (undecided verdict) pre = true
    | OutOfFuel => forallb (undecided verdict) evs = true
    end.
Proof.
  induction fuel as [|fuel IH]; intros st; cbv zeta.
  - exists []. simpl. rewrite app_nil_r. auto.
  - rewrite pollUntil_step.
    destruct (inTime (clock st)) eqn:Etime.
    2:{ exists []. simpl. rewrite app_nil_r. auto. }
    set (st1 := afterCall w (RuntimeEvaluate script) st).
    assert (Ht1 : entries st1
                  = entries st ++ [Called (RuntimeEvaluate script)
                                     (respond w (RuntimeEvaluate script) (length (entries st))
                                        (clock st))]) by reflexivity.
    destruct (respond w (RuntimeEvaluate script) (length (entries st)) (clock st)) as [v|e].
    2:{ exists [Called (RuntimeEvaluate script) (Rejected e)]. cbn [fst snd]. repeat split; auto.
        - constructor; [left; eauto|constructor].
        - exists []. auto. }
    destruct (verdict v) as [a|] eqn:Ev.
    { exists [Called (RuntimeEvaluate script) (Resolved v)]. cbn [fst snd]. repeat split; auto.
      - constructor; [left; eauto|constructor].
      - exists [], v. auto. }
    destruct (IH (afterDelay w interval st1)) as (evs & Ht & Hp & Hr). cbv zeta in *.
    exists (Called (RuntimeEvaluate script) (Resolved v)
              :: Called (Delay interval) (Resolved Undefined) :: evs).
    split; [rewrite Ht; cbn [afterDelay entries]; rewrite Ht1; now rewrite <- !app_assoc|].
    split; [constructor; [left; eauto|constructor; [now right|exact Hp]]|].
    destruct (fst (pollUntil w fuel inTime script interval verdict (afterDelay w interval st1)))
      as [[a|]|e|].
    + destruct Hr as (pre & v' & -> & Hv & Hpre).
      exists (Called (RuntimeEvaluate script) (Resolved v)
                :: Called (Delay interval) (Resolved Undefined) :: pre), v'.
      repeat split; auto. simpl. now rewrite Ev.
    + destruct Hr as [Hu Hc]. split; [simpl; now rewrite Ev|exact Hc].
    + destruct Hr as (pre & -> & Hpre).
      exists (Called (RuntimeEvaluate script) (Resolved v)
                :: Called (Delay interval) (Resolved Undefined) :: pre).
      split; [reflexivity|]. simpl. now rewrite Ev.
    + simpl. now rewrite Ev.
Qed.

(** The polling loop under a punctual clock: it polls at most once per
    interval while the condition can hold, and ends when given one round of
    fuel per interval and one more. *)
Lemma pollUntil_timed {A} w fuel inTime script interval (verdict : Value -> option A) limit :
  punctual w -> 0 < interval ->
  (forall now, limit <= now -> inTime now = false) ->
  forall st,
  let r := pollUntil w fuel inTime script interval verdict st in
  exists evs,
    entries (snd r) = entries st ++ evs /\
    clock st <= clock (snd r) /\
    (count isPoll evs = 0%nat \/ (Z.of_nat (count isPoll evs) - 1) * interval < limit - clock st) /\
    ((1 <= fuel)%nat -> limit - clock st <= (Z.of_nat fuel - 1) * interval ->
     fst r <> OutOfFuel).
Proof.
  intros [Hpos Hdelay] Hi Hlimit.
  induction fuel as [|fuel IH]; intros st; cbv zeta.
  - exists []. simpl. rewrite app_nil_r. repeat split; auto; lia.
  - rewrite pollUntil_step.
    destruct (inTime (clock st)) eqn:Etime.
    2:{ exists []. simpl. rewrite app_nil_r. repeat split; auto; try (intros; discriminate); lia. }
    assert (Hbefore : clock st < limit).
    { destruct (Z_lt_le_dec (clock st) limit) as [Hlt|Hge]; [exact Hlt|].
      rewrite (Hlimit _ Hge) in Etime. discriminate. }
    set (st1 := afterCall w (RuntimeEvaluate script) st).
    assert (Ht1 : entries st1
                  = entries st ++ [Called (RuntimeEvaluate script)
                                     (respond w (RuntimeEvaluate script) (length (entries st))
                                        (clock st))]) by reflexivity.
    assert (H1 : clock st <= clock st1).
    { subst st1. cbn [afterCall clock].
      pose proof (Hpos (RuntimeEvaluate script) (length (entries st)) (clock st)). lia. }
    destruct (respond w (RuntimeEvaluate script) (length (entries st)) (clock st)) as [v|e].
    2:{ exists [Called (RuntimeEvaluate script) (Rejected e)]. cbn [fst snd].
        repeat split; auto; try (intros; discriminate); right; simpl; lia. }
    destruct (verdict v) as [a|] eqn:Ev.
    { exists [Called (RuntimeEvaluate script) (Resolved v)]. cbn [fst snd].
      repeat split; auto; try (intros; discriminate); right; simpl; lia. }
    assert (H2 : clock st1 + interval <= clock (afterDelay w interval st1)).
    { cbn [afterDelay clock].
      pose proof (Hdelay interval (length (entries st1)) (clock st1)). lia. }
    destruct (IH (afterDelay w interval st1)) as (evs & Ht & Hc & Hn & Hf). cbv zeta in *.
    exists (Called (RuntimeEvaluate script) (Resolved v)
              :: Called (Delay interval) (Resolved Undefined) :: evs).
    split; [rewrite Ht; cbn [afterDelay entries]; rewrite Ht1; now rewrite <- !app_assoc|].
    split; [lia|]. split.
    + right. cbn [count isPoll]. destruct Hn as [->|Hn]; [simpl; lia|]. nia.
    + intros _ Hfuel. apply Hf; [|nia].
      destruct fuel; [|lia]. simpl in Hfuel. lia.
Qed.

Lemma undecided_In {A} (verdict : Value -> option A) evs script v :
  forallb (undecided verdict) evs = true ->
  In (Called (RuntimeEvaluate script) (Resolved v)) evs -> verdict v = None.
Proof.
  intros H Hin. rewrite forallb_forall in H. specialize (H _ Hin). simpl in H.
  now destruct (verdict v).
Qed.

Lemma count_le f g evs :
  (forall e, f e = true -> g e = true) -> (count f evs <= count g evs)%nat.
Proof.
  intros Hfg. induction evs as [|e evs IH]; simpl; [lia|].
  destruct (f e) eqn:Ef; [rewrite (Hfg e Ef); lia|]. destruct (g e); lia.
Qed.

(** An evaluation of the click script, and one of the commit check. *)
Definition sendPoll (e : Entry) : bool :=
  match e with
  | Called (RuntimeEvaluate ClickSend) _ => true
  | _ => false
  end.

Definition commitPoll (e : Entry) : bool :=
  match e with
  | Called (RuntimeEvaluate (PromptInConversation _)) _ => true
  | _ => false
  end.

Lemma pollEntry_count (f : Entry -> bool) script interval evs :
  (forall answer, f (Called (RuntimeEvaluate script) answer) = false) ->
  f (Called (Delay interval) (Resolved Undefined)) = false ->
  Forall (pollEntry script interval) evs -> count f evs = 0%nat.
Proof.
  intros Hs Hd. induction 1 as [|e evs He _ IH]; [reflexivity|].
  simpl. rewrite IH. destruct He as [[answer ->]| ->]; [now rewrite Hs|now rewrite Hd].
Qed.

(** [waitForPrompt], and with it any loop that ends by a deadline. *)
Lemma deadline_passed (deadline now : Z) : deadline <= now -> (now <? deadline) = false.
Proof. intros H. now apply Z.ltb_ge. Qed.

Lemma attemptSendButton_run w fuel st :
  let r := attemptSendButton w fuel st in
  exists evs,
    entries (snd r) = entries st ++ evs /\
    Forall (pollEntry ClickSend 100) evs /\
    clicks evs = match fst r with Ok true => 1%nat | _ => 0%nat end /\
    (punctual w ->
     clock st <= clock (snd r) /\ (count isPoll evs <= 20)%nat /\
     ((21 <= fuel)%nat -> fst r <> OutOfFuel)).
Proof.
  cbv zeta. unfold attemptSendButton, andThen, dateNow.
  destruct (pollUntil_run w fuel (fun now => now <? clock st + 2000) ClickSend 100
              sendVerdict st) as (evs & Ht & Hp & Hr). cbv zeta in *.
  exists evs.
  assert (Htimed : punctual w ->
            clock st <= clock (snd (pollUntil w fuel (fun now => now <? clock st + 2000)
                                      ClickSend 100 sendVerdict st)) /\
            (count isPoll evs <= 20)%nat /\
            ((21 <= fuel)%nat ->
             fst (pollUntil w fuel (fun now => now <? clock st + 2000) ClickSend 100
                    sendVerdict st) <> OutOfFuel)).
  { intros Hw.
    destruct (pollUntil_timed w fuel (fun now => now <? clock st + 2000) ClickSend 100
                sendVerdict (clock st + 2000) Hw ltac:(lia)
                (deadline_passed (clock st + 2000)) st) as (evs' & Ht' & Hc & Hn & Hf).
    cbv zeta in *. rewrite Ht in Ht'. apply app_inv_head in Ht'. subst evs'.
    repeat split; [exact Hc|lia|]. intros Hfuel. apply Hf; lia. }
  destruct (pollUntil w fuel (fun now => now <? clock st + 2000) ClickSend 100 sendVerdict st)
    as [[[[|]|]|e|] st']; unfold give; cbn [fst snd] in *;
    (split; [exact Ht|]); (split; [exact Hp|]);
    (split; [|intros Hw; destruct (Htimed Hw) as (H1 & H2 & H3);
              split; [exact H1|]; split; [exact H2|]; first [exact H3|intros _; discriminate|intros Hf _; now apply H3]]).
  - destruct Hr as (pre & v & -> & Hv & Hpre). unfold clicks. rewrite count_app.
    fold (clicks pre). rewrite (undecided_clicks pre Hpre). simpl.
    destruct v; try discriminate. simpl in Hv.
    destruct (String.eqb s "clicked"); [reflexivity|].
    destruct (String.eqb s "missing"); discriminate.
  - destruct Hr as (pre & v & -> & Hv & Hpre). unfold clicks. rewrite count_app.
    fold (clicks pre). rewrite (undecided_clicks pre Hpre). simpl.
    destruct v; try reflexivity. simpl in Hv.
    destruct (String.eqb s "clicked"); [discriminate|reflexivity].
  - now apply undecided_clicks.
  - destruct Hr as (pre & -> & Hpre). unfold clicks. rewrite count_app.
    fold (clicks pre). now rewrite (undecided_clicks pre Hpre).
  - now apply undecided_clicks.
Qed.

Lemma verifyPromptCommitted_run w fuel prompt timeoutMs st :
  let r := verifyPromptCommitted w fuel prompt timeoutMs st in
  exists evs,
    entries (snd r) = entries st ++ evs /\
    Forall (pollEntry (PromptInConversation (Js.trim prompt)) 100) evs /\
    (forall u, fst r = Ok u ->
       exists pre v,
         evs = pre ++ [Called (RuntimeEvaluate (PromptInConversation (Js.trim prompt)))
                         (Resolved v)] /\
         toBoolean (field "userMatched" v) = true) /\
    (punctual w ->
     clock st <= clock (snd r) /\
     (count isPoll evs = 0%nat \/ (Z.of_nat (count isPoll evs) - 1) * 100 < timeoutMs) /\
     ((1 <= fuel)%nat -> timeoutMs <= (Z.of_nat fuel - 1) * 100 -> fst r <> OutOfFuel)).
Proof.
  cbv zeta. unfold verifyPromptCommitted, andThen, dateNow.
  set (verdict := fun value : Value =>
                    if toBoolean (field "userMatched" value) then Some tt else None).
  destruct (pollUntil_run w fuel (fun now => now <? clock st + timeoutMs)
              (PromptInConversation (Js.trim prompt)) 100 verdict st)
    as (evs & Ht & Hp & Hr). cbv zeta in *.
  exists evs.
  assert (Htimed : punctual w ->
            clock st <= clock (snd (pollUntil w fuel (fun now => now <? clock st + timeoutMs)
                                      (PromptInConversation (Js.trim prompt)) 100 verdict st)) /\
            (count isPoll evs = 0%nat \/ (Z.of_nat (count isPoll evs) - 1) * 100 < timeoutMs) /\
            ((1 <= fuel)%nat -> timeoutMs <= (Z.of_nat fuel - 1) * 100 ->
             fst (pollUntil w fuel (fun now => now <? clock st + timeoutMs)
                    (PromptInConversation (Js.trim prompt)) 100 verdict st) <> OutOfFuel)).
  { intros Hw.
    destruct (pollUntil_timed w fuel (fun now => now <? clock st + timeoutMs)
                (PromptInConversation (Js.trim prompt)) 100 verdict (clock st + timeoutMs)
                Hw ltac:(lia) (deadline_passed (clock st + timeoutMs)) st)
      as (evs' & Ht' & Hc & Hn & Hf).
    cbv zeta in *. rewrite Ht in Ht'. apply app_inv_head in Ht'. subst evs'.
    repeat split; [exact Hc|destruct Hn; [now left|right; lia]|].
    intros Hfuel Hlong. apply Hf; [exact Hfuel|lia]. }
  destruct (pollUntil w fuel (fun now => now <? clock st + timeoutMs)
              (PromptInConversation (Js.trim prompt)) 100 verdict st)
    as [[[[]|]|e|] st']; unfold give, raise; cbn [fst snd] in *;
    (split; [exact Ht|]); (split; [exact Hp|]);
    (split; [|intros Hw; destruct (Htimed Hw) as (H1 & H2 & H3);
              split; [exact H1|]; split; [exact H2|];
              first [exact H3|intros _ _; discriminate|intros Hf Hlong _; now apply H3]]);
    try (intros u; discriminate).
  intros _ _. destruct Hr as (pre & v & -> & Hv & _). exists pre, v. split; [reflexivity|].
  subst verdict. simpl in Hv. now destruct (toBoolean (field "userMatched" v)).
Qed.

Lemma call_cases w c st :
  let r := call w c st in
  exists answer,
    entries (snd r) = entries st ++ [Called c answer] /\
    (punctual w -> clock st <= clock (snd r)) /\
    fst r = match answer with Resolved v => Ok v | Rejected e => Throw e end.
Proof.
  cbv zeta. rewrite call_run. cbn [fst snd afterCall entries clock].
  eexists. split; [reflexivity|]. split; [|reflexivity].
  intros [Hpos _]. specialize (Hpos c (length (entries st)) (clock st)). lia.
Qed.

Lemma sendLoop_facts evs :
  Forall (pollEntry ClickSend 100) evs ->
  keys evs = [] /\ inserted evs = [] /\ count commitPoll evs = 0%nat /\
  (count sendPoll evs <= count isPoll evs)%nat.
Proof.
  intros H. destruct (pollEntry_quiet _ _ _ H) as [Hk Hi]. repeat split; auto.
  - now apply (pollEntry_count commitPoll ClickSend 100).
  - apply count_le. intros [[| [] | | |] ?|]; simpl; auto.
Qed.

Lemma commitLoop_facts prompt evs :
  Forall (pollEntry (PromptInConversation prompt) 100) evs ->
  keys evs = [] /\ inserted evs = [] /\ clicks evs = 0%nat /\ count sendPoll evs = 0%nat /\
  (count commitPoll evs <= count isPoll evs)%nat.
Proof.
  intros H. destruct (pollEntry_quiet _ _ _ H) as [Hk Hi]. repeat split; auto.
  - now apply (pollEntry_count clicked (PromptInConversation prompt) 100).
  - now apply (pollEntry_count sendPoll (PromptInConversation prompt) 100).
  - apply count_le. intros [[| [] | | |] ?|]; simpl; auto.
Qed.

(** Symbolic execution of a function of this file, one awaited call or loop
    at a time. *)
Ltac walk :=
  repeat first
    [ match goal with
      | |- context [call ?w ?c ?st] =>
          let answer := fresh "answer" in
          let Ht := fresh "Ht" in
          let Hc := fresh "Hc" in
          let Hr := fresh "Hr" in
          let r := fresh "r" in
          let st' := fresh "st" in
          destruct (call_cases w c st) as (answer & Ht & Hc & Hr);
          destruct (call w c st) as [r st']; cbn [fst snd entries clock] in Ht, Hc, Hr;
          destruct answer; subst r; cbv beta iota
      | |- context [attemptSendButton ?w ?fuel ?st] =>
          let evs := fresh "evsS" in
          let Ht := fresh "Ht" in
          let Hp := fresh "Hp" in
          let Hn := fresh "Hn" in
          let Hc := fresh "Hc" in
          let st' := fresh "st" in
          destruct (attemptSendButton_run w fuel st) as (evs & Ht & Hp & Hn & Hc);
          apply sendLoop_facts in Hp;
          destruct (attemptSendButton w fuel st) as [[[|]|?|] st'];
          cbn [fst snd entries clock] in Ht, Hn, Hc; cbv beta iota
      | |- context [verifyPromptCommitted ?w ?fuel ?prompt ?timeoutMs ?st] =>
          let evs := fresh "evsV" in
          let Ht := fresh "Ht" in
          let Hp := fresh "Hp" in
          let Hv := fresh "Hv" in
          let Hc := fresh "Hc" in
          let st' := fresh "st" in
          destruct (verifyPromptCommitted_run w fuel prompt timeoutMs st)
            as (evs & Ht & Hp & Hv & Hc);
          apply commitLoop_facts in Hp;
          destruct (verifyPromptCommitted w fuel prompt timeoutMs st) as [[[]|?|] st'];
          cbn [fst snd entries clock] in Ht, Hv, Hc; cbv beta iota
      | |- context [if negb ?b then _ else _] =>
          lazymatch b with
          | true => cbn [negb]
          | false => cbn [negb]
          | _ => destruct b eqn:?; cbn [negb]
          end
      | |- context [if ?b then _ else _] =>
          lazymatch b with
          | true => fail
          | false => fail
          | _ => destruct b eqn:?
          end
      end ].

(** The entries recorded along a path are those of its steps, in order. *)
Ltac recorded :=
  unfold raise, give, logger; cbn [fst snd entries clock];
  repeat match goal with
         | H : entries ?s = _ |- context [entries ?s] => rewrite H
         end;
  rewrite <- ?app_assoc; reflexivity.

(** The measures of a path, from those of its steps. *)
Ltac measured :=
  rewrite ?keys_app, ?inserted_app, ?count_app;
  cbn [keys inserted count clicked sendPoll commitPoll isPoll app];
  repeat match goal with
         | H : keys _ = _ |- _ => rewrite H
         | H : inserted _ = _ |- _ => rewrite H
         | H : count _ _ = _ |- _ => rewrite H
         end;
  cbn [app Nat.add].

Lemma submitPrompt_run w fuel prompt st :
  let run := submitPrompt w fuel prompt st in
  exists evs,
    entries (snd run) = entries st ++ evs /\
    (clicks evs = 0%nat \/ clicks evs = 1%nat /\ keys evs = []) /\
    (inserted evs = [] \/ inserted evs = [prompt]) /\
    (forall u, fst run = Ok u ->
       inserted evs = [prompt] /\
       (clicks evs = 1%nat \/ keys evs = ["rawKeyDown"; "keyUp"]%string) /\
       exists pre v,
         evs = pre ++ [Called (RuntimeEvaluate (PromptInConversation (Js.trim prompt)))
                         (Resolved v)] /\
         toBoolean (field "userMatched" v) = true) /\
    (punctual w ->
     clock st <= clock (snd run) /\
     (count sendPoll evs <= 20)%nat /\ (count commitPoll evs <= 300)%nat /\
     ((301 <= fuel)%nat -> fst run <> OutOfFuel)).
Proof.
  cbv zeta. unfold submitPrompt, andThen, give, raise, logger. cbv beta iota. walk.
  all: eexists; (split; [recorded|]).
  all: cbn [fst snd entries clock].
  all: repeat match goal with H : _ /\ _ |- _ => destruct H end.
  all: unfold clicks in *.
  all: split; [measured; first [left; reflexivity|right; split; reflexivity]|].
  all: split; [measured; first [left; reflexivity|right; reflexivity]|].
  all: split.
  all: try (intros u Hu; discriminate Hu).
  all: try (intros Hw;
            repeat match goal with H : punctual _ -> _ |- _ => specialize (H Hw) end;
            repeat match goal with H : _ /\ _ |- _ => destruct H end;
            split; [lia|]; split; [measured; lia|]; split; [measured; lia|];
            intros Hfuel; first [discriminate|exfalso]).
  all: try (match goal with
            | H : _ -> OutOfFuel <> OutOfFuel |- _ => apply H; solve [lia|reflexivity]
            | H : _ -> _ -> OutOfFuel <> OutOfFuel |- _ => apply H; solve [lia|reflexivity]
            end).
  all: intros u _; (split; [measured; reflexivity|]);
    (split; [measured; first [left; reflexivity|right; reflexivity]|]).
  all: match goal with
       | H : forall u, Ok tt = Ok u -> _ |- _ => destruct (H tt eq_refl) as (pre & v' & -> & Hm)
       end.
  all: rewrite ?app_assoc; eexists _, v'; split; [reflexivity|exact Hm].
Qed.

(** A browser that answers each call in 5 ms and wakes from a delay on
    time. The composer is there from 450 ms on, the send button can be
    clicked from 300 ms on, and the prompt shows in the conversation from
    1000 ms on. *)
Definition steady : Browser :=
  {| respond := fun c _ t =>
       Resolved
         match c with
         | RuntimeEvaluate ReadyState => Str (if t <? 250 then "loading" else "interactive")
         | RuntimeEvaluate ComposerEnabled => Bool (450 <=? t)
         | RuntimeEvaluate FocusComposer => Obj [member "focused" (Bool true)]
         | RuntimeEvaluate ReadComposer =>
             Obj [member "editorText" (Str "Hello"); member "fallbackValue" (Str "")]
         | RuntimeEvaluate ClickSend => Str (if t <? 300 then "disabled" else "clicked")
         | RuntimeEvaluate (PromptInConversation _) =>
             Obj [member "userMatched" (Bool (1000 <=? t))]
         | _ => Undefined
         end;
     took := fun c _ _ => match c with Delay ms => Z.max ms 0 | _ => 5 end |}.

Definition pageOpened : Tab := {| clock := 0; entries := [] |}.

Lemma steady_punctual : punctual steady.
Proof. split; intros; simpl; [destruct c|]; lia. Qed.

(** X20. [submitPrompt] types the prompt at most once, and only with
    [Input.insertText]; the send button is clicked at most once, and once it
    was clicked no Enter key event is dispatched. When the call returns, the
    prompt was typed once, it was sent either by one click or by one Enter
    key press (rawKeyDown, then keyUp), never both, and the last thing the
    page answered is that the prompt shows in a conversation turn. *)
Theorem prompt_sent_once (w : Browser) (fuel : nat) (prompt : string) (st : Tab) :
  let run := submitPrompt w fuel prompt st in
  exists evs,
    entries (snd run) = entries st ++ evs /\
    (inserted evs = [] \/ inserted evs = [prompt]) /\
    (clicks evs = 0%nat \/ clicks evs = 1%nat /\ keys evs = []) /\
    match fst run with
    | Ok _ =>
        inserted evs = [prompt] /\
        (clicks evs = 1%nat \/ keys evs = ["rawKeyDown"; "keyUp"]%string) /\
        exists pre v,
          evs = pre ++ [Called (RuntimeEvaluate (PromptInConversation (Js.trim prompt)))
                          (Resolved v)] /\
          toBoolean (field "userMatched" v) = true
    | _ => True
    end.
Proof.
  cbv zeta. destruct (submitPrompt_run w fuel prompt st) as (evs & Ht & Hc & Hi & Hok & _).
  cbv zeta in *. exists evs. repeat split; auto.
  destruct (fst (submitPrompt w fuel prompt st)) as [u| |]; [|exact I|exact I].
  exact (Hok u eq_refl).
Qed.

(** X21. Under a punctual clock [submitPrompt] ends, by returning or by
    throwing, and before that it asks the page for the send button at most
    20 times (2 s at 100 ms) and for the committed prompt at most 300 times
    (30 s at 100 ms). *)
Theorem submitPrompt_gives_up (w : Browser) (fuel : nat) (prompt : string) (st : Tab) :
  punctual w -> (301 <= fuel)%nat ->
  let run := submitPrompt w fuel prompt st in
  fst run <> OutOfFuel /\
  clock st <= clock (snd run) /\
  exists evs,
    entries (snd run) = entries st ++ evs /\
    (count sendPoll evs <= 20)%nat /\ (count commitPoll evs <= 300)%nat.
Proof.
  intros Hw Hfuel. cbv zeta.
  destruct (submitPrompt_run w fuel prompt st) as (evs & Ht & _ & _ & _ & Htimed).
  cbv zeta in *. destruct (Htimed Hw) as (Hc & Hs & Hv & Hf).
  split; [exact (Hf Hfuel)|]. split; [exact Hc|]. exists evs. auto.
Qed.

Lemma submitPrompt_gives_up_witness :
  fst (submitPrompt steady 301 "Hello" pageOpened) <> OutOfFuel.
Proof.
  exact (proj1 (submitPrompt_gives_up steady 301 "Hello" pageOpened steady_punctual
                  ltac:(lia))).
Defined.

(** An entry that is not an evaluation, or an evaluation that resolved with
    a value the loop does not accept: no rejected evaluation, and no accepted
    answer. *)
Definition declined (accept : Value -> bool) (e : Entry) : bool :=
  match e with
  | Called (RuntimeEvaluate _) (Resolved v) => negb (accept v)
  | Called (RuntimeEvaluate _) (Rejected _) => false
  | _ => true
  end.

Lemma undecided_declined (accept : Value -> bool) evs :
  forallb (undecided (fun value => if accept value then Some tt else None)) evs = true ->
  forallb (declined accept) evs = true.
Proof.
  induction evs as [|e evs IH]; simpl; [reflexivity|].
  intros H. apply andb_true_iff in H as [He Hrest]. rewrite (IH Hrest), andb_true_r.
  destruct e as [[| script | | |] [v|]|]; simpl in *; auto.
  now destruct (accept v).
Qed.

Lemma declined_rejected accept evs script e :
  forallb (declined accept) evs = true ->
  ~ In (Called (RuntimeEvaluate script) (Rejected e)) evs.
Proof.
  intros H Hin. rewrite forallb_forall in H. specialize (H _ Hin). discriminate.
Qed.

Lemma declined_In accept evs script v :
  forallb (declined accept) evs = true ->
  In (Called (RuntimeEvaluate script) (Resolved v)) evs -> accept v = false.
Proof.
  intros H Hin. rewrite forallb_forall in H. specialize (H _ Hin). simpl in H.
  now destruct (accept v).
Qed.

(** X22. Under a punctual clock [ensurePromptReady] ends, having polled the
    page at most once per 200 ms of the timeout. It returns, having logged
    that the textarea is ready, at the first evaluation that finds an input
    that is not disabled, every earlier one having answered no; it throws
    "Prompt textarea did not appear before timeout" when every evaluation
    answered no, and then not before the timeout has passed. An evaluation
    that rejects ends the call: it is the last entry and the call throws
    its error. *)
Theorem composer_wait_outcome (w : Browser) (fuel : nat) (timeoutMs : Z) (st : Tab) :
  punctual w -> (1 <= fuel)%nat -> timeoutMs <= (Z.of_nat fuel - 1) * 200 ->
  let run := ensurePromptReady w fuel timeoutMs st in
  exists evs,
    entries (snd run) = entries st ++ evs /\
    (count isPoll evs = 0%nat \/ (Z.of_nat (count isPoll evs) - 1) * 200 < timeoutMs) /\
    (forall pre e post,
       evs = pre ++ Called (RuntimeEvaluate ComposerEnabled) (Rejected e) :: post ->
       fst run = Throw e /\ post = []) /\
    match fst run with
    | Ok _ =>
        exists pre v,
          evs = pre ++ [Called (RuntimeEvaluate ComposerEnabled) (Resolved v);
                        Logged "Prompt textarea ready"] /\
          toBoolean v = true /\ forallb (declined toBoolean) pre = true
    | Throw e =>
        (exists pre, evs = pre ++ [Called (RuntimeEvaluate ComposerEnabled) (Rejected e)] /\
                     forallb (declined toBoolean) pre = true) \/
        (e = Err "Prompt textarea did not appear before timeout" /\
         clock st + timeoutMs <= clock (snd run) /\
         forallb (declined toBoolean) evs = true)
    | OutOfFuel => False
    end.
Proof.
  intros Hw Hfuel Hlong. cbv zeta.
  unfold ensurePromptReady, waitForPrompt, andThen, dateNow.
  set (verdict := fun value : Value => if toBoolean value then Some tt else None).
  destruct (pollUntil_run w fuel (fun now => now <? clock st + timeoutMs) ComposerEnabled 200
              verdict st) as (evs & Ht & Hp & Hr).
  destruct (pollUntil_timed w fuel (fun now => now <? clock st + timeoutMs) ComposerEnabled 200
              verdict (clock st + timeoutMs) Hw ltac:(lia)
              (deadline_passed (clock st + timeoutMs)) st) as (evs' & Ht' & Hc & Hn & Hf).
  cbv zeta in *. rewrite Ht in Ht'. apply app_inv_head in Ht'. subst evs'.
  assert (Hpolls : count isPoll evs = 0%nat \/ (Z.of_nat (count isPoll evs) - 1) * 200 < timeoutMs).
  { destruct Hn as [Hn|Hn]; [now left|right; lia]. }
  assert (Hends : fst (pollUntil w fuel (fun now => now <? clock st + timeoutMs)
                         ComposerEnabled 200 verdict st) <> OutOfFuel).
  { apply Hf; [exact Hfuel|lia]. }
  destruct (pollUntil w fuel (fun now => now <? clock st + timeoutMs) ComposerEnabled 200
              verdict st) as [[[[]|]|e|] st']; unfold give, raise, logger;
    cbn [fst snd negb entries clock] in *.
  - destruct Hr as (pre & v & -> & Hv & Hpre). apply undecided_declined in Hpre.
    exists ((pre ++ [Called (RuntimeEvaluate ComposerEnabled) (Resolved v)])
              ++ [Logged "Prompt textarea ready"]).
    split; [now rewrite Ht, <- !app_assoc|]. split; [|split].
    + rewrite count_app. simpl. now rewrite Nat.add_0_r.
    + intros pre' e' post' Heq. exfalso.
      assert (Hin : In (Called (RuntimeEvaluate ComposerEnabled) (Rejected e'))
                      ((pre ++ [Called (RuntimeEvaluate ComposerEnabled) (Resolved v)])
                         ++ [Logged "Prompt textarea ready"])).
      { rewrite Heq. apply in_elt. }
      rewrite !in_app_iff in Hin. destruct Hin as [[Hin|Hin]|Hin].
      * exact (declined_rejected _ _ _ _ Hpre Hin).
      * simpl in Hin. destruct Hin as [Hin|[]]. discriminate.
      * simpl in Hin. destruct Hin as [Hin|[]]. discriminate.
    + exists pre, v. split; [now rewrite <- app_assoc|].
      subst verdict. simpl in Hv. split; [now destruct (toBoolean v)|exact Hpre].
  - destruct Hr as [Hu Hlate]. apply undecided_declined in Hu.
    exists evs. split; [exact Ht|]. split; [exact Hpolls|]. split.
    + intros pre' e' post' Heq. exfalso.
      apply (declined_rejected toBoolean evs ComposerEnabled e' Hu).
      rewrite Heq. apply in_elt.
    + right. apply Z.ltb_ge in Hlate. repeat split; auto.
  - destruct Hr as (pre & -> & Hpre). apply undecided_declined in Hpre.
    exists (pre ++ [Called (RuntimeEvaluate ComposerEnabled) (Rejected e)]).
    split; [exact Ht|]. split; [exact Hpolls|]. split.
    + intros pre' e' post' Heq.
      destruct post' as [|x post'].
      * apply app_inj_tail in Heq as [_ Heq]. injection Heq as ->. auto.
      * exfalso. apply (declined_rejected toBoolean pre ComposerEnabled e' Hpre).
        assert (Hl : pre ++ [Called (RuntimeEvaluate ComposerEnabled) (Rejected e)]
                     = (pre' ++ Called (RuntimeEvaluate ComposerEnabled) (Rejected e')
                          :: removelast (x :: post')) ++ [List.last (x :: post') x]).
        { rewrite Heq, <- app_assoc. cbn [app]. f_equal. f_equal.
          apply app_removelast_last. discriminate. }
        apply app_inj_tail in Hl as [-> _]. apply in_elt.
    + left. eauto.
  - exfalso. now apply Hends.
Qed.

Lemma composer_wait_outcome_witness :
  fst (ensurePromptReady steady 151 30000 pageOpened) <> OutOfFuel.
Proof.
  destruct (composer_wait_outcome steady 151 30000 pageOpened steady_punctual
              ltac:(lia) ltac:(lia)) as (evs & _ & _ & _ & H).
  intros E. rewrite E in H. exact H.
Defined.

Lemma elapsed_passed (start timeoutMs now : Z) :
  start + timeoutMs <= now -> (now - start <? timeoutMs) = false.
Proof. intros H. apply Z.ltb_ge. lia. Qed.

(** X23. Under a punctual clock [navigateToChatGPT] ends. It logs the
    address and calls [Page.navigate]. When that call rejects, the error is
    thrown and nothing more is asked of the page. When it resolves,
    [document.readyState] is polled, at most 450 times (45 s at 100 ms): the
    call returns at the first answer 'complete' or 'interactive', every
    earlier answer having been another value; it throws the error of an
    evaluation that rejects, which is then the last entry; and it throws
    "Page did not reach ready state in time" when every evaluation resolved
    with another value, not before 45 s have passed. *)
Theorem navigation_outcome (w : Browser) (fuel : nat) (url : string) (st : Tab) :
  punctual w -> (451 <= fuel)%nat ->
  let run := navigateToChatGPT w fuel url st in
  exists answer polls,
    entries (snd run)
    = entries st ++ [Logged ("Navigating to " ++ url)%string; Called (PageNavigate url) answer]
        ++ polls /\
    (count isPoll polls <= 450)%nat /\
    match answer with
    | Rejected e => fst run = Throw e /\ polls = []
    | Resolved _ =>
        match fst run with
        | Ok _ =>
            exists pre v,
              polls = pre ++ [Called (RuntimeEvaluate ReadyState) (Resolved v)] /\
              isReady v = true /\ forallb (declined isReady) pre = true
        | Throw e =>
            (exists pre, polls = pre ++ [Called (RuntimeEvaluate ReadyState) (Rejected e)] /\
                         forallb (declined isReady) pre = true) \/
            (e = Err "Page did not reach ready state in time" /\
             clock st + 45000 <= clock (snd run) /\
             forallb (declined isReady) polls = true)
        | OutOfFuel => False
        end
    end.
Proof.
  intros Hw Hfuel. cbv zeta.
  unfold navigateToChatGPT, andThen, logger. cbv beta iota.
  set (st0 := {| clock := clock st;
                 entries := entries st ++ [Logged ("Navigating to " ++ url)%string] |}).
  destruct (call_cases w (PageNavigate url) st0) as (answer & Ht0 & Hc0 & Hr0).
  destruct (call w (PageNavigate url) st0) as [r st1]. cbn [fst snd] in *.
  exists answer. destruct answer as [v0|e0]; subst r.
  2:{ exists []. cbn [fst snd]. rewrite Ht0. subst st0. cbn [entries].
      rewrite <- app_assoc. repeat split; auto. simpl. lia. }
  unfold waitForDocumentReady, andThen, dateNow.
  set (verdict := fun value : Value => if isReady value then Some tt else None).
  destruct (pollUntil_run w fuel (fun now => now - clock st1 <? 45000) ReadyState 100
              verdict st1) as (evs & Ht & Hp & Hr).
  destruct (pollUntil_timed w fuel (fun now => now - clock st1 <? 45000) ReadyState 100
              verdict (clock st1 + 45000) Hw ltac:(lia)
              (elapsed_passed (clock st1) 45000) st1) as (evs' & Ht' & Hc & Hn & Hf).
  cbv zeta in *. rewrite Ht in Ht'. apply app_inv_head in Ht'. subst evs'.
  assert (Hends : fst (pollUntil w fuel (fun now => now - clock st1 <? 45000) ReadyState 100
                         verdict st1) <> OutOfFuel).
  { apply Hf; lia. }
  exists evs.
  assert (Hall : forall st', entries st' = entries st1 ++ evs ->
                 entries st'
                 = entries st ++ [Logged ("Navigating to " ++ url)%string;
                                  Called (PageNavigate url) (Resolved v0)] ++ evs).
  { intros st' ->. rewrite Ht0. subst st0. cbn [entries]. now rewrite <- !app_assoc. }
  assert (Hstart : clock st <= clock st1).
  { specialize (Hc0 Hw). subst st0. cbn [clock] in Hc0. exact Hc0. }
  destruct (pollUntil w fuel (fun now => now - clock st1 <? 45000) ReadyState 100 verdict st1)
    as [[[[]|]|e|] st']; unfold give, raise; cbn [fst snd] in *;
    (split; [exact (Hall st' Ht)|]); (split; [lia|]).
  - destruct Hr as (pre & v & -> & Hv & Hpre). exists pre, v. split; [reflexivity|].
    subst verdict. simpl in Hv. split; [now destruct (isReady v)|].
    now apply undecided_declined.
  - right. destruct Hr as [Hu Hlate]. split; [reflexivity|].
    apply Z.ltb_ge in Hlate. split; [lia|]. now apply undecided_declined.
  - left. destruct Hr as (pre & -> & Hpre). exists pre. split; [reflexivity|].
    now apply undecided_declined.
  - now apply Hends.
Qed.

Lemma navigation_outcome_witness :
  fst (navigateToChatGPT steady 451 "https://chatgpt.com/" pageOpened) <> OutOfFuel.
Proof.
  destruct (navigation_outcome steady 451 "https://chatgpt.com/" pageOpened steady_punctual
              ltac:(lia)) as (answer & polls & _ & _ & H).
  intros E. rewrite E in H. destruct answer as [v|e]; [exact H|]. destruct H as [H _].
  discriminate.
Defined.
End PageDriverSpec.
